(** * Link prediction and feedback loops: the [LinkPredictionSimulator]

    A shallow embedding of the link-prediction notebook
    (notebooks/opinion-models: [louvain_communities],
    [add_negative_examples], [compute_features] and the class
    [LinkPredictionSimulator]) together with the properties of its
    rewiring loop.

    Conventions.
    - Node identifiers are the integers of the contact log ([Z]).
    - A pandas data frame is kept column-wise where the code works on
      columns and row-wise where it merges, samples or sorts rows.
    - A Python exception is a value [Raise e]; a method that mutates
      [self] is a function from the state to [result State].  A call
      that raises ends the run, as in the notebook's driver loop; the
      half-updated object it leaves behind is not modelled.
    - Every method takes the state [rs] of the global random source at
      its entry; each routine that draws from it has its own field in
      [External].
    - networkx, numpy's random source and scikit-learn are outside the
      repository.  Graph queries are modelled on an insertion-ordered
      node list and an undirected edge list; the numerical routines
      (PageRank, Louvain, modularity, the liblinear solver, the random
      permutation behind [DataFrame.sample], the unstable sort behind
      [sort_values]) are fields of the class [External].
    - The extra keyword arguments of the constructor ([self.kwargs])
      are keyword names with a graph or [None] as value, the only
      values [compute_features] has a use for.
    - Floating-point columns and means are idealised as exact
      rationals ([Q]); rounding is not modelled.
    - The top-level cells that split, group and evaluate the tables
      and the simulation loop of the driver cell are functions of the
      tables they read (module [cells], [link_mean], [X_test],
      [driver]); [louvain_plot] is modelled up to the drawing.
      Properties of the code that builds columns row by row are
      stated for frames with at least one row.
    - The agent-based notebooks ([OpinionModel], [CompartmentalModel])
      leave their update rules to be filled in and are not
      embedded. *)

From Stdlib Require Import ZArith QArith Qabs List Bool Arith Lia.
From Stdlib Require Import Permutation Sorted.
From Stdlib Require String Ascii DecimalString OrderedTypeEx.
Import ListNotations.
Import String.StringSyntax.
Delimit Scope string_scope with string.
Close Scope Q_scope.

Set Implicit Arguments.

(** ** Python results *)

Inductive PyError : Type :=
| ValueError
| KeyError
| IndexError
| AttributeError
| TypeError
| NotAPartition
| NetworkXError
| ZeroDivisionError.

Inductive result (A : Type) : Type :=
| Ok (a : A)
| Raise (e : PyError).

Arguments Ok {A} a.
Arguments Raise {A} e.

Definition bind {A B : Type} (r : result A) (k : A -> result B) : result B :=
  match r with
  | Ok a => k a
  | Raise e => Raise e
  end.

Notation "x <- r ;; k" := (bind r (fun x => k))
  (at level 100, r at next level, right associativity).

Abbreviation node := Z (only parsing).
Abbreviation Pair := (Z * Z)%type (only parsing).

Definition pair_eqb (p q : Pair) : bool :=
  (fst p =? fst q)%Z && (snd p =? snd q)%Z.

Definition mem_pair (p : Pair) (l : list Pair) : bool := existsb (pair_eqb p) l.

(** ** networkx graphs

    [nx.Graph] keeps its nodes in insertion order and at most one
    undirected edge per unordered pair. *)

Module nx.

Record Graph : Type := mkGraph { nodes : list node; edges : list Pair }.

Definition empty : Graph := mkGraph [] [].

Definition has_node (g : Graph) (v : node) : bool :=
  existsb (Z.eqb v) (nodes g).

Definition add_node (g : Graph) (v : node) : Graph :=
  if has_node g v then g else mkGraph (nodes g ++ [v]) (edges g).

Definition same_edge (u v : node) (e : Pair) : bool :=
  ((fst e =? u)%Z && (snd e =? v)%Z) || ((fst e =? v)%Z && (snd e =? u)%Z).

Definition has_edge (g : Graph) (u v : node) : bool :=
  existsb (same_edge u v) (edges g).

Definition add_edge (g : Graph) (u v : node) : Graph :=
  let g1 := add_node (add_node g u) v in
  if has_edge g1 u v then g1 else mkGraph (nodes g1) (edges g1 ++ [(u, v)]).

Definition add_edges_from (g : Graph) (l : list Pair) : Graph :=
  fold_left (fun h e => add_edge h (fst e) (snd e)) l g.

Definition add_nodes_from (g : Graph) (l : list node) : Graph :=
  fold_left add_node l g.

(** [nx.from_pandas_edgelist(df)] with the default column names. *)
Definition from_pandas_edgelist (df : list Pair) : Graph :=
  add_edges_from empty df.

Definition number_of_edges (g : Graph) : nat := length (edges g).

(** [G.degree(v)]; a self-loop counts twice. *)
Definition degree (g : Graph) (v : node) : Z :=
  fold_right
    (fun e acc =>
       ((if (fst e =? v)%Z then 1 else 0) + (if (snd e =? v)%Z then 1 else 0) + acc)%Z)
    0%Z (edges g).

(** [nx.common_neighbors(G, u, v)]: the [w] adjacent to both, other
    than [u] and [v]. *)
Definition common_neighbors (g : Graph) (u v : node) : list node :=
  filter
    (fun w => has_edge g u w && has_edge g v w
              && negb (w =? u)%Z && negb (w =? v)%Z)
    (nodes g).

End nx.

(** ** numpy and pandas helpers *)

Fixpoint insert_unique (x : Z) (l : list Z) : list Z :=
  match l with
  | [] => [x]
  | y :: t =>
      if (x <? y)%Z then x :: l
      else if (x =? y)%Z then l
      else y :: insert_unique x t
  end.

(** [np.unique]: the sorted distinct values. *)
Definition np_unique (l : list Z) : list Z := fold_right insert_unique [] l.

(** [DataFrame(product(l, l))] restricted to [source < target]. *)
Definition ordered_pairs (l : list node) : list Pair :=
  filter (fun p => (fst p <? snd p)%Z) (list_prod l l).

(** [pd.merge(left, right, on = [source, target], how = left)] where
    [right] carries one extra column: a left row is repeated once per
    matching right row, and kept once with a missing value when
    nothing matches. *)
Definition merge_left {V : Type} (left : list Pair) (right : list (Pair * V))
  : list (Pair * option V) :=
  flat_map
    (fun k =>
       match filter (fun r => pair_eqb k (fst r)) right with
       | [] => [(k, None)]
       | ms => map (fun r => (k, Some (snd r))) ms
       end)
    left.

(** The rows at the positions [idx], in that order. *)
Definition take_rows {A : Type} (df : list A) (idx : list nat) : list A :=
  flat_map (fun i => match nth_error df i with
                     | Some r => [r]
                     | None => []
                     end) idx.

(** [DataFrame.head(n)], also for negative [n]. *)
Definition head {A : Type} (n : Z) (l : list A) : list A :=
  if (0 <=? n)%Z then firstn (Z.to_nat n) l
  else firstn (length l - Z.to_nat (- n)) l.

(** A frame with the key columns [source], [target] and, when present,
    the boolean column [link]. *)
Record Frame : Type := mkFrame {
  keys : list Pair;
  link : option (list bool)
}.

Definition source (df : Frame) : list node := map fst (keys df).
Definition target (df : Frame) : list node := map snd (keys df).

(** A frame after [compute_features]: the feature columns in column
    order, each with its name. *)
Record FeatFrame : Type := mkFeatFrame {
  f_keys : list Pair;
  f_link : option (list bool);
  f_cols : list (String.string * list Q)
}.

Fixpoint get_col (cols : list (String.string * list Q)) (name : String.string)
  : option (list Q) :=
  match cols with
  | [] => None
  | (c, v) :: t => if String.eqb c name then Some v else get_col t name
  end.

(** [df[names]] for names of feature columns: a missing column is a
    [KeyError].  The key and label columns of a frame are kept apart
    from its feature columns ([FeatFrame]) and are not looked up
    here; the code only selects [feature_cols], which holds none of
    their names. *)
Fixpoint select_cols (cols : list (String.string * list Q)) (names : list String.string)
  : result (list (list Q)) :=
  match names with
  | [] => Ok []
  | n :: t =>
      match get_col cols n with
      | None => Raise KeyError
      | Some v => rest <- select_cols cols t ;; Ok (v :: rest)
      end
  end.

(** Row [i] of a list of columns. *)
Definition row_of (cols : list (list Q)) (i : nat) : list Q :=
  map (fun c => nth i c 0%Q) cols.

Definition rows_of (n : nat) (cols : list (list Q)) : list (list Q) :=
  map (row_of cols) (seq 0 n).

(** ** [add_negative_examples] *)

Definition add_negative_examples (df : list Pair) : Frame :=
  let df_ := map (fun k => (k, 1%Z)) df in
  let node_list := np_unique (map fst df ++ map snd df) in
  let negative := ordered_pairs node_list in
  let merged_df := merge_left negative df_ in
  mkFrame
    (map fst merged_df)
    (Some (map (fun r => match snd r with
                         | Some v => (v =? 1)%Z
                         | None => false
                         end) merged_df)).

(** The rows of a labelled frame, key next to label. *)
Definition labelled_rows (df : Frame) : list (Pair * bool) :=
  match link df with
  | Some l => combine (keys df) l
  | None => []
  end.

Definition choose2 (n : nat) : nat := n * (n - 1) / 2.

(** ** Community labels and feature names *)

(** The keyword arguments kept by the simulator: names with a graph
    or [None]. *)
Definition Kwargs : Type := list (String.string * option nx.Graph).

(** A Python [dict] from nodes to community labels, one entry per key. *)
Definition Dict : Type := list (node * nat).

Fixpoint dict_set (d : Dict) (k : node) (v : nat) : Dict :=
  match d with
  | [] => [(k, v)]
  | (k', v') :: t =>
      if (k' =? k)%Z then (k, v) :: t else (k', v') :: dict_set t k v
  end.

Fixpoint dict_get (d : Dict) (k : node) : option nat :=
  match d with
  | [] => None
  | (k', v) :: t => if (k' =? k)%Z then Some v else dict_get t k
  end.

(** [{ks[i] : vs[i] for i in range(len(ks))}]: running out of values
    is an [IndexError]. *)
Fixpoint dict_of_lists (d : Dict) (ks : list node) (vs : list nat)
  : result Dict :=
  match ks with
  | [] => Ok d
  | k :: ks' =>
      match vs with
      | [] => Raise IndexError
      | v :: vs' => dict_of_lists (dict_set d k v) ks' vs'
      end
  end.

(** [str] of a non-negative integer. *)
Definition str (n : nat) : String.string :=
  DecimalString.NilEmpty.string_of_uint (Nat.to_uint n).

Fixpoint insert_name (x : String.string) (l : list String.string)
  : list String.string :=
  match l with
  | [] => [x]
  | y :: t =>
      match String.compare x y with
      | Lt => x :: l
      | Eq => l
      | Gt => y :: insert_name x t
      end
  end.

(** [pd.get_dummies(col)]: one indicator column per distinct value, the
    values in sorted order. *)
Definition get_dummies (col : list String.string)
  : list (String.string * list Q) :=
  map (fun name =>
         (name, map (fun v => if String.eqb v name then 1%Q else 0%Q) col))
      (fold_right insert_name [] col).

(** The order of the indicator columns: strings by character code. *)
Definition name_lt (a b : String.string) : Prop := String.compare a b = Lt.

(** ** Means and outer differences of integer arrays *)

Definition sumZ (l : list Z) : Z := fold_right Z.add 0%Z l.

(** [np.mean] of an integer array, as a rational; the mean of an
    empty array is left at [0]. *)
Definition np_mean (l : list Z) : Q :=
  (inject_Z (sumZ l) / inject_Z (Z.of_nat (length l)))%Q.

(** [np.subtract.outer(a, b)], row after row. *)
Definition subtract_outer (a b : list Z) : list Z :=
  flat_map (fun x => map (fun y => (x - y)%Z) b) a.

(** ** A stable sort by descending score, one admissible behaviour of
    [sort_values(edge_score, ascending = False)] *)

Fixpoint insert_desc (r : Pair * Q) (l : list (Pair * Q)) : list (Pair * Q) :=
  match l with
  | [] => [r]
  | h :: t =>
      if Qle_bool (snd h) (snd r) then r :: l else h :: insert_desc r t
  end.

Definition insertion_sort_desc (l : list (Pair * Q)) : list (Pair * Q) :=
  fold_right insert_desc [] l.

(** ** The routines outside the repository *)

Class External : Type := {
  (** the state of the global random source *)
  RandomState : Type;
  (** a fitted classifier *)
  Model : Type;
  (** [nx.community.louvain_communities(G, resolution = 1)] *)
  nx_louvain_communities : RandomState -> nx.Graph -> list (list node);
  (** [nx.pagerank_numpy(G)[x]] for a node [x] of [G] *)
  nx_pagerank_numpy : nx.Graph -> node -> Q;
  (** [nx.algorithms.community.modularity(G, communities)] *)
  nx_modularity : nx.Graph -> list (list node) -> result Q;
  (** the liblinear solver on a table with both classes present *)
  liblinear_train : RandomState -> list (list Q) -> list bool -> Model;
  (** [model.predict_proba(X)[:, 1]] for one row of [X] *)
  predict_proba_1 : Model -> list Q -> Q;
  (** [RandomState.permutation(n)], behind [DataFrame.sample] *)
  np_permutation : RandomState -> nat -> list nat;
  (** the row order after [sort_values(edge_score, ascending = False)] *)
  sort_values_desc : list (Pair * Q) -> list (Pair * Q)
}.

(** What is assumed of them: the permutation is one of [0 .. n-1], and
    the sort returns its input reordered by descending score (ties in
    any order). *)
Class ExternalSpec (E : External) : Prop := {
  np_permutation_spec :
    forall rs n, Permutation (np_permutation rs n) (seq 0 n);
  sort_values_perm :
    forall l, Permutation (sort_values_desc l) l;
  sort_values_sorted :
    forall l, StronglySorted (fun a b => (snd b <= snd a)%Q) (sort_values_desc l)
}.

Section Simulator.

Context {E : External}.

(** Modelled from the spec: [LogisticRegression.fit] belongs to
    scikit-learn, not to the repository.  Section 4.2: fitting is
    reported as fatal if the label column is constant (only one
    class present); otherwise the solver returns a model. *)
Definition LogisticRegression_fit (rs : RandomState) (X : list (list Q))
           (y : list bool) : result Model :=
  if existsb (fun b => b) y && existsb negb y
  then Ok (liblinear_train rs X y)
  else Raise ValueError.

(** [louvain_communities(G, return_partition)]: the pair is what
    [return_partition = True] returns, its first component what the
    default returns. *)
Definition louvain_communities (rs : RandomState) (G : nx.Graph)
  : result (Dict * list (list node)) :=
  let comms := nx_louvain_communities rs G in
  let labels :=
    flat_map
      (fun i => filter (fun l => existsb (Z.eqb i) (nth l comms []))
                       (seq 0 (length comms)))
      (nx.nodes G) in
  let node_list := nx.nodes G in
  comm_dict <- dict_of_lists [] node_list labels ;;
  Ok (comm_dict, comms).

(** The names of the five numeric feature columns. *)
Definition numeric_cols : list String.string :=
  ["deg_source"; "deg_target"; "pr_source"; "pr_target";
   "common_neighbors"]%string.

(** The entry of [combined_comm] on the row of the pair [k]. *)
Definition combined_name (comm_dict : Dict) (k : Pair) : String.string :=
  let comm x := match dict_get comm_dict x with
                | Some c => c | None => 0 end in
  String.append "C"%string
                (String.append (str (comm (fst k))) (str (comm (snd k)))).

(** The body of [compute_features] once the graph and the labels are
    settled: the feature columns of [df] against [G] and
    [comm_dict].  A node missing from the graph fails at
    [G.degree(x)] with networkx's [NetworkXError], before PageRank is
    computed; a node missing from the labels fails at [comm_dict[x]]
    with [KeyError]. *)
Definition features_with (G : nx.Graph) (comm_dict : Dict) (df : Frame)
  : result FeatFrame :=
  let deg_source := map (fun x => inject_Z (nx.degree G x)) (source df) in
  let deg_target := map (fun x => inject_Z (nx.degree G x)) (target df) in
  if negb (forallb (nx.has_node G) (source df ++ target df))
  then Raise NetworkXError
  else
    let pr_source := map (nx_pagerank_numpy G) (source df) in
    let pr_target := map (nx_pagerank_numpy G) (target df) in
    if negb (forallb (fun x => match dict_get comm_dict x with
                               | Some _ => true | None => false end)
                     (source df ++ target df))
    then Raise KeyError
    else
      let comm x := match dict_get comm_dict x with
                    | Some c => c | None => 0 end in
      let comm_source := map comm (source df) in
      let comm_target := map comm (target df) in
      let common_neighbors :=
        map (fun pair =>
               inject_Z (Z.of_nat
                 (length (nx.common_neighbors G (fst pair) (snd pair)))))
            (keys df) in
      let combined_comm :=
        map (fun ct => String.append "C"%string
                         (String.append (str (fst ct)) (str (snd ct))))
            (combine comm_source comm_target) in
      Ok (mkFeatFrame (keys df) (link df)
            ([("deg_source"%string, deg_source);
              ("deg_target"%string, deg_target);
              ("pr_source"%string, pr_source);
              ("pr_target"%string, pr_target);
              ("common_neighbors"%string, common_neighbors)]
             ++ get_dummies combined_comm)).

(** [compute_features(df, G, comm_dict)].  [G = None], like a graph
    without nodes, is rebuilt from the rows with [link] true; an
    empty [comm_dict] is recomputed by [louvain_communities]. *)
Definition compute_features (rs : RandomState) (df : Frame)
           (G : option nx.Graph) (comm_dict : Dict) : result FeatFrame :=
  let supplied :=
    match G with
    | Some g => match nx.nodes g with [] => None | _ => Some g end
    | None => None
    end in
  G <- match supplied with
       | Some g => Ok g
       | None =>
           match link df with
           | None => Raise KeyError
           | Some l =>
               let edges := map fst (filter snd (combine (keys df) l)) in
               Ok (nx.from_pandas_edgelist edges)
           end
       end ;;
  comm_dict <- match comm_dict with
               | [] => p <- louvain_communities rs G ;; Ok (fst p)
               | _ => Ok comm_dict
               end ;;
  features_with G comm_dict df.

(** [compute_features(df, G = ..., comm_dict = ..., **kwargs)]: [G] is
    the graph passed by name, if any.  A keyword of [kwargs] other
    than [G], or [G] when it is already passed by name, is a
    [TypeError] of the call; otherwise [kwargs] may supply [G]. *)
Definition compute_features_kw (rs : RandomState) (df : Frame)
           (G : option nx.Graph) (comm_dict : Dict) (kwargs : Kwargs)
  : result FeatFrame :=
  let by_name := match G with Some _ => true | None => false end in
  if existsb (fun kv => negb (String.eqb (fst kv) "G"%string) || by_name)
             kwargs
  then Raise TypeError
  else
    compute_features rs df
                     (match kwargs with
                      | (_, g) :: _ => g
                      | [] => G
                      end)
                     comm_dict.

(** The attributes of a [LinkPredictionSimulator]; those set by
    [prep_data] and [train_model] are absent until then. *)
Record State : Type := mkState {
  edge_df : list Pair;
  G : nx.Graph;
  kwargs : Kwargs;
  node_list : list node;
  comm_dict : Dict;
  comms : list (list node);
  train_df : option FeatFrame;
  feature_cols : option (list String.string);
  model : option Model
}.

Definition attr {A : Type} (o : option A) : result A :=
  match o with
  | Some a => Ok a
  | None => Raise AttributeError
  end.

(** [LinkPredictionSimulator.__init__].  On a table without rows the
    graph has no edge; networkx's Louvain, reached through
    [louvain_communities(self.G, True)], then divides by the total
    degree, and the constructor ends in a [ZeroDivisionError]. *)
Definition init (rs : RandomState) (edges : list Pair) (kwargs : Kwargs)
  : result State :=
  let G := nx.from_pandas_edgelist edges in
  p <- match nx.edges G with
       | [] => Raise ZeroDivisionError
       | _ => louvain_communities rs G
       end ;;
  Ok (mkState edges G kwargs (nx.nodes G) (fst p) (snd p) None None None).

Definition prep_data (rs : RandomState) (s : State) : result State :=
  let train := add_negative_examples (edge_df s) in
  train <- compute_features_kw rs train None (comm_dict s) (kwargs s) ;;
  Ok (mkState (edge_df s) (G s) (kwargs s) (node_list s) (comm_dict s)
              (comms s)
              (Some train) (Some (map fst (f_cols train))) (model s)).

Definition train_model (rs : RandomState) (s : State) : result State :=
  train <- attr (train_df s) ;;
  cols <- attr (feature_cols s) ;;
  X <- select_cols (f_cols train) cols ;;
  y <- match f_link train with
       | Some y => Ok y
       | None => Raise KeyError
       end ;;
  m <- LogisticRegression_fit rs (rows_of (length (f_keys train)) X) y ;;
  Ok (mkState (edge_df s) (G s) (kwargs s) (node_list s) (comm_dict s)
              (comms s)
              (train_df s) (feature_cols s) (Some m)).

(** The candidate rows of [get_predicted_edges] before sorting: every
    pair over [node_list] with its score, less the pairs of
    [edge_df] (the rows the outer merge marks [left_only]). *)
Definition candidates (s : State) (edge_score : list Q) : list (Pair * Q) :=
  filter (fun r => negb (mem_pair (fst r) (edge_df s)))
         (combine (ordered_pairs (node_list s)) edge_score).

(** The non-edges over the node universe: the keys of the
    candidate rows. *)
Definition available (s : State) : list Pair :=
  filter (fun k => negb (mem_pair k (edge_df s)))
         (ordered_pairs (node_list s)).

Definition get_predicted_edges (rs : RandomState) (s : State) (m_replace : Z)
  : result (list Pair) :=
  let pairs := mkFrame (ordered_pairs (node_list s)) None in
  pairs <- compute_features_kw rs pairs (Some (G s)) (comm_dict s)
                               (kwargs s) ;;
  m <- attr (model s) ;;
  cols <- attr (feature_cols s) ;;
  X <- select_cols (f_cols pairs) cols ;;
  let edge_score :=
    map (predict_proba_1 m) (rows_of (length (f_keys pairs)) X) in
  let pairs := candidates s edge_score in
  let pairs := head m_replace (sort_values_desc pairs) in
  Ok (map fst pairs).

(** [df.sample(n)]: [n] rows without replacement, in the order of
    the drawn permutation. *)
Definition sample (rs : RandomState) (df : list Pair) (n : Z)
  : result (list Pair) :=
  if (n <? 0)%Z then Raise ValueError
  else if (Z.of_nat (length df) <? n)%Z then Raise ValueError
  else
    Ok (take_rows df (firstn (Z.to_nat n) (np_permutation rs (length df)))).

Definition with_edge_df (s : State) (df : list Pair) : State :=
  mkState df (G s) (kwargs s) (node_list s) (comm_dict s) (comms s)
          (train_df s) (feature_cols s) (model s).

Definition update_edges (rs : RandomState) (s : State) (m_replace : Z)
  : result State :=
  kept <- sample rs (edge_df s) (Z.of_nat (length (edge_df s)) - m_replace) ;;
  let s := with_edge_df s kept in
  new_edges <- get_predicted_edges rs s m_replace ;;
  Ok (with_edge_df s (edge_df s ++ new_edges)).

Definition step (rs : RandomState) (s : State) (m_replace : Z) (train : bool)
  : result State :=
  s <- prep_data rs s ;;
  s <- train_model rs s ;;
  s <- update_edges rs s m_replace ;;
  let G := nx.from_pandas_edgelist (edge_df s) in
  let G := nx.add_nodes_from G (node_list s) in
  Ok (mkState (edge_df s) G (kwargs s) (node_list s) (comm_dict s) (comms s)
              (train_df s) (feature_cols s) (model s)).

(** A run of the driver loop: one [step] per entry. *)
Fixpoint run (s : State) (calls : list (RandomState * Z * bool))
  : result State :=
  match calls with
  | [] => Ok s
  | (rs, m_replace, train) :: rest =>
      s <- step rs s m_replace train ;; run s rest
  end.

(** The states a simulator goes through: built by [init], then
    moved by successful calls of [step]. *)
Definition reachable (s : State) : Prop :=
  exists rs0 edges kw s0 calls,
    init rs0 edges kw = Ok s0 /\ run s0 calls = Ok s.

(** Facts that hold of every reachable state: the node list has no
    repetition, all of it is in the graph, every row of the edge
    table joins two of its nodes, the labels are empty only when the
    node list is, and every node has a label. *)
Definition well_formed (s : State) : Prop :=
  NoDup (node_list s) /\
  incl (node_list s) (nx.nodes (G s)) /\
  Forall (fun e => In (fst e) (node_list s) /\ In (snd e) (node_list s))
         (edge_df s) /\
  (node_list s <> [] -> comm_dict s <> []) /\
  (forall v, In v (node_list s) -> dict_get (comm_dict s) v <> None).

(** An edge table without self-loops and repeated rows. *)
Definition simple_table (df : list Pair) : Prop :=
  NoDup df /\ Forall (fun e => (fst e < snd e)%Z) df.

Definition degree_gini (s : State) : Q :=
  let degs := map (fun i => nx.degree (G s) i) (nx.nodes (G s)) in
  let mad := np_mean (map Z.abs (subtract_outer degs degs)) in
  let rmad := (mad / np_mean degs)%Q in
  let g := ((1 # 2) * rmad)%Q in
  g.

Definition modularity (s : State) : result Q :=
  nx_modularity (G s) (comms s).

End Simulator.

(** ** A concrete choice of the outside routines

    One community for the whole graph, a constant PageRank, a
    classifier that scores a pair by its number of common neighbours,
    a random source that rotates the rows by its state, and the stable
    insertion sort above.  It is used to run the simulator on small
    tables. *)

Definition rotation (rs n : nat) : list nat :=
  skipn (rs mod n) (seq 0 n) ++ firstn (rs mod n) (seq 0 n).

Definition toy : External :=
  {| RandomState := nat;
     Model := unit;
     nx_louvain_communities := fun _ g => [nx.nodes g];
     nx_pagerank_numpy := fun _ _ => 0%Q;
     nx_modularity := fun _ _ => Ok 0%Q;
     liblinear_train := fun _ _ _ => tt;
     predict_proba_1 := fun _ row => nth 4 row 0%Q;
     np_permutation := rotation;
     sort_values_desc := insertion_sort_desc |}.

(** A path on four nodes and the same table with every row doubled. *)
Definition path4 : list Pair := [(1, 2); (2, 3); (3, 4)]%Z.

Definition doubled : list Pair := [(1, 2); (1, 3); (1, 2); (1, 3)]%Z.

(** The state of a simulator right after [LinkPredictionSimulator(edges)],
    unwrapped. *)
Definition started (E : External) (rs : RandomState) (edges : list Pair)
  : State :=
  match init rs edges [] with
  | Ok s => s
  | Raise _ =>
      mkState edges (nx.from_pandas_edgelist edges) [] [] [] [] None None None
  end.

(** The state after [prep_data], unwrapped, and the table it stores. *)
Definition prepared (E : External) (rs : RandomState) (s : State) : State :=
  match prep_data rs s with
  | Ok s' => s'
  | Raise _ => s
  end.

Definition stored_table (E : External) (s : State) : FeatFrame :=
  match train_df s with
  | Some t => t
  | None => mkFeatFrame [] None []
  end.

(** A table that holds the pair of nodes 1 and 2 in both
    orientations, one with a row [source > target] on a triangle, and
    one with a row thrice. *)
Definition two_way : list Pair := [(1, 2); (2, 1); (1, 3)]%Z.

Definition back_edge : list Pair := [(2, 1); (1, 3); (2, 3)]%Z.

Definition tripled : list Pair := [(1, 2); (1, 2); (1, 2); (1, 3)]%Z.

(** A table of 100 rows on 15 nodes: all pairs but the last five. *)
Definition dense15 : list Pair :=
  firstn 100 (ordered_pairs (map Z.of_nat (seq 1 15))).

(** A triangle: every pair of its nodes is an edge. *)
Definition triangle : list Pair := [(1, 2); (1, 3); (2, 3)]%Z.

(** A state whose stored table has the single row [(1, 2)], labelled
    false, and no feature column. *)
Definition all_false_state : @State toy :=
  mkState [] nx.empty [] [] [] []
          (Some (mkFeatFrame [(1, 2)%Z] (Some [false]) [])) (Some []) None.

(** The state after a run of successful steps, unwrapped. *)
Definition after (E : External) (s : State)
           (calls : list (RandomState * Z * bool)) : State :=
  match run s calls with
  | Ok s' => s'
  | Raise _ => s
  end.

(** ** The cells around the simulator

    The notebook prepares its tables in top-level cells.  Each cell
    is a function of the tables it reads; a table that still carries
    its index labels is a list of labelled rows. *)

Module cells.

(** The rows of [pd.read_csv(...)[[source, target]]] with their index
    labels [i, i + 1, ...]. *)
Fixpoint enumerate_from (i : Z) (rows : list Pair) : list (Z * Pair) :=
  match rows with
  | [] => []
  | r :: t => (i, r) :: enumerate_from (i + 1)%Z t
  end.

Definition read_csv (rows : list Pair) : list (Z * Pair) :=
  enumerate_from 0%Z rows.

(** [df.loc[lo:hi, :]] on an increasing index: the rows labelled
    [lo] to [hi], both ends included; [None] is an open end. *)
Definition loc (lo : Z) (hi : option Z) (df : list (Z * Pair))
  : list (Z * Pair) :=
  filter (fun r => (lo <=? fst r)%Z
                   && match hi with
                      | Some h => (fst r <=? h)%Z
                      | None => true
                      end) df.

(** [contact = contact[contact.source < contact.target]]; the rows
    keep their labels. *)
Definition contact (rows : list Pair) : list (Z * Pair) :=
  filter (fun r => (fst (snd r) <? snd (snd r))%Z) (read_csv rows).

(** [train = contact.loc[0:m_train, :]] and
    [test = contact.loc[m_train:, :]]. *)
Definition train (m_train : Z) (rows : list Pair) : list (Z * Pair) :=
  loc 0%Z (Some m_train) (contact rows).

Definition test (m_train : Z) (rows : list Pair) : list (Z * Pair) :=
  loc m_train None (contact rows).

(** [np.unique(np.concatenate([train.source, train.target]))] *)
Definition train_nodes (train : list Pair) : list node :=
  np_unique (map fst train ++ map snd train).

(** The rows of [test] with [found_source & found_target]: both ends
    are among [train_nodes]. *)
Definition found (train_nodes : list node) (test : list Pair) : list Pair :=
  filter (fun r => existsb (Z.eqb (fst r)) train_nodes
                   && existsb (Z.eqb (snd r)) train_nodes) test.

Definition pair_ltb (p q : Pair) : bool :=
  (fst p <? fst q)%Z || ((fst p =? fst q)%Z && (snd p <? snd q)%Z).

Fixpoint insert_pair (x : Pair) (l : list Pair) : list Pair :=
  match l with
  | [] => [x]
  | y :: t =>
      if pair_ltb x y then x :: l
      else if pair_eqb x y then l
      else y :: insert_pair x t
  end.

(** The key columns of
    [df.groupby([source, target]).count().reset_index()]: one row per
    distinct pair, the pairs in increasing order. *)
Definition groupby_count (df : list Pair) : list Pair :=
  fold_right insert_pair [] df.

End cells.

(** [train[link].mean()]: the share of rows with [link] true; a frame
    without the column is a [KeyError]. *)
Definition link_mean (df : Frame) : result Q :=
  match link df with
  | None => Raise KeyError
  | Some l => Ok (np_mean (map (fun b : bool => if b then 1%Z else 0%Z) l))
  end.

(** The order of the rows after [groupby]: by [source], then by
    [target]. *)
Definition pair_lt (p q : Pair) : Prop :=
  (fst p < fst q)%Z \/ (fst p = fst q /\ (snd p < snd q)%Z).

Section Notebook.

Context {E : External}.

(** [[comm_dict[i] for i in nodes]]: a node without an entry is a
    [KeyError]. *)
Fixpoint labels_of (comm_dict : Dict) (nodes : list node)
  : result (list nat) :=
  match nodes with
  | [] => Ok []
  | i :: t =>
      match dict_get comm_dict i with
      | None => Raise KeyError
      | Some l => rest <- labels_of comm_dict t ;; Ok (l :: rest)
      end
  end.

(** [louvain_plot(G, comm_dict)] up to the drawing: the result is the
    list [labels] handed to [nx.draw] as [node_color], one entry per
    node of [G].  The layout and the picture are outside the model. *)
Definition louvain_plot (rs : RandomState) (G : nx.Graph) (comm_dict : Dict)
  : result (list nat) :=
  comm_dict <- match comm_dict with
               | [] => p <- louvain_communities rs G ;; Ok (fst p)
               | _ => Ok comm_dict
               end ;;
  labels_of comm_dict (nx.nodes G).

(** The columns of the test table that are no feature columns: the
    keys, the two counts left by [groupby] and the label. *)
Definition test_other_cols : list String.string :=
  ["source"; "target"; "found_source"; "found_target"; "link"]%string.

(** The evaluation cell: [test = add_negative_examples(test)],
    [test = compute_features(test, G_train, comm_dict_train)] and
    [X_test = test[feature_cols]], for [feature_cols] that name none
    of [test_other_cols] (those of the notebook are feature names of
    the training table). *)
Definition X_test (rs : RandomState) (test : list Pair) (G_train : nx.Graph)
           (comm_dict_train : Dict) (feature_cols : list String.string)
  : result (list (list Q)) :=
  let test := add_negative_examples test in
  test <- compute_features rs test (Some G_train) comm_dict_train ;;
  select_cols (f_cols test) feature_cols.

(** The simulation of the driver cell: [Q] (here [Q']) and [gini]
    start empty,
    one call [LPS.step(0, train = True)], then for every round a
    call [LPS.step(100, train = True)] after which the modularity and
    the degree Gini coefficient of the new snapshot are appended.
    [rss] holds the state of the random source at the entry of each
    round (fifty of them in the notebook). *)
Fixpoint driver_loop (s : State) (rss : list RandomState) (Q' gini : list Q)
  : result (State * list Q * list Q) :=
  match rss with
  | [] => Ok (s, Q', gini)
  | rs :: rest =>
      s <- step rs s 100 true ;;
      q <- modularity s ;;
      driver_loop s rest (Q' ++ [q]) (gini ++ [degree_gini s])
  end.

Definition driver (rs0 : RandomState) (s : State) (rss : list RandomState)
  : result (State * list Q * list Q) :=
  s <- step rs0 s 0 true ;;
  driver_loop s rss [] [].

End Notebook.

(** * Properties *)

Unset Implicit Arguments.

(** ** Keys and membership *)

Lemma pair_eqb_eq (p q : Pair) : pair_eqb p q = true <-> p = q.
Proof.
  destruct p as [a b], q as [c d]; unfold pair_eqb; simpl.
  rewrite andb_true_iff, !Z.eqb_eq. split.
  - intros [-> ->]; reflexivity.
  - intros H; inversion H; auto.
Qed.

Lemma pair_eqb_refl (p : Pair) : pair_eqb p p = true.
Proof. apply pair_eqb_eq; reflexivity. Qed.

Lemma mem_pair_In (p : Pair) (l : list Pair) : mem_pair p l = true <-> In p l.
Proof.
  unfold mem_pair. rewrite existsb_exists. split.
  - intros (q & Hq & Heq). apply pair_eqb_eq in Heq. subst; assumption.
  - intros H. exists p. split; [assumption | apply pair_eqb_refl].
Qed.

Lemma mem_pair_false (p : Pair) (l : list Pair) :
  mem_pair p l = false <-> ~ In p l.
Proof.
  rewrite <- mem_pair_In. destruct (mem_pair p l); split; congruence.
Qed.

(** ** [np.unique] *)

Lemma insert_unique_In (x a : Z) (l : list Z) :
  In x (insert_unique a l) <-> x = a \/ In x l.
Proof.
  induction l as [| y t IH]; simpl.
  - intuition.
  - destruct (a <? y)%Z eqn:Hlt; simpl; [intuition |].
    destruct (a =? y)%Z eqn:Heq; simpl.
    + apply Z.eqb_eq in Heq. subst. intuition.
    + rewrite IH. intuition.
Qed.

Lemma insert_unique_sorted (a : Z) (l : list Z) :
  StronglySorted Z.lt l -> StronglySorted Z.lt (insert_unique a l).
Proof.
  induction 1 as [| y t Hs IH Hall]; simpl.
  - repeat constructor.
  - destruct (a <? y)%Z eqn:Hlt.
    + apply Z.ltb_lt in Hlt. constructor; [constructor; assumption |].
      constructor; [assumption |].
      eapply Forall_impl; [| exact Hall]. intros; simpl in *; lia.
    + destruct (a =? y)%Z eqn:Heq; [constructor; assumption |].
      apply Z.ltb_ge in Hlt. apply Z.eqb_neq in Heq.
      constructor; [assumption |].
      apply Forall_forall. intros x Hx. apply insert_unique_In in Hx.
      destruct Hx as [-> | Hx]; [lia |].
      rewrite Forall_forall in Hall. auto.
Qed.

Lemma np_unique_In (x : Z) (l : list Z) : In x (np_unique l) <-> In x l.
Proof.
  induction l as [| a t IH]; simpl; [tauto |].
  unfold np_unique in *; simpl. rewrite insert_unique_In, IH. intuition.
Qed.

Lemma np_unique_sorted (l : list Z) : StronglySorted Z.lt (np_unique l).
Proof.
  induction l as [| a t IH]; [constructor |].
  unfold np_unique in *; simpl. apply insert_unique_sorted, IH.
Qed.

Lemma sorted_lt_NoDup (l : list Z) : StronglySorted Z.lt l -> NoDup l.
Proof.
  induction 1 as [| y t Hs IH Hall]; constructor; [| assumption].
  intros Hin. rewrite Forall_forall in Hall. specialize (Hall _ Hin). lia.
Qed.

(** ** The table of ordered pairs *)

Lemma ordered_pairs_In (l : list node) (a b : node) :
  In (a, b) (ordered_pairs l) <-> In a l /\ In b l /\ (a < b)%Z.
Proof.
  unfold ordered_pairs. rewrite filter_In, in_prod_iff; simpl.
  rewrite Z.ltb_lt. tauto.
Qed.

Lemma ordered_pairs_lt (l : list node) :
  Forall (fun p => (fst p < snd p)%Z) (ordered_pairs l).
Proof.
  apply Forall_forall. intros [a b] H. apply ordered_pairs_In in H. simpl; tauto.
Qed.

Lemma NoDup_prod {A B : Type} (l : list A) (l' : list B) :
  NoDup l -> NoDup l' -> NoDup (list_prod l l').
Proof.
  intros Hl Hl'. induction Hl as [| x t Hx Ht IH]; simpl; [constructor |].
  apply NoDup_app; repeat split.
  - clear - Hl'. induction Hl' as [| y u Hy Hu IHu]; simpl; constructor; auto.
    intros Hin. apply in_map_iff in Hin. destruct Hin as (z & Hz & Hin).
    inversion Hz; subst. contradiction.
  - assumption.
  - intros [a b] H1 H2. apply in_map_iff in H1. destruct H1 as (z & Hz & _).
    inversion Hz; subst. apply in_prod_iff in H2. tauto.
Qed.

Lemma ordered_pairs_NoDup (l : list node) : NoDup l -> NoDup (ordered_pairs l).
Proof.
  intros H. apply NoDup_filter, NoDup_prod; assumption.
Qed.

Lemma choose2_succ (n : nat) : choose2 (S n) = n + choose2 n.
Proof.
  unfold choose2. replace (S n * (S n - 1)) with (n * 2 + n * (n - 1)).
  - rewrite Nat.div_add_l by lia. reflexivity.
  - destruct n; simpl; lia.
Qed.

Lemma filter_prod_skip_low (a : node) (l1 l2 : list node) :
  Forall (fun x => (a < x)%Z) l1 ->
  filter (fun p : Pair => (fst p <? snd p)%Z) (list_prod l1 (a :: l2)) =
  filter (fun p : Pair => (fst p <? snd p)%Z) (list_prod l1 l2).
Proof.
  induction 1 as [| x t Hx Ht IH]; [reflexivity |].
  cbn [list_prod map app]. cbn [filter fst snd].
  replace (x <? a)%Z with false by (symmetry; apply Z.ltb_ge; lia).
  rewrite !filter_app, IH. reflexivity.
Qed.

Lemma filter_row_above (a : node) (l : list node) :
  Forall (fun x => (a < x)%Z) l ->
  filter (fun p : Pair => (fst p <? snd p)%Z) (map (fun y => (a, y)) l) =
  map (fun y => (a, y)) l.
Proof.
  induction 1 as [| x t Hx Ht IH]; [reflexivity |].
  cbn [map]. cbn [filter fst snd].
  replace (a <? x)%Z with true by (symmetry; apply Z.ltb_lt; lia).
  rewrite IH. reflexivity.
Qed.

Lemma ordered_pairs_length (l : list node) :
  StronglySorted Z.lt l -> length (ordered_pairs l) = choose2 (length l).
Proof.
  induction 1 as [| a t Hs IH Hall]; [reflexivity |].
  unfold ordered_pairs in *. cbn [list_prod length map app].
  rewrite choose2_succ, <- IH.
  cbn [filter fst snd]. rewrite Z.ltb_irrefl.
  rewrite filter_app, filter_row_above, filter_prod_skip_low by assumption.
  rewrite length_app, length_map. reflexivity.
Qed.

(** ** The left merge against a table without repeated rows *)

Lemma filter_key_NoDup (k : Pair) (df : list Pair) :
  NoDup df ->
  filter (fun r : Pair * Z => pair_eqb k (fst r)) (map (fun e => (e, 1%Z)) df) =
  if mem_pair k df then [(k, 1%Z)] else [].
Proof.
  induction 1 as [| x t Hx Ht IH]; [reflexivity |].
  cbn [map filter fst mem_pair existsb].
  destruct (pair_eqb k x) eqn:Hk.
  - apply pair_eqb_eq in Hk. subst x. cbn [orb].
    rewrite IH. apply mem_pair_false in Hx. rewrite Hx. reflexivity.
  - cbn [orb]. exact IH.
Qed.

Lemma merge_left_NoDup (negative df : list Pair) :
  NoDup df ->
  merge_left negative (map (fun e => (e, 1%Z)) df) =
  map (fun k => (k, if mem_pair k df then Some 1%Z else None)) negative.
Proof.
  intros Hdf. unfold merge_left.
  induction negative as [| k t IH]; [reflexivity |].
  cbn [flat_map]. rewrite IH, filter_key_NoDup by assumption.
  destruct (mem_pair k df) eqn:Hm; cbn [map app snd]; rewrite Hm; reflexivity.
Qed.

Lemma add_negative_examples_NoDup (df : list Pair) :
  NoDup df ->
  add_negative_examples df =
  let negative := ordered_pairs (np_unique (map fst df ++ map snd df)) in
  mkFrame negative (Some (map (fun k => mem_pair k df) negative)).
Proof.
  intros Hdf. unfold add_negative_examples.
  rewrite merge_left_NoDup by assumption. cbv zeta.
  rewrite !map_map. cbn [fst snd]. rewrite map_id. f_equal. f_equal.
  apply map_ext. intros k. destruct (mem_pair k df); reflexivity.
Qed.

Lemma combine_map_r {A B : Type} (f : A -> B) (l : list A) :
  combine l (map f l) = map (fun a => (a, f a)) l.
Proof. induction l as [| a t IH]; simpl; [| rewrite IH]; reflexivity. Qed.

(** C3. For an edge table whose rows are pairwise distinct with
    [source < target], [add_negative_examples] returns one row per
    unordered pair of the [n] distinct nodes of the table: [C(n,2)]
    rows, no key twice, [source < target] on every row, every such pair
    present, and the label [link] of a row is true exactly when its
    pair is a row of the input; every input row is there with label
    true. *)
Theorem add_negative_examples_all_pairs (df : list Pair) :
  NoDup df ->
  Forall (fun e => (fst e < snd e)%Z) df ->
  let node_list := np_unique (map fst df ++ map snd df) in
  let out := add_negative_examples df in
  NoDup node_list /\
  (forall v, In v node_list <-> In v (map fst df ++ map snd df)) /\
  length (keys out) = choose2 (length node_list) /\
  length (labelled_rows out) = choose2 (length node_list) /\
  map fst (labelled_rows out) = keys out /\
  NoDup (keys out) /\
  Forall (fun k => (fst k < snd k)%Z) (keys out) /\
  (forall a b, In a node_list -> In b node_list -> (a < b)%Z ->
               In (a, b) (keys out)) /\
  (forall k b, In (k, b) (labelled_rows out) -> (b = true <-> In k df)) /\
  (forall k, In k df -> In (k, true) (labelled_rows out)).
Proof.
  intros Hdf Hlt node_list out.
  assert (Hs : StronglySorted Z.lt node_list) by apply np_unique_sorted.
  assert (Hout : out = mkFrame (ordered_pairs node_list)
                         (Some (map (fun k => mem_pair k df)
                                    (ordered_pairs node_list))))
    by (apply add_negative_examples_NoDup; assumption).
  assert (Hrows : labelled_rows out =
                  map (fun k => (k, mem_pair k df)) (ordered_pairs node_list))
    by (rewrite Hout; unfold labelled_rows; cbn [link keys];
        apply combine_map_r).
  rewrite Hrows, Hout. cbn [keys].
  repeat split.
  - apply sorted_lt_NoDup, Hs.
  - apply np_unique_In.
  - apply np_unique_In.
  - apply ordered_pairs_length, Hs.
  - rewrite length_map. apply ordered_pairs_length, Hs.
  - rewrite map_map. cbn [fst]. apply map_id.
  - apply ordered_pairs_NoDup, sorted_lt_NoDup, Hs.
  - apply ordered_pairs_lt.
  - intros a b Ha Hb Hab. apply ordered_pairs_In. auto.
  - intros Hb. apply in_map_iff in H. destruct H as (k' & Heq & _).
    inversion Heq; subst. apply mem_pair_In. assumption.
  - intros Hk. apply in_map_iff in H. destruct H as (k' & Heq & _).
    inversion Heq; subst. apply mem_pair_In. assumption.
  - intros [a b] Hk. apply in_map_iff. exists (a, b).
    assert (Hm : mem_pair (a, b) df = true) by (apply mem_pair_In; exact Hk).
    rewrite Hm. split; [reflexivity |].
    apply ordered_pairs_In. rewrite Forall_forall in Hlt.
    specialize (Hlt _ Hk). cbn [fst snd] in Hlt.
    repeat split; [| | exact Hlt]; apply np_unique_In, in_or_app.
    + left. apply (in_map fst) in Hk. exact Hk.
    + right. apply (in_map snd) in Hk. exact Hk.
Qed.

(** ** Graphs built from edge tables *)

Lemma has_node_In (g : nx.Graph) (v : node) :
  nx.has_node g v = true <-> In v (nx.nodes g).
Proof.
  unfold nx.has_node. rewrite existsb_exists. split.
  - intros (w & Hw & Heq). apply Z.eqb_eq in Heq. subst; assumption.
  - intros H. exists v. split; [assumption | apply Z.eqb_refl].
Qed.

Lemma add_node_edges (g : nx.Graph) (u : node) :
  nx.edges (nx.add_node g u) = nx.edges g.
Proof. unfold nx.add_node. destruct (nx.has_node g u); reflexivity. Qed.

Lemma add_node_nodes (g : nx.Graph) (u v : node) :
  In v (nx.nodes (nx.add_node g u)) <-> v = u \/ In v (nx.nodes g).
Proof.
  unfold nx.add_node. destruct (nx.has_node g u) eqn:Hu; cbn [nx.nodes].
  - apply has_node_In in Hu. split; [auto |]. intros [-> | H]; assumption.
  - rewrite in_app_iff. simpl. intuition.
Qed.

Lemma add_node_NoDup (g : nx.Graph) (u : node) :
  NoDup (nx.nodes g) -> NoDup (nx.nodes (nx.add_node g u)).
Proof.
  intros H. unfold nx.add_node. destruct (nx.has_node g u) eqn:Hu; [assumption |].
  cbn [nx.nodes]. apply NoDup_app; repeat split.
  - assumption.
  - repeat constructor. intros [].
  - intros x Hx [<- | []].
    apply has_node_In in Hx. congruence.
Qed.

Lemma add_nodes_from_edges (l : list node) (g : nx.Graph) :
  nx.edges (nx.add_nodes_from g l) = nx.edges g.
Proof.
  revert g. induction l as [| a t IH]; intros g; [reflexivity |].
  unfold nx.add_nodes_from in *. cbn [fold_left]. rewrite IH.
  apply add_node_edges.
Qed.

Lemma add_nodes_from_nodes (l : list node) (g : nx.Graph) (v : node) :
  In v (nx.nodes (nx.add_nodes_from g l)) <-> In v l \/ In v (nx.nodes g).
Proof.
  revert g. induction l as [| a t IH]; intros g.
  - simpl. tauto.
  - unfold nx.add_nodes_from in *. cbn [fold_left].
    rewrite IH, add_node_nodes. simpl. intuition.
Qed.

Lemma add_nodes_from_NoDup (l : list node) (g : nx.Graph) :
  NoDup (nx.nodes g) -> NoDup (nx.nodes (nx.add_nodes_from g l)).
Proof.
  revert g. induction l as [| a t IH]; intros g H; [assumption |].
  unfold nx.add_nodes_from in *. cbn [fold_left].
  apply IH, add_node_NoDup, H.
Qed.

Lemma add_edge_nodes (g : nx.Graph) (u v w : node) :
  In w (nx.nodes (nx.add_edge g u v)) <-> w = u \/ w = v \/ In w (nx.nodes g).
Proof.
  unfold nx.add_edge. cbv zeta.
  destruct (nx.has_edge _ u v); cbn [nx.nodes];
    rewrite !add_node_nodes; tauto.
Qed.

Lemma add_edge_NoDup (g : nx.Graph) (u v : node) :
  NoDup (nx.nodes g) -> NoDup (nx.nodes (nx.add_edge g u v)).
Proof.
  intros H. unfold nx.add_edge. cbv zeta.
  destruct (nx.has_edge _ u v); cbn [nx.nodes];
    apply add_node_NoDup, add_node_NoDup, H.
Qed.

Lemma add_edges_from_nodes (l : list Pair) (g : nx.Graph) (w : node) :
  In w (nx.nodes (nx.add_edges_from g l)) <->
  In w (nx.nodes g) \/ In w (map fst l ++ map snd l).
Proof.
  revert g. induction l as [| [a b] t IH]; intros g.
  - simpl. tauto.
  - unfold nx.add_edges_from in *. cbn [fold_left fst snd map].
    rewrite IH, add_edge_nodes, !in_app_iff. simpl. intuition.
Qed.

Lemma add_edges_from_NoDup (l : list Pair) (g : nx.Graph) :
  NoDup (nx.nodes g) -> NoDup (nx.nodes (nx.add_edges_from g l)).
Proof.
  revert g. induction l as [| e t IH]; intros g H; [assumption |].
  unfold nx.add_edges_from in *. cbn [fold_left].
  apply IH, add_edge_NoDup, H.
Qed.

Lemma from_pandas_edgelist_nodes (df : list Pair) (w : node) :
  In w (nx.nodes (nx.from_pandas_edgelist df)) <->
  In w (map fst df ++ map snd df).
Proof.
  unfold nx.from_pandas_edgelist. rewrite add_edges_from_nodes. simpl. tauto.
Qed.

Lemma from_pandas_edgelist_NoDup (df : list Pair) :
  NoDup (nx.nodes (nx.from_pandas_edgelist df)).
Proof. apply add_edges_from_NoDup. constructor. Qed.

Lemma has_edge_ordered (g : nx.Graph) (u v : node) :
  Forall (fun e => (fst e < snd e)%Z) (nx.edges g) -> (u < v)%Z ->
  nx.has_edge g u v = mem_pair (u, v) (nx.edges g).
Proof.
  intros Hg Huv. unfold nx.has_edge, mem_pair.
  induction Hg as [| [a b] t Hab Ht IH]; [reflexivity |].
  cbn [existsb]. rewrite IH. f_equal.
  unfold nx.same_edge, pair_eqb. cbn [fst snd] in *.
  destruct (a =? u)%Z eqn:E1, (b =? v)%Z eqn:E2, (a =? v)%Z eqn:E3,
           (b =? u)%Z eqn:E4, (u =? a)%Z eqn:E5, (v =? b)%Z eqn:E6;
    try reflexivity;
    rewrite ?Z.eqb_eq, ?Z.eqb_neq in *; lia.
Qed.

Lemma add_edges_from_simple (l : list Pair) (g : nx.Graph) :
  NoDup l -> Forall (fun e => (fst e < snd e)%Z) l ->
  Forall (fun e => (fst e < snd e)%Z) (nx.edges g) ->
  (forall e, In e l -> ~ In e (nx.edges g)) ->
  nx.edges (nx.add_edges_from g l) = nx.edges g ++ l.
Proof.
  intros Hnd. revert g.
  induction Hnd as [| [a b] t Hx Ht IH]; intros g Hlt Hg Hfresh.
  - simpl. rewrite app_nil_r. reflexivity.
  - inversion Hlt as [| ? ? Hab Hlt']; subst. cbn [fst snd] in Hab.
    unfold nx.add_edges_from in *. cbn [fold_left fst snd].
    assert (Hadd : nx.edges (nx.add_edge g a b) = nx.edges g ++ [(a, b)]).
    { unfold nx.add_edge. cbv zeta.
      rewrite has_edge_ordered by (rewrite ?add_node_edges; assumption).
      rewrite !add_node_edges.
      assert (Hm : mem_pair (a, b) (nx.edges g) = false)
        by (apply mem_pair_false, Hfresh; left; reflexivity).
      rewrite Hm. cbn [nx.edges]. reflexivity. }
    rewrite IH; rewrite ?Hadd.
    + rewrite <- app_assoc. reflexivity.
    + assumption.
    + apply Forall_app. split; [assumption |]. repeat constructor. exact Hab.
    + intros e He Hin. apply in_app_or in Hin. destruct Hin as [Hin | [<- | []]].
      * apply (Hfresh e); [right; assumption | assumption].
      * contradiction.
Qed.

Lemma from_pandas_edgelist_simple (df : list Pair) :
  simple_table df -> nx.edges (nx.from_pandas_edgelist df) = df.
Proof.
  intros [Hnd Hlt]. unfold nx.from_pandas_edgelist.
  rewrite add_edges_from_simple; auto; constructor.
Qed.

(** ** Rows taken by position *)

Lemma flat_map_Permutation {A B : Type} (f : A -> list B) (l l' : list A) :
  Permutation l l' -> Permutation (flat_map f l) (flat_map f l').
Proof.
  induction 1 as [| x l l' _ IH | x y l | l l' l'' _ IH1 _ IH2]; simpl.
  - constructor.
  - apply Permutation_app_head, IH.
  - rewrite !app_assoc. apply Permutation_app_tail, Permutation_app_comm.
  - eapply Permutation_trans; eassumption.
Qed.

Lemma take_rows_seq_from {A : Type} (pre df : list A) :
  take_rows (pre ++ df) (seq (length pre) (length df)) = df.
Proof.
  revert pre. induction df as [| a t IH]; intros pre; [reflexivity |].
  cbn [length seq]. unfold take_rows in *. cbn [flat_map].
  rewrite nth_error_app2, Nat.sub_diag by lia. cbn [nth_error app].
  f_equal. specialize (IH (pre ++ [a])).
  rewrite <- app_assoc, length_app, Nat.add_1_r in IH. exact IH.
Qed.

Lemma take_rows_seq {A : Type} (df : list A) :
  take_rows df (seq 0 (length df)) = df.
Proof. exact (take_rows_seq_from [] df). Qed.

Lemma take_rows_length {A : Type} (df : list A) (idx : list nat) :
  Forall (fun i => i < length df) idx ->
  length (take_rows df idx) = length idx.
Proof.
  induction 1 as [| i t Hi Ht IH]; [reflexivity |].
  unfold take_rows in *. cbn [flat_map]. rewrite length_app, IH.
  destruct (nth_error df i) eqn:Hn; [reflexivity |].
  apply nth_error_None in Hn. lia.
Qed.

Section SimulatorFacts.

Context {E : External} {ES : ExternalSpec E}.

(** *** [DataFrame.sample] *)

Lemma np_permutation_bound (rs : RandomState) (n : nat) :
  Forall (fun i => i < n) (np_permutation rs n).
Proof.
  apply Forall_forall. intros i Hi.
  apply (Permutation_in _ (np_permutation_spec rs n)) in Hi.
  apply in_seq in Hi. lia.
Qed.

Lemma sample_spec (rs : RandomState) (df kept : list Pair) (n : Z) :
  sample rs df n = Ok kept ->
  (0 <= n <= Z.of_nat (length df))%Z /\
  length kept = Z.to_nat n /\
  exists dropped, Permutation (kept ++ dropped) df.
Proof.
  unfold sample. destruct (n <? 0)%Z eqn:H0; [discriminate |].
  destruct (Z.of_nat (length df) <? n)%Z eqn:H1; [discriminate |].
  apply Z.ltb_ge in H0, H1. intros H. inversion H; subst kept; clear H.
  split; [lia |]. split.
  - rewrite take_rows_length.
    + rewrite length_firstn.
      rewrite (Permutation_length (np_permutation_spec rs (length df))).
      rewrite length_seq. lia.
    + pose proof (np_permutation_bound rs (length df)) as Hb.
      rewrite <- (firstn_skipn (Z.to_nat n)) in Hb.
      apply Forall_app in Hb. tauto.
  - exists (take_rows df (skipn (Z.to_nat n) (np_permutation rs (length df)))).
    unfold take_rows. rewrite <- flat_map_app, firstn_skipn.
    eapply Permutation_trans;
      [apply flat_map_Permutation, np_permutation_spec |].
    change (Permutation (take_rows df (seq 0 (length df))) df).
    rewrite take_rows_seq. apply Permutation_refl.
Qed.

Lemma sample_incl (rs : RandomState) (df kept : list Pair) (n : Z) :
  sample rs df n = Ok kept -> incl kept df.
Proof.
  intros H. apply sample_spec in H. destruct H as (_ & _ & dropped & Hp).
  intros x Hx. apply (Permutation_in _ Hp). apply in_or_app. auto.
Qed.

Lemma sample_NoDup (rs : RandomState) (df kept : list Pair) (n : Z) :
  sample rs df n = Ok kept -> NoDup df -> NoDup kept.
Proof.
  intros H Hnd. apply sample_spec in H. destruct H as (_ & _ & dropped & Hp).
  apply Permutation_sym in Hp. apply (Permutation_NoDup Hp) in Hnd.
  apply NoDup_app_remove_r in Hnd. exact Hnd.
Qed.

End SimulatorFacts.

(** ** Sequencing, prefixes and sorted lists *)

Lemma bind_Ok {A B : Type} (r : result A) (k : A -> result B) (b : B) :
  bind r k = Ok b -> exists a, r = Ok a /\ k a = Ok b.
Proof. destruct r as [a | e]; simpl; [eauto | discriminate]. Qed.

Lemma attr_Ok {A : Type} (o : option A) (a : A) : attr o = Ok a -> o = Some a.
Proof. destruct o; simpl; congruence. Qed.

Ltac bind_inv H :=
  let a := fresh "v" in
  let Ha := fresh "Hv" in
  apply bind_Ok in H; destruct H as (a & Ha & H).

Lemma head_firstn {A : Type} (n : Z) (l : list A) :
  exists k, head n l = firstn k l /\ ((0 <= n)%Z -> k = Z.to_nat n).
Proof.
  unfold head. destruct (0 <=? n)%Z eqn:H.
  - eexists; split; [reflexivity | auto].
  - apply Z.leb_gt in H. eexists; split; [reflexivity | lia].
Qed.

Lemma firstn_incl {A : Type} (k : nat) (l : list A) : incl (firstn k l) l.
Proof.
  intros x Hx. rewrite <- (firstn_skipn k l). apply in_or_app. auto.
Qed.

Lemma firstn_NoDup {A : Type} (k : nat) (l : list A) :
  NoDup l -> NoDup (firstn k l).
Proof.
  intros H. rewrite <- (firstn_skipn k l) in H.
  apply NoDup_app_remove_r in H. exact H.
Qed.

Lemma StronglySorted_app_cross {A : Type} (R : A -> A -> Prop) (l1 l2 : list A) :
  StronglySorted R (l1 ++ l2) ->
  forall a b, In a l1 -> In b l2 -> R a b.
Proof.
  induction l1 as [| x t IH]; intros Hs a b Ha Hb; [destruct Ha |].
  simpl in Hs. inversion Hs as [| ? ? Hs' Hall]; subst.
  destruct Ha as [<- | Ha].
  - rewrite Forall_forall in Hall. apply Hall, in_or_app. auto.
  - apply IH; assumption.
Qed.

Lemma filter_fst_combine {A B : Type} (P : A -> bool) (l : list A) (sc : list B) :
  length sc = length l ->
  map fst (filter (fun r => P (fst r)) (combine l sc)) = filter P l.
Proof.
  revert sc. induction l as [| a t IH]; intros [| b sc] Hlen;
    try discriminate; [reflexivity |].
  cbn [combine filter fst]. destruct (P a); cbn [map fst];
    rewrite IH by (simpl in Hlen; lia); reflexivity.
Qed.

Lemma map_fst_combine_length {A B : Type} (l : list A) (sc : list B) :
  length sc = length l -> map fst (combine l sc) = l.
Proof.
  revert sc. induction l as [| a t IH]; intros [| b sc] Hlen;
    try discriminate; [reflexivity |].
  cbn. f_equal. apply IH. simpl in Hlen. lia.
Qed.

Section Prediction.

Context {E : External} {ES : ExternalSpec E}.

Lemma features_with_keys (g : nx.Graph) (cd : Dict) (df : Frame) (t : FeatFrame) :
  features_with g cd df = Ok t -> f_keys t = keys df /\ f_link t = link df.
Proof.
  unfold features_with.
  destruct (negb (forallb _ _)); [discriminate |].
  destruct (negb (forallb _ _)); [discriminate |].
  intros H. inversion H. auto.
Qed.

Lemma compute_features_keys (rs : RandomState) (df : Frame)
      (g : option nx.Graph) (cd : Dict) (t : FeatFrame) :
  compute_features rs df g cd = Ok t ->
  f_keys t = keys df /\ f_link t = link df.
Proof.
  unfold compute_features. intros H.
  bind_inv H. bind_inv H. eapply features_with_keys; eassumption.
Qed.

Lemma compute_features_kw_nil (rs : RandomState) (df : Frame)
      (g : option nx.Graph) (cd : Dict) :
  compute_features_kw rs df g cd [] = compute_features rs df g cd.
Proof. unfold compute_features_kw. destruct g; reflexivity. Qed.

(** With [G] passed by name the call goes through only when the
    simulator holds no keyword argument. *)
Lemma compute_features_kw_by_name (rs : RandomState) (df : Frame)
      (g : nx.Graph) (cd : Dict) (kw : Kwargs) :
  kw <> [] -> compute_features_kw rs df (Some g) cd kw = Raise TypeError.
Proof.
  intros Hkw. unfold compute_features_kw.
  destruct kw as [| kv t]; [congruence |].
  cbn [existsb]. rewrite orb_true_r. reflexivity.
Qed.

Lemma compute_features_kw_keys (rs : RandomState) (df : Frame)
      (g : option nx.Graph) (cd : Dict) (kw : Kwargs) (t : FeatFrame) :
  compute_features_kw rs df g cd kw = Ok t ->
  f_keys t = keys df /\ f_link t = link df.
Proof.
  unfold compute_features_kw. destruct (existsb _ kw); [discriminate |].
  apply compute_features_keys.
Qed.

Lemma candidates_keys (s : State) (sc : list Q) :
  length sc = length (ordered_pairs (node_list s)) ->
  map fst (candidates s sc) = available s.
Proof.
  intros H. unfold candidates, available.
  apply (filter_fst_combine (fun k => negb (mem_pair k (edge_df s)))).
  exact H.
Qed.

Lemma available_In (s : State) (k : Pair) :
  In k (available s) <->
  In k (ordered_pairs (node_list s)) /\ ~ In k (edge_df s).
Proof.
  unfold available. rewrite filter_In, negb_true_iff, mem_pair_false. tauto.
Qed.

(** What a successful call of [get_predicted_edges] returns. *)
Lemma get_predicted_edges_Ok (rs : RandomState) (s : State) (m_replace : Z)
      (new_edges : list Pair) :
  get_predicted_edges rs s m_replace = Ok new_edges ->
  exists feats m cols X,
    kwargs s = [] /\
    compute_features rs (mkFrame (ordered_pairs (node_list s)) None)
                     (Some (G s)) (comm_dict s) = Ok feats /\
    model s = Some m /\
    feature_cols s = Some cols /\
    select_cols (f_cols feats) cols = Ok X /\
    let edge_score :=
      map (predict_proba_1 m)
          (rows_of (length (ordered_pairs (node_list s))) X) in
    length edge_score = length (ordered_pairs (node_list s)) /\
    new_edges =
      map fst (head m_replace (sort_values_desc (candidates s edge_score))).
Proof.
  unfold get_predicted_edges. intros H.
  apply bind_Ok in H. destruct H as (feats & Hf & H).
  apply bind_Ok in H. destruct H as (m & Hm & H).
  apply bind_Ok in H. destruct H as (cols & Hc & H).
  apply bind_Ok in H. destruct H as (X & HX & H).
  apply attr_Ok in Hm, Hc.
  assert (Hkw : kwargs s = []).
  { destruct (kwargs s) as [| kv t] eqn:Hkw; [reflexivity |].
    rewrite compute_features_kw_by_name in Hf by discriminate.
    discriminate. }
  rewrite Hkw, compute_features_kw_nil in Hf.
  destruct (compute_features_keys _ _ _ _ _ Hf) as [Hk _]. cbn [keys] in Hk.
  rewrite Hk in H. inversion H; subst new_edges; clear H.
  exists feats, m, cols, X. repeat split; try assumption.
  unfold rows_of. rewrite !length_map, length_seq. reflexivity.
Qed.

(** The rows returned are a prefix of the sorted candidates. *)
Lemma predicted_prefix (s : State) (sc : list Q) (m_replace : Z) :
  length sc = length (ordered_pairs (node_list s)) ->
  let sorted := sort_values_desc (candidates s sc) in
  let new_edges := map fst (head m_replace sorted) in
  Permutation (map fst sorted) (available s) /\
  incl new_edges (available s) /\
  (NoDup (node_list s) -> NoDup new_edges) /\
  ((0 <= m_replace)%Z ->
   length new_edges = Nat.min (Z.to_nat m_replace) (length (available s))).
Proof.
  intros Hlen sorted new_edges.
  assert (Hp : Permutation (map fst sorted) (available s)).
  { rewrite <- (candidates_keys s sc Hlen).
    apply Permutation_map, sort_values_perm. }
  destruct (head_firstn m_replace sorted) as (k & Hk & Hk0).
  subst new_edges. rewrite Hk, <- firstn_map.
  split; [exact Hp |]. split; [| split].
  - intros x Hx. apply firstn_incl in Hx. apply (Permutation_in _ Hp Hx).
  - intros Hnd. apply firstn_NoDup.
    apply (Permutation_NoDup (Permutation_sym Hp)).
    apply NoDup_filter, ordered_pairs_NoDup, Hnd.
  - intros H0. rewrite length_firstn, (Permutation_length Hp), Hk0 by assumption.
    reflexivity.
Qed.

End Prediction.

(** ** One step of the simulator *)

Section Rewiring.

Context {E : External} {ES : ExternalSpec E}.

Lemma prep_data_frame (rs : RandomState) (s s1 : State) :
  prep_data rs s = Ok s1 ->
  edge_df s1 = edge_df s /\ G s1 = G s /\ node_list s1 = node_list s /\
  comm_dict s1 = comm_dict s /\ comms s1 = comms s /\ model s1 = model s.
Proof.
  unfold prep_data. intros H. bind_inv H. inversion H. cbn. tauto.
Qed.

Lemma train_model_frame (rs : RandomState) (s s1 : State) :
  train_model rs s = Ok s1 ->
  edge_df s1 = edge_df s /\ G s1 = G s /\ node_list s1 = node_list s /\
  comm_dict s1 = comm_dict s /\ comms s1 = comms s /\
  train_df s1 = train_df s /\ feature_cols s1 = feature_cols s.
Proof.
  unfold train_model. intros H. do 5 bind_inv H. inversion H. cbn. tauto.
Qed.

Lemma prep_data_kwargs (rs : RandomState) (s s1 : State) :
  prep_data rs s = Ok s1 -> kwargs s1 = kwargs s.
Proof. unfold prep_data. intros H. bind_inv H. inversion H. reflexivity. Qed.

Lemma train_model_kwargs (rs : RandomState) (s s1 : State) :
  train_model rs s = Ok s1 -> kwargs s1 = kwargs s.
Proof.
  unfold train_model. intros H. do 5 bind_inv H. inversion H. reflexivity.
Qed.

Lemma update_edges_Ok (rs : RandomState) (s s' : State) (m_replace : Z) :
  update_edges rs s m_replace = Ok s' ->
  exists kept new_edges,
    sample rs (edge_df s) (Z.of_nat (length (edge_df s)) - m_replace) = Ok kept /\
    get_predicted_edges rs (with_edge_df s kept) m_replace = Ok new_edges /\
    s' = with_edge_df (with_edge_df s kept) (kept ++ new_edges).
Proof.
  unfold update_edges. intros H.
  apply bind_Ok in H. destruct H as (kept & Hk & H).
  apply bind_Ok in H. destruct H as (new_edges & Hn & H).
  inversion H. exists kept, new_edges. auto.
Qed.

(** The shape of a successful [step]: [s1] after [prep_data], [s2]
    after [train_model], [kept] the rows that survive the removal,
    [new_edges] the predicted rows. *)
Lemma step_Ok (rs : RandomState) (s s' : State) (m_replace : Z) (train : bool) :
  step rs s m_replace train = Ok s' ->
  exists s1 s2 kept new_edges,
    prep_data rs s = Ok s1 /\
    train_model rs s1 = Ok s2 /\
    sample rs (edge_df s) (Z.of_nat (length (edge_df s)) - m_replace) = Ok kept /\
    get_predicted_edges rs (with_edge_df s2 kept) m_replace = Ok new_edges /\
    (G s2 = G s /\ node_list s2 = node_list s /\
     comm_dict s2 = comm_dict s /\ comms s2 = comms s) /\
    edge_df s' = kept ++ new_edges /\
    G s' = nx.add_nodes_from (nx.from_pandas_edgelist (kept ++ new_edges))
                             (node_list s) /\
    node_list s' = node_list s /\
    comm_dict s' = comm_dict s /\
    comms s' = comms s /\
    model s' = model s2.
Proof.
  unfold step. intros H.
  apply bind_Ok in H. destruct H as (s1 & H1 & H).
  apply bind_Ok in H. destruct H as (s2 & H2 & H).
  apply bind_Ok in H. destruct H as (s3 & H3 & H).
  exists s1, s2.
  pose proof (prep_data_frame _ _ _ H1) as (E1 & G1 & N1 & C1 & P1 & _).
  pose proof (train_model_frame _ _ _ H2) as (E2 & G2 & N2 & C2 & P2 & _).
  apply update_edges_Ok in H3. destruct H3 as (kept & new_edges & Hk & Hn & ->).
  inversion H; subst s'; clear H. cbn.
  exists kept, new_edges. rewrite E2, E1 in Hk.
  repeat split; try assumption; congruence.
Qed.

(** A step returns only for a simulator without keyword arguments:
    [get_predicted_edges] passes [G] by name next to [**self.kwargs]. *)
Lemma step_needs_no_kwargs (rs : RandomState) (s s' : State) (r : Z)
      (train : bool) :
  step rs s r train = Ok s' -> kwargs s = [].
Proof.
  intros H. apply step_Ok in H.
  destruct H as (s1 & s2 & kept & new_edges & H1 & H2 & _ & Hn & _).
  apply get_predicted_edges_Ok in Hn.
  destruct Hn as (? & ? & ? & ? & Hkw & _). cbn [kwargs with_edge_df] in Hkw.
  rewrite (train_model_kwargs _ _ _ H2), (prep_data_kwargs _ _ _ H1) in Hkw.
  exact Hkw.
Qed.

Lemma dict_set_nonempty (d : Dict) (k : node) (v : nat) : dict_set d k v <> [].
Proof.
  destruct d as [| [k' v'] t]; simpl; [discriminate |].
  destruct (k' =? k)%Z; discriminate.
Qed.

Lemma dict_of_lists_nonempty (ks : list node) (vs : list nat) (d cd : Dict) :
  dict_of_lists d ks vs = Ok cd -> d <> [] \/ ks <> [] -> cd <> [].
Proof.
  revert d vs. induction ks as [| k t IH]; intros d vs H Hne.
  - simpl in H. inversion H; subst. destruct Hne; congruence.
  - destruct vs as [| v vs']; simpl in H; [discriminate |].
    eapply IH; [exact H |]. left. apply dict_set_nonempty.
Qed.

Lemma dict_get_set (d : Dict) (k k' : node) (v : nat) :
  dict_get (dict_set d k v) k' =
  if (k =? k')%Z then Some v else dict_get d k'.
Proof.
  induction d as [| [a b] t IH]; simpl.
  - reflexivity.
  - destruct (a =? k)%Z eqn:Hak; simpl.
    + apply Z.eqb_eq in Hak. subst a.
      destruct (k =? k')%Z; reflexivity.
    + rewrite IH. destruct (a =? k')%Z eqn:Hak'; [| reflexivity].
      apply Z.eqb_eq in Hak'. subst a. rewrite Z.eqb_sym, Hak. reflexivity.
Qed.

Lemma dict_of_lists_covers (ks : list node) (vs : list nat) (d cd : Dict)
      (k : node) :
  dict_of_lists d ks vs = Ok cd ->
  In k ks \/ dict_get d k <> None -> dict_get cd k <> None.
Proof.
  revert d vs. induction ks as [| a t IH]; intros d vs H Hk.
  - simpl in H. inversion H; subst. destruct Hk as [[] | Hk]; exact Hk.
  - destruct vs as [| v vs']; simpl in H; [discriminate |].
    eapply IH; [exact H |].
    rewrite dict_get_set.
    destruct Hk as [[-> | Hk] | Hk].
    + right. rewrite Z.eqb_refl. discriminate.
    + left. exact Hk.
    + right. destruct (a =? k)%Z; [discriminate | exact Hk].
Qed.

Lemma init_Ok (rs : RandomState) (edges : list Pair) (kw : Kwargs)
      (s0 : State) :
  init rs edges kw = Ok s0 ->
  edge_df s0 = edges /\
  G s0 = nx.from_pandas_edgelist edges /\
  node_list s0 = nx.nodes (G s0) /\
  louvain_communities rs (G s0) = Ok (comm_dict s0, comms s0).
Proof.
  unfold init. intros H.
  apply bind_Ok in H. destruct H as ([cd cs] & Hl & H).
  destruct (nx.edges (nx.from_pandas_edgelist edges)); [discriminate |].
  inversion H; subst s0; clear H. cbn. auto.
Qed.

(** Induction along a run of the driver loop. *)
Lemma run_invariant (P : State -> Prop) :
  (forall rs s m_replace train s',
      P s -> step rs s m_replace train = Ok s' -> P s') ->
  forall calls s0 s, P s0 -> run s0 calls = Ok s -> P s.
Proof.
  intros Hstep. induction calls as [| [[rs r] t] rest IH]; intros s0 s H0 H.
  - simpl in H. inversion H; subst; assumption.
  - simpl in H. apply bind_Ok in H. destruct H as (s1 & H1 & H).
    eapply IH; [| exact H]. eapply Hstep; eassumption.
Qed.

Lemma run_fixed (calls : list (RandomState * Z * bool)) (s0 s : State) :
  run s0 calls = Ok s ->
  node_list s = node_list s0 /\ comm_dict s = comm_dict s0 /\
  comms s = comms s0.
Proof.
  intros H.
  apply (run_invariant
           (fun x => node_list x = node_list s0 /\
                     comm_dict x = comm_dict s0 /\ comms x = comms s0))
    with (calls := calls) (s0 := s0); auto.
  intros rs x r t x' (Hn & Hc & Hp) Hx. apply step_Ok in Hx.
  destruct Hx as (s1 & s2 & kept & new_edges & Hx). intuition congruence.
Qed.

Lemma init_well_formed (rs : RandomState) (edges : list Pair) (kw : Kwargs)
      (s0 : State) :
  init rs edges kw = Ok s0 -> well_formed s0.
Proof.
  intros H. apply init_Ok in H. destruct H as (He & Hg & Hn & Hl).
  unfold well_formed. rewrite Hn, He. repeat split.
  - rewrite Hg. apply from_pandas_edgelist_NoDup.
  - apply incl_refl.
  - apply Forall_forall. intros e Hin.
    rewrite Hg, !from_pandas_edgelist_nodes, !in_app_iff.
    split; [left; apply in_map | right; apply in_map]; exact Hin.
  - intros Hne. unfold louvain_communities in Hl.
    apply bind_Ok in Hl. destruct Hl as (cd & Hcd & Hl).
    inversion Hl; subst. eapply dict_of_lists_nonempty; eauto.
  - intros v Hv. unfold louvain_communities in Hl.
    apply bind_Ok in Hl. destruct Hl as (cd & Hcd & Hl).
    inversion Hl; subst. eapply dict_of_lists_covers; eauto.
Qed.

Lemma predicted_in_universe (rs : RandomState) (s : State) (r : Z)
      (new_edges : list Pair) :
  get_predicted_edges rs s r = Ok new_edges ->
  incl new_edges (available s) /\
  (NoDup (node_list s) -> NoDup new_edges) /\
  ((0 <= r)%Z ->
   length new_edges = Nat.min (Z.to_nat r) (length (available s))).
Proof.
  intros H. apply get_predicted_edges_Ok in H.
  destruct H as (feats & m & cols & X & _ & _ & _ & _ & _ & Hlen & ->).
  destruct (predicted_prefix s _ r Hlen) as (_ & H1 & H2 & H3). auto.
Qed.

Lemma step_well_formed (rs : RandomState) (s s' : State) (r : Z) (train : bool) :
  well_formed s -> step rs s r train = Ok s' -> well_formed s'.
Proof.
  intros (Hnd & _ & Hedges & Hcd & Hcov) H. apply step_Ok in H.
  destruct H as (s1 & s2 & kept & new_edges & _ & _ & Hk & Hn
                 & (_ & Nm & _ & _) & He & Hg & Hnl & Hc & _).
  unfold well_formed. rewrite Hnl, He, Hg, Hc. repeat split.
  - exact Hnd.
  - intros v Hv. apply add_nodes_from_nodes. auto.
  - apply Forall_app. split.
    + apply sample_incl in Hk. rewrite Forall_forall in *. auto.
    + apply predicted_in_universe in Hn. destruct Hn as (Hin & _).
      apply Forall_forall. intros [a b] Hab. apply Hin in Hab.
      apply available_In in Hab. destruct Hab as [Hab _].
      apply ordered_pairs_In in Hab. cbn in Hab. rewrite Nm in Hab.
      cbn. tauto.
  - exact Hcd.
  - exact Hcov.
Qed.

Lemma reachable_well_formed (s : State) : reachable s -> well_formed s.
Proof.
  intros (rs0 & edges & kw & s0 & calls & Hi & Hr).
  apply (run_invariant well_formed) with (calls := calls) (s0 := s0).
  - intros. eapply step_well_formed; eassumption.
  - eapply init_well_formed; eassumption.
  - exact Hr.
Qed.

(** A step keeps a simple table simple. *)
Lemma step_simple (rs : RandomState) (s s' : State) (r : Z) (train : bool) :
  NoDup (node_list s) -> simple_table (edge_df s) ->
  step rs s r train = Ok s' -> simple_table (edge_df s').
Proof.
  intros Hnl [Hnd Hlt] H. apply step_Ok in H.
  destruct H as (s1 & s2 & kept & new_edges & _ & _ & Hk & Hn
                 & (_ & Nm & _ & _) & He & _).
  apply predicted_in_universe in Hn. destruct Hn as (Hin & Hnew & _).
  cbn in Hnew. rewrite Nm in Hnew. rewrite He. split.
  - apply NoDup_app; repeat split.
    + eapply sample_NoDup; eassumption.
    + auto.
    + intros x Hx Hx'. apply Hin, available_In in Hx'. cbn in Hx'. tauto.
  - apply Forall_app. split.
    + apply sample_incl in Hk. rewrite Forall_forall in *. auto.
    + apply Forall_forall. intros x Hx. apply Hin, available_In in Hx.
      destruct Hx as [Hx _]. revert x Hx. apply Forall_forall, ordered_pairs_lt.
Qed.

End Rewiring.

(** ** When a step succeeds *)

Lemma get_col_In (cols : list (String.string * list Q)) (n : String.string) :
  In n (map fst cols) -> exists v, get_col cols n = Some v.
Proof.
  induction cols as [| [c v] t IH]; simpl; [tauto |].
  intros [-> | H].
  - rewrite String.eqb_refl. eauto.
  - destruct (String.eqb c n); eauto.
Qed.

Lemma select_cols_total (cols : list (String.string * list Q))
      (names : list String.string) :
  incl names (map fst cols) -> exists X, select_cols cols names = Ok X.
Proof.
  induction names as [| n t IH]; intros H; simpl; [eauto |].
  destruct (get_col_In cols n) as (v & ->); [apply H; left; reflexivity |].
  destruct IH as (X & ->); [intros x Hx; apply H; right; exact Hx |].
  simpl. eauto.
Qed.

Lemma insert_name_In (x a : String.string) (l : list String.string) :
  In x (insert_name a l) <-> x = a \/ In x l.
Proof.
  induction l as [| y t IH]; simpl; [intuition |].
  destruct (String.compare a y) eqn:Hc; simpl.
  - apply String.compare_eq_iff in Hc. subst. intuition.
  - intuition.
  - rewrite IH. intuition.
Qed.

Lemma get_dummies_names (col : list String.string) (n : String.string) :
  In n (map fst (get_dummies col)) <-> In n col.
Proof.
  unfold get_dummies. rewrite map_map. cbn [fst]. rewrite map_id.
  induction col as [| a t IH]; simpl; [tauto |].
  rewrite insert_name_In, IH. intuition.
Qed.

Lemma combine_map_both {A B C : Type} (f : A -> B) (g : A -> C) (l : list A) :
  combine (map f l) (map g l) = map (fun a => (f a, g a)) l.
Proof. induction l as [| a t IH]; simpl; [| rewrite IH]; reflexivity. Qed.

Lemma filter_snd_combine {A : Type} (f : A -> bool) (l : list A) :
  map fst (filter snd (combine l (map f l))) = filter f l.
Proof.
  induction l as [| a t IH]; [reflexivity |].
  cbn [map combine filter snd]. destruct (f a); cbn [map fst]; rewrite IH;
    reflexivity.
Qed.

Lemma filter_mem_length (kept l : list (Z * Z)) :
  NoDup l ->
  length l <= length (filter (fun k => negb (mem_pair k kept)) l) + length kept.
Proof.
  intros Hnd.
  assert (Hsplit : forall (f : Z * Z -> bool) (m : list (Z * Z)),
             length m = length (filter f m) + length (filter (fun k => negb (f k)) m)).
  { intros f m. induction m as [| a t IH]; [reflexivity |].
    simpl. destruct (f a); simpl; lia. }
  rewrite (Hsplit (fun k => mem_pair k kept) l).
  assert (length (filter (fun k => mem_pair k kept) l) <= length kept); [| lia].
  apply NoDup_incl_length; [apply NoDup_filter, Hnd |].
  intros x Hx. apply filter_In in Hx. apply mem_pair_In. tauto.
Qed.

Section Progress.

Context {E : External} {ES : ExternalSpec E}.

Lemma compute_features_supplied (rs : RandomState) (df : Frame)
      (g : nx.Graph) (cd : Dict) :
  nx.nodes g <> [] -> cd <> [] ->
  compute_features rs df (Some g) cd = features_with g cd df.
Proof.
  intros Hg Hcd. unfold compute_features.
  destruct (nx.nodes g); [congruence |].
  destruct cd; [congruence |]. reflexivity.
Qed.

Lemma features_with_Ok (g : nx.Graph) (cd : Dict) (df : Frame) :
  (forall x, In x (source df ++ target df) -> In x (nx.nodes g)) ->
  (forall x, In x (source df ++ target df) -> dict_get cd x <> None) ->
  exists feats,
    features_with g cd df = Ok feats /\
    forall n, In n (map fst (f_cols feats)) <->
              In n numeric_cols \/ In n (map (combined_name cd) (keys df)).
Proof.
  intros Hg Hcd. unfold features_with.
  assert (H1 : forallb (nx.has_node g) (source df ++ target df) = true).
  { apply forallb_forall. intros x Hx. apply has_node_In, Hg, Hx. }
  assert (H2 : forallb (fun x => match dict_get cd x with
                                 | Some _ => true | None => false end)
                       (source df ++ target df) = true).
  { apply forallb_forall. intros x Hx. specialize (Hcd x Hx).
    destruct (dict_get cd x); congruence. }
  rewrite H1, H2. cbn [negb]. eexists. split; [reflexivity |].
  intros n. cbn [f_cols]. rewrite map_app, in_app_iff, get_dummies_names.
  unfold source, target.
  rewrite !map_map, combine_map_both, map_map.
  reflexivity.
Qed.

Lemma pairs_of_edges (df : list (Z * Z)) (node_list : list Z) :
  Forall (fun e => In (fst e) node_list /\ In (snd e) node_list) df ->
  incl (ordered_pairs (np_unique (map fst df ++ map snd df)))
       (ordered_pairs node_list).
Proof.
  intros Hends [a b] H. apply ordered_pairs_In in H. apply ordered_pairs_In.
  rewrite !np_unique_In in H. destruct H as (Ha & Hb & Hab).
  rewrite Forall_forall in Hends.
  assert (Hin : forall x, In x (map fst df ++ map snd df) -> In x node_list).
  { intros x Hx. apply in_app_or in Hx.
    destruct Hx as [Hx | Hx]; apply in_map_iff in Hx;
      destruct Hx as (e & <- & He); apply (Hends e He). }
  auto.
Qed.

Lemma compute_features_rebuilt (rs : RandomState) (df : Frame) (cd : Dict)
      (l : list bool) :
  link df = Some l -> cd <> [] ->
  compute_features rs df None cd =
  features_with
    (nx.from_pandas_edgelist (map fst (filter snd (combine (keys df) l))))
    cd df.
Proof.
  intros Hl Hcd. unfold compute_features. rewrite Hl.
  destruct cd; [congruence |]. reflexivity.
Qed.

Lemma prep_data_succeeds (rs : RandomState) (s : State) :
  kwargs s = [] ->
  well_formed s -> simple_table (edge_df s) -> edge_df s <> [] ->
  exists s1 tbl,
    prep_data rs s = Ok s1 /\
    train_df s1 = Some tbl /\
    feature_cols s1 = Some (map fst (f_cols tbl)) /\
    f_link tbl = link (add_negative_examples (edge_df s)) /\
    (forall n, In n (map fst (f_cols tbl)) ->
               In n numeric_cols \/
               In n (map (combined_name (comm_dict s))
                         (ordered_pairs (node_list s)))).
Proof.
  intros Hkw (Hnd & Hincl & Hends & Hcd & Hcov) [Hdf Hlt] Hne.
  set (pairs := ordered_pairs (np_unique (map fst (edge_df s) ++ map snd (edge_df s)))).
  assert (Hnl : node_list s <> []).
  { destruct (edge_df s) as [| e t]; [congruence |].
    inversion Hends as [| ? ? [Hin _] _]; subst.
    intros Hnil. rewrite Hnil in Hin. destruct Hin. }
  specialize (Hcd Hnl).
  assert (Hsub : incl pairs (ordered_pairs (node_list s)))
    by (apply pairs_of_edges, Hends).
  assert (Hkeys : forall x, In x (map fst pairs ++ map snd pairs) ->
                            In x (map fst (edge_df s) ++ map snd (edge_df s))).
  { intros x Hx. apply np_unique_In.
    apply in_app_or in Hx. destruct Hx as [Hx | Hx];
      apply in_map_iff in Hx; destruct Hx as ([a b] & <- & He);
      apply ordered_pairs_In in He; cbn; tauto. }
  unfold prep_data. rewrite Hkw, compute_features_kw_nil.
  rewrite (add_negative_examples_NoDup _ Hdf). cbv zeta. fold pairs.
  rewrite (@compute_features_rebuilt rs
             (mkFrame pairs (Some (map (fun k => mem_pair k (edge_df s)) pairs)))
             (comm_dict s) (map (fun k => mem_pair k (edge_df s)) pairs)
             eq_refl Hcd).
  cbn [keys].
  rewrite filter_snd_combine.
  destruct (features_with_Ok
              (nx.from_pandas_edgelist (filter (fun k => mem_pair k (edge_df s)) pairs))
              (comm_dict s)
              (mkFrame pairs (Some (map (fun k => mem_pair k (edge_df s)) pairs))))
    as (feats & Hf & Hnames).
  - intros x Hx. unfold source, target in Hx. cbn [keys] in Hx.
    apply Hkeys in Hx. apply from_pandas_edgelist_nodes.
    assert (Hrow : forall e, In e (edge_df s) ->
                     In e (filter (fun k => mem_pair k (edge_df s)) pairs)).
    { intros [a b] He. apply filter_In. split; [| apply mem_pair_In, He].
      apply ordered_pairs_In. rewrite !np_unique_In, !in_app_iff.
      rewrite Forall_forall in Hlt. specialize (Hlt _ He). cbn in Hlt.
      repeat split; [left | right |]; try exact Hlt.
      - apply (in_map fst) in He. exact He.
      - apply (in_map snd) in He. exact He. }
    apply in_app_or in Hx. apply in_or_app. destruct Hx as [Hx | Hx];
      apply in_map_iff in Hx; destruct Hx as (e & <- & He);
      [left | right]; apply in_map, Hrow, He.
  - intros x Hx. unfold source, target in Hx. cbn [keys] in Hx.
    apply Hkeys in Hx. apply Hcov.
    rewrite Forall_forall in Hends.
    apply in_app_or in Hx. destruct Hx as [Hx | Hx];
      apply in_map_iff in Hx; destruct Hx as (e & <- & He);
      apply (Hends e He).
  - rewrite Hf. cbn [bind]. eexists. exists feats.
    split; [reflexivity |]. cbn [train_df feature_cols].
    pose proof (features_with_keys _ _ _ _ Hf) as [_ Hl]. cbn [link] in Hl.
    repeat split; try assumption.
    intros n Hn. apply Hnames in Hn. cbn [keys] in Hn.
    destruct Hn as [Hn | Hn]; [left; exact Hn | right].
    apply in_map_iff in Hn. destruct Hn as (k & <- & Hk).
    apply in_map, Hsub, Hk.
Qed.

Lemma get_predicted_edges_succeeds (rs : RandomState) (s : State) (r : Z)
      (m : Model) (cols : list String.string) :
  kwargs s = [] ->
  node_list s <> [] ->
  incl (node_list s) (nx.nodes (G s)) ->
  comm_dict s <> [] ->
  (forall v, In v (node_list s) -> dict_get (comm_dict s) v <> None) ->
  model s = Some m ->
  feature_cols s = Some cols ->
  (forall n, In n cols ->
             In n numeric_cols \/
             In n (map (combined_name (comm_dict s))
                       (ordered_pairs (node_list s)))) ->
  exists new_edges, get_predicted_edges rs s r = Ok new_edges.
Proof.
  intros Hkw Hnl Hincl Hcd Hcov Hm Hc Hcols.
  assert (Hg : nx.nodes (G s) <> []).
  { destruct (node_list s) as [| v t] eqn:Hl; [congruence |].
    intros Hnil. specialize (Hincl v (or_introl eq_refl)).
    rewrite Hnil in Hincl. destruct Hincl. }
  assert (Huniv : forall x,
             In x (source (mkFrame (ordered_pairs (node_list s)) None) ++
                   target (mkFrame (ordered_pairs (node_list s)) None)) ->
             In x (node_list s)).
  { intros x Hx. unfold source, target in Hx. cbn [keys] in Hx.
    apply in_app_or in Hx. destruct Hx as [Hx | Hx];
      apply in_map_iff in Hx; destruct Hx as ([a b] & <- & He);
      apply ordered_pairs_In in He; cbn; tauto. }
  destruct (features_with_Ok (G s) (comm_dict s)
                             (mkFrame (ordered_pairs (node_list s)) None))
    as (feats & Hf & Hnames); [auto | auto |].
  destruct (@select_cols_total (f_cols feats) cols) as (X & HX).
  { intros n Hn. apply Hnames. cbn [keys]. apply Hcols, Hn. }
  unfold get_predicted_edges. rewrite Hkw, compute_features_kw_nil.
  rewrite compute_features_supplied by assumption.
  rewrite Hf, Hm, Hc. cbn [bind attr]. rewrite HX. cbn [bind]. eauto.
Qed.

Lemma train_model_succeeds (rs : RandomState) (s : State) (tbl : FeatFrame)
      (y : list bool) :
  train_df s = Some tbl ->
  feature_cols s = Some (map fst (f_cols tbl)) ->
  f_link tbl = Some y ->
  In true y -> In false y ->
  exists s2 m, train_model rs s = Ok s2 /\ model s2 = Some m.
Proof.
  intros Htbl Hcols Hy Ht Hf.
  destruct (@select_cols_total (f_cols tbl) (map fst (f_cols tbl)))
    as (X & HX); [apply incl_refl |].
  assert (Hfit : existsb (fun b => b) y && existsb negb y = true).
  { apply andb_true_iff. split; apply existsb_exists;
      [exists true | exists false]; auto. }
  unfold train_model. rewrite Htbl, Hcols. cbn [bind attr]. rewrite HX.
  cbn [bind]. rewrite Hy. cbn [bind].
  unfold LogisticRegression_fit. rewrite Hfit. cbn [bind].
  eexists. eexists. split; reflexivity.
Qed.

Lemma update_edges_succeeds (rs : RandomState) (s : State) (r : Z)
      (m : Model) (cols : list String.string) :
  kwargs s = [] ->
  (0 <= r <= Z.of_nat (length (edge_df s)))%Z ->
  node_list s <> [] ->
  incl (node_list s) (nx.nodes (G s)) ->
  comm_dict s <> [] ->
  (forall v, In v (node_list s) -> dict_get (comm_dict s) v <> None) ->
  model s = Some m ->
  feature_cols s = Some cols ->
  (forall n, In n cols ->
             In n numeric_cols \/
             In n (map (combined_name (comm_dict s))
                       (ordered_pairs (node_list s)))) ->
  exists s', update_edges rs s r = Ok s'.
Proof.
  intros Hkw Hr Hnl Hincl Hcd Hcov Hm Hc Hcols.
  unfold update_edges, sample.
  replace (Z.of_nat (length (edge_df s)) - r <? 0)%Z with false
    by (symmetry; apply Z.ltb_ge; lia).
  replace (Z.of_nat (length (edge_df s)) <? Z.of_nat (length (edge_df s)) - r)%Z
    with false by (symmetry; apply Z.ltb_ge; lia).
  cbn [bind].
  set (kept := take_rows _ _).
  destruct (@get_predicted_edges_succeeds rs (with_edge_df s kept) r m cols)
    as (new_edges & Hn); try assumption.
  rewrite Hn. cbn [bind]. eauto.
Qed.

(** From a reachable state of a simulator built without keyword
    arguments, with a simple edge table, a count [0 <= r <= m] and
    both labels among the training rows, [step] returns a state. *)
Theorem step_succeeds (rs : RandomState) (s : State) (r : Z) (train : bool)
        (y : list bool) :
  kwargs s = [] ->
  reachable s ->
  simple_table (edge_df s) ->
  (0 <= r <= Z.of_nat (length (edge_df s)))%Z ->
  link (add_negative_examples (edge_df s)) = Some y ->
  In true y -> In false y ->
  exists s', step rs s r train = Ok s'.
Proof.
  intros Hkw Hreach Hs Hr Hy Ht Hfl.
  pose proof (reachable_well_formed _ Hreach) as Hwf.
  assert (Hne : edge_df s <> []).
  { intros Hnil. rewrite Hnil in Hy. cbn in Hy. inversion Hy; subst.
    destruct Ht. }
  destruct (prep_data_succeeds rs s Hkw Hwf Hs Hne)
    as (s1 & tbl & H1 & Htbl & Hcols & Hlink & Hnames).
  pose proof (prep_data_frame _ _ _ H1) as (E1 & G1 & N1 & C1 & P1 & _).
  pose proof (prep_data_kwargs _ _ _ H1) as K1.
  rewrite Hy in Hlink.
  edestruct train_model_succeeds with (rs := rs) (s := s1)
    as (s2 & m & H2 & Hm);
    [exact Htbl | exact Hcols | exact Hlink | exact Ht | exact Hfl |].
  pose proof (train_model_frame _ _ _ H2) as (E2 & G2 & N2 & C2 & P2 & _ & F2).
  pose proof (train_model_kwargs _ _ _ H2) as K2.
  destruct Hwf as (Hnd & Hincl & Hends & Hcd & Hcov).
  assert (Hnl : node_list s <> []).
  { destruct (edge_df s) as [| e t]; [congruence |].
    inversion Hends as [| ? ? [Hin _] _]; subst.
    intros Hnil. rewrite Hnil in Hin. destruct Hin. }
  destruct (@update_edges_succeeds rs s2 r m (map fst (f_cols tbl)))
    as (s3 & H3).
  - congruence.
  - rewrite E2, E1. exact Hr.
  - rewrite N2, N1. exact Hnl.
  - rewrite N2, N1, G2, G1. exact Hincl.
  - rewrite C2, C1. auto.
  - rewrite N2, N1, C2, C1. exact Hcov.
  - exact Hm.
  - rewrite F2. exact Hcols.
  - rewrite N2, N1, C2, C1. exact Hnames.
  - unfold step. rewrite H1. cbn [bind]. rewrite H2. cbn [bind].
    rewrite H3. cbn [bind]. eauto.
Qed.

(** On a simple table the removal always leaves enough non-edges. *)
Lemma simple_step_enough_candidates (rs : RandomState) (s : State) (r : Z)
      (kept : list (Z * Z)) :
  well_formed s -> simple_table (edge_df s) ->
  sample rs (edge_df s) (Z.of_nat (length (edge_df s)) - r) = Ok kept ->
  Z.to_nat r <= length (available (with_edge_df s kept)).
Proof.
  intros (Hnd & _ & Hends & _) [Hdf Hlt] Hk.
  pose proof (sample_spec _ _ _ _ Hk) as (Hr & Hlen & _).
  unfold available. cbn [edge_df node_list with_edge_df].
  pose proof (@filter_mem_length kept _ (ordered_pairs_NoDup _ Hnd)) as Hcount.
  assert (Hm : length (edge_df s) <= length (ordered_pairs (node_list s))).
  { apply NoDup_incl_length; [exact Hdf |].
    intros [a b] He. apply ordered_pairs_In.
    rewrite Forall_forall in Hends, Hlt.
    specialize (Hends _ He). specialize (Hlt _ He). cbn in *. tauto. }
  lia.
Qed.

End Progress.

(** ** The rewiring step: edge counts, simple tables, persistent nodes *)

Section StepProperties.

Context {E : External} {ES : ExternalSpec E}.

Lemma available_with_edge_df (s s2 : State) (kept : list Pair) :
  node_list s2 = node_list s ->
  available (with_edge_df s2 kept) = available (with_edge_df s kept).
Proof. intros H. unfold available. cbn. rewrite H. reflexivity. Qed.

Lemma step_graph_edges (rs : RandomState) (s s' : State) (r : Z) (train : bool) :
  NoDup (node_list s) -> simple_table (edge_df s) ->
  step rs s r train = Ok s' -> nx.edges (G s') = edge_df s'.
Proof.
  intros Hnl Hs H. assert (Hs' : simple_table (edge_df s')) by (eapply step_simple; eassumption).
  apply step_Ok in H.
  destruct H as (s1 & s2 & kept & new_edges & _ & _ & _ & _ & _ & He & Hg & _).
  rewrite Hg, add_nodes_from_edges, <- He.
  apply from_pandas_edgelist_simple, Hs'.
Qed.

Lemma successful_step_edge_count (rs : RandomState) (s s' : State)
      (r : Z) (train : bool) :
  reachable s ->
  (0 <= r <= Z.of_nat (length (edge_df s)))%Z ->
  (forall kept,
      sample rs (edge_df s) (Z.of_nat (length (edge_df s)) - r) = Ok kept ->
      Z.to_nat r <= length (available (with_edge_df s kept))) ->
  step rs s r train = Ok s' ->
  exists kept dropped new_edges,
    Permutation (kept ++ dropped) (edge_df s) /\
    length dropped = Z.to_nat r /\
    incl new_edges (available (with_edge_df s kept)) /\
    length new_edges = Z.to_nat r /\
    edge_df s' = kept ++ new_edges /\
    length (edge_df s') = length (edge_df s) /\
    (simple_table (edge_df s) ->
     nx.number_of_edges (G s') = length (edge_df s)).
Proof.
  intros Hreach Hr Hav H.
  pose proof (reachable_well_formed _ Hreach) as (Hnl & _).
  pose proof H as Hstep. apply step_Ok in H.
  destruct H as (s1 & s2 & kept & new_edges & _ & _ & Hk & Hn
                 & (_ & Nm & _ & _) & He & _).
  specialize (Hav kept Hk).
  pose proof (sample_spec _ _ _ _ Hk) as (_ & Hlen & dropped & Hp).
  apply predicted_in_universe in Hn. destruct Hn as (Hin & _ & Hcount).
  rewrite (available_with_edge_df s s2 kept Nm) in Hin, Hcount.
  specialize (Hcount (proj1 Hr)).
  assert (Hnew : length new_edges = Z.to_nat r) by lia.
  assert (Hdrop : length dropped = Z.to_nat r).
  { apply Permutation_length in Hp. rewrite length_app in Hp. lia. }
  assert (Hm : length (edge_df s') = length (edge_df s)).
  { rewrite He, length_app. lia. }
  exists kept, dropped, new_edges. repeat split; try assumption.
  intros Hs. unfold nx.number_of_edges.
  erewrite step_graph_edges by eassumption. exact Hm.
Qed.

Lemma add_edges_from_edges_le (l : list Pair) (g : nx.Graph) :
  length (nx.edges (nx.add_edges_from g l)) <= length (nx.edges g) + length l.
Proof.
  revert g. induction l as [| e l IH]; intros g; [cbn; lia |].
  unfold nx.add_edges_from in *. cbn [fold_left length].
  specialize (IH (nx.add_edge g (fst e) (snd e))).
  assert (Hle : length (nx.edges (nx.add_edge g (fst e) (snd e)))
                <= S (length (nx.edges g))).
  { unfold nx.add_edge.
    destruct (nx.has_edge _ _ _); cbn [nx.edges];
      rewrite ?length_app, !add_node_edges; cbn [length]; lia. }
  lia.
Qed.

(** The snapshot of a reachable state is the graph of its edge
    table, give or take isolated nodes. *)
Lemma reachable_graph_built (s : State) :
  reachable s ->
  nx.edges (G s) = nx.edges (nx.from_pandas_edgelist (edge_df s)).
Proof.
  intros (rs0 & edges & kw & s0 & calls & Hi & Hr).
  apply (run_invariant
           (fun s => nx.edges (G s)
                     = nx.edges (nx.from_pandas_edgelist (edge_df s))))
    with (calls := calls) (s0 := s0).
  - intros rs x r train x' _ Hstep. apply step_Ok in Hstep.
    destruct Hstep as (s1 & s2 & kept & new_edges & _ & _ & _ & _ & _
                       & He & HG & _).
    rewrite HG, He. apply add_nodes_from_edges.
  - apply init_Ok in Hi. destruct Hi as (He & HG & _).
    rewrite HG, He. reflexivity.
  - exact Hr.
Qed.

(** C2. From a state the simulator reaches, with [m] rows in its edge
    table and a removal count [0 <= r <= m]: a call of [step] that
    returns, when at least [r] non-edges are available after the
    removal, ends with exactly [m] rows ([r] rows are dropped, [r]
    predicted pairs are appended), and its snapshot has at most [m]
    edges.  When the rows of the table are distinct with
    [source < target], the snapshot has [m] edges before the step and
    [m] edges after it; for a simulator built without keyword
    arguments whose training rows carry both labels the call then
    does return and the non-edges always suffice.  Without that
    condition on the rows the number of edges is not kept. *)
Theorem step_preserves_edge_count (rs : RandomState) (s : State)
        (r : Z) (train : bool) :
  reachable s ->
  (0 <= r <= Z.of_nat (length (edge_df s)))%Z ->
  (forall s',
      step rs s r train = Ok s' ->
      (forall kept,
          sample rs (edge_df s) (Z.of_nat (length (edge_df s)) - r) = Ok kept ->
          Z.to_nat r <= length (available (with_edge_df s kept))) ->
      exists kept dropped new_edges,
        Permutation (kept ++ dropped) (edge_df s) /\
        length dropped = Z.to_nat r /\
        incl new_edges (available (with_edge_df s kept)) /\
        length new_edges = Z.to_nat r /\
        edge_df s' = kept ++ new_edges /\
        length (edge_df s') = length (edge_df s) /\
        nx.number_of_edges (G s') <= length (edge_df s) /\
        (simple_table (edge_df s) ->
         nx.number_of_edges (G s) = length (edge_df s) /\
         nx.number_of_edges (G s') = nx.number_of_edges (G s))) /\
  (kwargs s = [] ->
   simple_table (edge_df s) ->
   (exists y, link (add_negative_examples (edge_df s)) = Some y /\
              In true y /\ In false y) ->
   exists s',
     step rs s r train = Ok s' /\
     length (edge_df s') = length (edge_df s) /\
     nx.number_of_edges (G s) = length (edge_df s) /\
     nx.number_of_edges (G s') = nx.number_of_edges (G s)).
Proof.
  intros Hreach Hr.
  assert (Hpre : simple_table (edge_df s) ->
                 nx.number_of_edges (G s) = length (edge_df s)).
  { intros Hs. unfold nx.number_of_edges.
    rewrite (reachable_graph_built s Hreach).
    rewrite (from_pandas_edgelist_simple _ Hs). reflexivity. }
  split.
  - intros s' H Hav.
    destruct (successful_step_edge_count rs s s' r train Hreach Hr Hav H)
      as (kept & dropped & new_edges & H1 & H2 & H3 & H4 & H5 & H6 & H7).
    exists kept, dropped, new_edges.
    repeat (split; [assumption |]). split.
    + apply step_Ok in H.
      destruct H as (s1 & s2 & kept' & new' & _ & _ & _ & _ & _
                     & He & HG & _).
      unfold nx.number_of_edges. rewrite HG, add_nodes_from_edges.
      rewrite <- He, <- H6.
      pose proof (add_edges_from_edges_le (edge_df s') nx.empty) as Hle.
      cbn [nx.edges nx.empty length] in Hle. exact Hle.
    + intros Hs. split; [exact (Hpre Hs) |].
      rewrite (H7 Hs), (Hpre Hs). reflexivity.
  - intros Hkw Hs (y & Hy & Ht & Hf).
    destruct (step_succeeds rs s r train y Hkw Hreach Hs Hr Hy Ht Hf)
      as (s' & H).
    exists s'. split; [exact H |].
    destruct (@successful_step_edge_count rs s s' r train Hreach Hr)
      as (kept & dropped & new_edges & _ & _ & _ & _ & _ & Hm & HG).
    + intros kept Hk.
      apply (simple_step_enough_candidates rs s r kept); try assumption.
      apply reachable_well_formed, Hreach.
    + exact H.
    + split; [exact Hm |]. split; [exact (Hpre Hs) |].
      rewrite (HG Hs), (Hpre Hs). reflexivity.
Qed.

(** C9. A simulator built on a table of distinct pairs with
    [source < target] keeps such a table after every call of [step],
    and the edges of its snapshot are the rows of that table: no
    self-loop, no pair twice. *)
Theorem simple_graph_preserved (rs0 : RandomState) (edges : list Pair)
        (kw : Kwargs)
        (s0 s : State) (calls : list (RandomState * Z * bool)) :
  simple_table edges ->
  init rs0 edges kw = Ok s0 ->
  run s0 calls = Ok s ->
  NoDup (edge_df s) /\
  Forall (fun e => (fst e < snd e)%Z) (edge_df s) /\
  nx.edges (G s) = edge_df s.
Proof.
  intros Hs Hi Hr.
  assert (H : NoDup (node_list s) /\ simple_table (edge_df s) /\
              nx.edges (G s) = edge_df s).
  { apply (run_invariant
             (fun x => NoDup (node_list x) /\ simple_table (edge_df x) /\
                       nx.edges (G x) = edge_df x))
      with (calls := calls) (s0 := s0); [| | exact Hr].
    - intros rs x r t x' (Hn & Hx & _) Hstep. repeat split.
      + apply step_Ok in Hstep.
        destruct Hstep as (? & ? & ? & ? & _ & _ & _ & _ & _ & _ & _ & -> & _).
        exact Hn.
      + eapply step_simple; eassumption.
      + eapply step_simple; eassumption.
      + eapply step_graph_edges; eassumption.
    - pose proof (init_well_formed _ _ _ _ Hi) as (Hn & _).
      apply init_Ok in Hi. destruct Hi as (He & Hg & _).
      rewrite Hg, He. repeat split; try assumption; try apply Hs.
      apply from_pandas_edgelist_simple, Hs. }
  destruct H as (_ & (Hnd & Hlt) & Hg). auto.
Qed.

(** C6. Every node of the initial node universe is a node of the
    snapshot after any number of calls of [step], whatever its
    degree there. *)
Theorem isolated_nodes_persist (rs0 : RandomState) (edges : list Pair)
        (kw : Kwargs)
        (s0 s : State) (calls : list (RandomState * Z * bool)) :
  init rs0 edges kw = Ok s0 ->
  run s0 calls = Ok s ->
  node_list s0 = nx.nodes (nx.from_pandas_edgelist edges) /\
  forall v, In v (node_list s0) -> In v (nx.nodes (G s)).
Proof.
  intros Hi Hr. apply init_Ok in Hi. destruct Hi as (_ & Hg & Hn & _).
  split; [congruence |].
  assert (H : node_list s = node_list s0 /\
              incl (node_list s0) (nx.nodes (G s))).
  { apply (run_invariant
             (fun x => node_list x = node_list s0 /\
                       incl (node_list s0) (nx.nodes (G x))))
      with (calls := calls) (s0 := s0); [| | exact Hr].
    - intros rs x r t x' (Hx & _) Hstep. apply step_Ok in Hstep.
      destruct Hstep as (? & ? & ? & ? & _ & _ & _ & _ & _ & _ & HG & Hnl & _).
      split; [congruence |].
      intros v Hv. rewrite HG. apply add_nodes_from_nodes.
      left. rewrite Hx. exact Hv.
    - split; [reflexivity |]. rewrite Hn. apply incl_refl. }
  destruct H as (_ & H). exact H.
Qed.

(** C5. The partition is the one [louvain_communities] returned at
    construction; [prep_data], [train_model], [update_edges] and
    [step] leave [comm_dict] and [comms] as they are, so that after
    any run [modularity] measures the current snapshot against the
    partition of the initial state. *)
Theorem partition_fixed (rs0 : RandomState) (edges : list Pair)
        (kw : Kwargs)
        (s0 s : State) (calls : list (RandomState * Z * bool)) :
  init rs0 edges kw = Ok s0 ->
  run s0 calls = Ok s ->
  louvain_communities rs0 (nx.from_pandas_edgelist edges)
    = Ok (comm_dict s0, comms s0) /\
  comm_dict s = comm_dict s0 /\
  comms s = comms s0 /\
  modularity s = nx_modularity (G s) (comms s0) /\
  (forall rs x x', prep_data rs x = Ok x' ->
                   comm_dict x' = comm_dict x /\ comms x' = comms x) /\
  (forall rs x x', train_model rs x = Ok x' ->
                   comm_dict x' = comm_dict x /\ comms x' = comms x) /\
  (forall rs x r x', update_edges rs x r = Ok x' ->
                     comm_dict x' = comm_dict x /\ comms x' = comms x) /\
  (forall rs x r t x', step rs x r t = Ok x' ->
                       comm_dict x' = comm_dict x /\ comms x' = comms x).
Proof.
  intros Hi Hr.
  apply init_Ok in Hi. destruct Hi as (_ & Hg & _ & Hl). rewrite Hg in Hl.
  apply run_fixed in Hr. destruct Hr as (_ & Hc & Hp).
  repeat split; try assumption.
  - unfold modularity. rewrite Hp. reflexivity.
  - apply prep_data_frame in H. tauto.
  - apply prep_data_frame in H. tauto.
  - apply train_model_frame in H. tauto.
  - apply train_model_frame in H. tauto.
  - apply update_edges_Ok in H. destruct H as (? & ? & _ & _ & ->). reflexivity.
  - apply update_edges_Ok in H. destruct H as (? & ? & _ & _ & ->). reflexivity.
  - apply step_Ok in H. destruct H as (? & ? & ? & ? & H). tauto.
  - apply step_Ok in H. destruct H as (? & ? & ? & ? & H). tauto.
Qed.

End StepProperties.

(** ** The scorer *)


Section Scorer.

Context {E : External}.

Lemma fit_constant (rs : RandomState) (X : list (list Q)) (y : list bool) :
  (forall b b', In b y -> In b' y -> b = b') ->
  LogisticRegression_fit rs X y = Raise ValueError.
Proof.
  intros Hconst. unfold LogisticRegression_fit.
  destruct (existsb (fun b => b) y) eqn:H1; [| reflexivity].
  destruct (existsb negb y) eqn:H2; [| reflexivity].
  apply existsb_exists in H1, H2.
  destruct H1 as (b & Hb & Hbt). destruct H2 as (b' & Hb' & Hbf).
  specialize (Hconst _ _ Hb Hb'). subst b'. destruct b; discriminate.
Qed.

Lemma fit_Ok (rs : RandomState) (X : list (list Q)) (y : list bool) (m : Model) :
  LogisticRegression_fit rs X y = Ok m ->
  m = liblinear_train rs X y /\ In true y /\ In false y.
Proof.
  unfold LogisticRegression_fit.
  destruct (existsb (fun b => b) y) eqn:H1; [| discriminate].
  destruct (existsb negb y) eqn:H2; [| discriminate].
  cbn. intros H. inversion H. split; [reflexivity |].
  apply existsb_exists in H1, H2.
  destruct H1 as ([|] & Hb & Hbt); [| discriminate].
  destruct H2 as ([|] & Hb' & Hbf); [discriminate |]. auto.
Qed.

(** C7. [train_model] on a stored feature table whose [link] column
    is constant (all false, say) raises and returns no model; when
    the stored feature columns are columns of the table, as they
    are after [prep_data], what it raises is the [ValueError] of
    the fit, the DegenerateLabelSet condition. *)
Theorem train_model_degenerate (rs : RandomState) (s : State)
        (tbl : FeatFrame) (y : list bool) :
  train_df s = Some tbl ->
  f_link tbl = Some y ->
  (forall b b', In b y -> In b' y -> b = b') ->
  (exists e, train_model rs s = Raise e) /\
  (forall cols X, feature_cols s = Some cols ->
                  select_cols (f_cols tbl) cols = Ok X ->
                  train_model rs s = Raise ValueError) /\
  (forall rs0 s_before, prep_data rs0 s_before = Ok s ->
                        train_model rs s = Raise ValueError).
Proof.
  intros Ht Hy Hconst. split; [| split].
  - unfold train_model. rewrite Ht. cbn.
    destruct (feature_cols s) as [cols |]; cbn;
      [| eexists; reflexivity].
    destruct (select_cols (f_cols tbl) cols) as [X | e]; cbn;
      [| eexists; reflexivity].
    rewrite Hy. cbn. rewrite fit_constant by assumption.
    eexists; reflexivity.
  - intros cols X Hc HX. unfold train_model. rewrite Ht, Hc. cbn.
    rewrite HX. cbn. rewrite Hy. cbn.
    rewrite fit_constant by assumption. reflexivity.
  - intros rs0 s_before Hp. unfold prep_data in Hp. bind_inv Hp.
    inversion Hp; subst s; clear Hp. cbn in Ht. inversion Ht; subst v; clear Ht.
    unfold train_model. cbn.
    destruct (@select_cols_total (f_cols tbl) (map fst (f_cols tbl)))
      as (X & ->); [apply incl_refl |].
    cbn. rewrite Hy. cbn. rewrite fit_constant by assumption. reflexivity.
Qed.

(** C10. The argument [train] of [step] is not read: with the same
    state, count and random source the two values give the same
    result, and in either case the model of the resulting state is
    the one fitted during that call on the table [prep_data] has
    just built. *)
Theorem step_ignores_train (rs : RandomState) (s : State) (r : Z) :
  step rs s r true = step rs s r false /\
  forall train s',
    step rs s r train = Ok s' ->
    exists s1 tbl cols X y,
      prep_data rs s = Ok s1 /\
      train_df s1 = Some tbl /\
      feature_cols s1 = Some cols /\
      select_cols (f_cols tbl) cols = Ok X /\
      f_link tbl = Some y /\
      model s' =
        Some (liblinear_train rs (rows_of (length (f_keys tbl)) X) y).
Proof.
  split; [reflexivity |].
  intros train s' H. unfold step in H.
  apply bind_Ok in H. destruct H as (s1 & H1 & H).
  apply bind_Ok in H. destruct H as (s2 & H2 & H).
  apply bind_Ok in H. destruct H as (s3 & H3 & H).
  inversion H; subst s'; clear H. cbn.
  unfold update_edges in H3.
  apply bind_Ok in H3. destruct H3 as (kept & _ & H3).
  apply bind_Ok in H3. destruct H3 as (new_edges & _ & H3).
  inversion H3; subst s3; clear H3. cbn.
  unfold train_model in H2.
  apply bind_Ok in H2. destruct H2 as (tbl & Ht & H2).
  apply bind_Ok in H2. destruct H2 as (cols & Hc & H2).
  apply bind_Ok in H2. destruct H2 as (X & HX & H2).
  apply bind_Ok in H2. destruct H2 as (y & Hy & H2).
  apply bind_Ok in H2. destruct H2 as (m & Hm & H2).
  inversion H2; subst s2; clear H2. cbn.
  apply attr_Ok in Ht, Hc. apply fit_Ok in Hm. destruct Hm as (-> & _).
  exists s1, tbl, cols, X, y. repeat split; try assumption.
  destruct (f_link tbl); [inversion Hy; reflexivity | discriminate].
Qed.

End Scorer.

(** ** The candidates of a rewiring pass *)

Section Candidates.

Context {E : External} {ES : ExternalSpec E}.

Lemma head_nonneg {A : Type} (n : Z) (l : list A) :
  (0 <= n)%Z -> head n l = firstn (Z.to_nat n) l.
Proof.
  intros H. unfold head. apply Z.leb_le in H. rewrite H. reflexivity.
Qed.

(** C1, as the code has it.  Whether [get_predicted_edges] fails
    does not depend on the count asked for: there is no
    InsufficientCandidates condition.  A call of [step] that
    succeeds appends the [min r c] best of the [c] available
    non-edges; when [r] exceeds [c] these are all the [c] of them,
    and the table ends shorter than it began.  From a reachable
    state with a simple table the case does not arise: at least [r]
    non-edges remain after every removal. *)
Theorem insufficient_candidates_truncate (rs : RandomState) (s : State) (r : Z) :
  ((exists e, forall r', get_predicted_edges rs s r' = Raise e) \/
   (forall r', exists new_edges, get_predicted_edges rs s r' = Ok new_edges)) /\
  (forall train s',
      step rs s r train = Ok s' ->
      exists kept new_edges,
        sample rs (edge_df s) (Z.of_nat (length (edge_df s)) - r) = Ok kept /\
        edge_df s' = kept ++ new_edges /\
        length new_edges =
          Nat.min (Z.to_nat r) (length (available (with_edge_df s kept))) /\
        (length (available (with_edge_df s kept)) < Z.to_nat r ->
         Permutation new_edges (available (with_edge_df s kept)) /\
         length (edge_df s') < length (edge_df s))) /\
  (reachable s -> simple_table (edge_df s) ->
   forall kept,
     sample rs (edge_df s) (Z.of_nat (length (edge_df s)) - r) = Ok kept ->
     Z.to_nat r <= length (available (with_edge_df s kept))).
Proof.
  split; [| split].
  - destruct (compute_features_kw rs
                (mkFrame (ordered_pairs (node_list s)) None)
                (Some (G s)) (comm_dict s) (kwargs s))
      as [feats | e] eqn:Hf.
    2: { left. exists e. intros r'. unfold get_predicted_edges.
         rewrite Hf. reflexivity. }
    destruct (model s) as [m |] eqn:Hm.
    2: { left. exists AttributeError. intros r'. unfold get_predicted_edges.
         rewrite Hf, Hm. reflexivity. }
    destruct (feature_cols s) as [cols |] eqn:Hc.
    2: { left. exists AttributeError. intros r'. unfold get_predicted_edges.
         rewrite Hf, Hm, Hc. reflexivity. }
    destruct (select_cols (f_cols feats) cols) as [X | e] eqn:HX.
    2: { left. exists e. intros r'. unfold get_predicted_edges.
         rewrite Hf, Hm, Hc. cbn. rewrite HX. reflexivity. }
    right. intros r'. unfold get_predicted_edges.
    rewrite Hf, Hm, Hc. cbn. rewrite HX. cbn. eauto.
  - intros train s' H. apply step_Ok in H.
    destruct H as (s1 & s2 & kept & new_edges & _ & _ & Hk & Hn
                   & (_ & Nm & _ & _) & He & _).
    exists kept, new_edges.
    pose proof (sample_spec _ _ _ _ Hk) as (Hr & Hlen & _).
    assert (Hr0 : (0 <= r)%Z) by lia.
    apply get_predicted_edges_Ok in Hn.
    destruct Hn as (feats & m & cols & X & _ & _ & _ & _ & _ & Hsc & Hnew).
    destruct (predicted_prefix (with_edge_df s2 kept) _ r Hsc)
      as (Hp & _ & _ & Hcount).
    rewrite <- Hnew in Hcount. specialize (Hcount Hr0).
    rewrite (available_with_edge_df s s2 kept Nm) in Hp, Hcount.
    repeat split; try assumption.
    + rewrite Hnew, head_nonneg by assumption.
      rewrite firstn_all2; [exact Hp |].
      apply Permutation_length in Hp. rewrite length_map in Hp. lia.
    + rewrite He, length_app. lia.
  - intros Hreach Hs kept Hk.
    apply (simple_step_enough_candidates rs s r kept); try assumption.
    apply reachable_well_formed, Hreach.
Qed.

(** On the table [doubled] with the node list [1; 2; 3], a step with
    removal count [3] that returns ends with three rows, whichever
    row the sample keeps and whatever the classifier scores: one row
    is kept and only two non-edges are left to add. *)
Lemma doubled_step_three_rows (rs : RandomState) (s s' : State) (train : bool) :
  edge_df s = doubled ->
  node_list s = [1; 2; 3]%Z ->
  step rs s 3 train = Ok s' ->
  length (edge_df s') = 3.
Proof.
  intros He Hn H. apply step_Ok in H.
  destruct H as (s1 & s2 & kept & new_edges & _ & _ & Hk & Hp
                 & (_ & Nm & _ & _) & He' & _).
  pose proof (sample_spec _ _ _ _ Hk) as (_ & Hlen & _).
  pose proof (sample_incl _ _ _ _ Hk) as Hin.
  apply predicted_in_universe in Hp. destruct Hp as (_ & _ & Hcount).
  specialize (Hcount ltac:(lia)).
  rewrite (available_with_edge_df s s2 kept Nm) in Hcount.
  rewrite He in Hlen, Hin. cbn in Hlen.
  destruct kept as [| x [| ? ?]]; try discriminate.
  assert (Hx : x = (1, 2)%Z \/ x = (1, 3)%Z).
  { specialize (Hin x (or_introl eq_refl)). unfold doubled in Hin.
    simpl in Hin. intuition; subst; auto. }
  rewrite He', length_app, Hcount. unfold available.
  cbn [edge_df node_list with_edge_df]. rewrite Hn.
  destruct Hx as [-> | ->]; reflexivity.
Qed.

End Candidates.

Section Pass.

Context {E : External} {ES : ExternalSpec E}.


(** Training succeeds only on a table with rows, hence an edge. *)
Lemma trained_has_edges (rs : RandomState) (s s1 s2 : State) :
  prep_data rs s = Ok s1 -> train_model rs s1 = Ok s2 -> edge_df s <> [].
Proof.
  intros H1 H2 Hnil. unfold prep_data in H1. rewrite Hnil in H1.
  apply bind_Ok in H1. destruct H1 as (tbl & Ht & H1).
  apply compute_features_kw_keys in Ht. destruct Ht as (_ & Hl). cbn in Hl.
  inversion H1; subst s1; clear H1.
  unfold train_model in H2. cbn in H2.
  bind_inv H2. rewrite Hl in H2. cbn in H2. discriminate.
Qed.

End Pass.

(** ** The degree Gini coefficient *)

Lemma sumZ_app (a b : list Z) : sumZ (a ++ b) = (sumZ a + sumZ b)%Z.
Proof. induction a as [| x t IH]; simpl; [reflexivity | rewrite IH; lia]. Qed.

Lemma sumZ_cons (x : Z) (l : list Z) : sumZ (x :: l) = (x + sumZ l)%Z.
Proof. reflexivity. Qed.

Lemma sumZ_abs_nonneg (l : list Z) : (0 <= sumZ (map Z.abs l))%Z.
Proof. induction l as [| x t IH]; simpl; lia. Qed.

Lemma subtract_outer_length (a b : list Z) :
  length (subtract_outer a b) = length a * length b.
Proof.
  unfold subtract_outer. induction a as [| x t IH]; [reflexivity |].
  cbn [flat_map length]. rewrite length_app, length_map, IH. lia.
Qed.

Lemma outer_abs_row (x : Z) (a b : list Z) :
  sumZ (map Z.abs (subtract_outer (x :: a) b)) =
  (sumZ (map (fun y => Z.abs (x - y)) b) + sumZ (map Z.abs (subtract_outer a b)))%Z.
Proof.
  unfold subtract_outer. cbn [flat_map].
  rewrite map_app, sumZ_app, map_map. reflexivity.
Qed.

Lemma outer_abs_column (y : Z) (a b : list Z) :
  sumZ (map Z.abs (subtract_outer a (y :: b))) =
  (sumZ (map (fun x => Z.abs (x - y)) a) + sumZ (map Z.abs (subtract_outer a b)))%Z.
Proof.
  induction a as [| x t IH]; [reflexivity |].
  rewrite !outer_abs_row, IH. cbn [map]. rewrite !sumZ_cons. lia.
Qed.

Lemma abs_row_bound (x : Z) (l : list Z) :
  (0 <= x)%Z -> Forall (fun y => (0 <= y)%Z) l ->
  (sumZ (map (fun y => Z.abs (x - y)) l) <= Z.of_nat (length l) * x + sumZ l)%Z /\
  (sumZ (map (fun y => Z.abs (y - x)) l) <= Z.of_nat (length l) * x + sumZ l)%Z.
Proof.
  intros Hx. induction 1 as [| y t Hy Ht IH]; [simpl; lia |].
  cbn [map length]. rewrite !sumZ_cons, Nat2Z.inj_succ. lia.
Qed.

(** The sum of all absolute pairwise differences of [n] non-negative
    numbers is at most [2 (n - 1)] times their sum. *)
Lemma pairwise_abs_bound (d : list Z) :
  Forall (fun y => (0 <= y)%Z) d ->
  (sumZ (map Z.abs (subtract_outer d d)) + 2 * sumZ d
   <= 2 * Z.of_nat (length d) * sumZ d)%Z.
Proof.
  induction 1 as [| x a Hx Ha IH]; [simpl; lia |].
  rewrite outer_abs_row, outer_abs_column.
  cbn [map length]. rewrite !sumZ_cons, Nat2Z.inj_succ, Z.sub_diag.
  cbn [Z.abs].
  destruct (abs_row_bound _ _ Hx Ha) as [H1 H2].
  assert (Hs : (0 <= sumZ a)%Z).
  { clear - Ha. induction Ha; [simpl; lia |]. rewrite sumZ_cons. lia. }
  nia.
Qed.

Lemma degree_nonneg (g : nx.Graph) (v : node) : (0 <= nx.degree g v)%Z.
Proof.
  unfold nx.degree. induction (nx.edges g) as [| e t IH]; simpl; [lia |].
  destruct (fst e =? v)%Z, (snd e =? v)%Z; lia.
Qed.

Lemma inject_Z_pos (z : Z) : (0 < z)%Z -> (0 < inject_Z z)%Q.
Proof. intros H. change 0%Q with (inject_Z 0). rewrite <- Zlt_Qlt. exact H. Qed.

Lemma inject_Z_nonneg (z : Z) : (0 <= z)%Z -> (0 <= inject_Z z)%Q.
Proof. intros H. change 0%Q with (inject_Z 0). rewrite <- Zle_Qle. exact H. Qed.

Lemma inject_Z_nonzero (z : Z) : (0 < z)%Z -> ~ (inject_Z z == 0)%Q.
Proof.
  intros H Hc. apply inject_Z_pos in H. rewrite Hc in H.
  apply Qlt_irrefl in H. exact H.
Qed.

Lemma np_mean_pos (l : list Z) :
  (0 < np_mean l)%Q -> (0 < Z.of_nat (length l))%Z /\ (0 < sumZ l)%Z.
Proof.
  unfold np_mean. intros H.
  destruct (length l) as [| n] eqn:Hn.
  - exfalso. cbn in H. unfold Qdiv, Qinv in H. cbn in H.
    rewrite Qmult_0_r in H. apply Qlt_irrefl in H. exact H.
  - split; [lia |].
    assert (Hpos : (0 < inject_Z (Z.of_nat (S n)))%Q)
      by (apply inject_Z_pos; lia).
    destruct (Z_lt_le_dec 0 (sumZ l)) as [Hs | Hs]; [exact Hs | exfalso].
    apply (Qlt_not_le _ _ H).
    apply Qle_shift_div_r; [exact Hpos |].
    rewrite Qmult_0_l. change 0%Q with (inject_Z 0).
    rewrite <- Zle_Qle. exact Hs.
Qed.

Section Metrics.

Context {E : External}.

(** C8. When the mean degree of the snapshot is positive,
    [degree_gini] is one half of the mean absolute pairwise
    difference of the node degrees divided by the mean degree, a
    mean taken over all [n * n] ordered pairs of nodes, and it lies
    in [0, 1). *)
Theorem degree_gini_range (s : State) :
  let degs := map (nx.degree (G s)) (nx.nodes (G s)) in
  let diffs := map Z.abs (subtract_outer degs degs) in
  (0 < np_mean degs)%Q ->
  degree_gini s = ((1 # 2) * (np_mean diffs / np_mean degs))%Q /\
  length diffs = length degs * length degs /\
  (forall x y, In x degs -> In y degs -> In (Z.abs (x - y)) diffs) /\
  (0 <= degree_gini s)%Q /\
  (degree_gini s < 1)%Q.
Proof.
  intros degs diffs Hmean.
  split; [reflexivity |].
  split; [unfold diffs; rewrite length_map; apply subtract_outer_length |].
  split.
  { intros x y Hx Hy. unfold diffs, subtract_outer.
    apply in_map, in_flat_map. exists x. split; [exact Hx |].
    apply in_map_iff. exists y. auto. }
  destruct (np_mean_pos _ Hmean) as [Hn Hsum].
  assert (Hnn : Forall (fun y => (0 <= y)%Z) degs).
  { apply Forall_forall. intros y Hy. apply in_map_iff in Hy.
    destruct Hy as (v & <- & _). apply degree_nonneg. }
  pose proof (pairwise_abs_bound _ Hnn) as Hb.
  pose proof (sumZ_abs_nonneg (subtract_outer degs degs)) as H0.
  assert (Heq : (degree_gini s ==
                 inject_Z (sumZ diffs) /
                 inject_Z (2 * Z.of_nat (length degs) * sumZ degs))%Q).
  { change (degree_gini s) with ((1 # 2) * (np_mean diffs / np_mean degs))%Q.
    unfold np_mean.
    assert (Hlen : length diffs = length degs * length degs)
      by (unfold diffs; rewrite length_map; apply subtract_outer_length).
    rewrite Hlen, Nat2Z.inj_mul, !inject_Z_mult.
    pose proof (inject_Z_nonzero _ Hn) as Hn'.
    pose proof (inject_Z_nonzero _ Hsum) as Hs'.
    field. auto. }
  assert (Hden : (0 < inject_Z (2 * Z.of_nat (length degs) * sumZ degs))%Q)
    by (apply inject_Z_pos; nia).
  split; rewrite Heq.
  - apply Qle_shift_div_l; [exact Hden |].
    rewrite Qmult_0_l. apply inject_Z_nonneg. exact H0.
  - apply Qlt_shift_div_r; [exact Hden |].
    rewrite Qmult_1_l, <- Zlt_Qlt. fold diffs in Hb. lia.
Qed.

End Metrics.

(** ** The concrete routines meet the assumptions *)

Lemma rotation_Permutation (rs n : nat) : Permutation (rotation rs n) (seq 0 n).
Proof.
  unfold rotation. eapply Permutation_trans; [apply Permutation_app_comm |].
  rewrite firstn_skipn. apply Permutation_refl.
Qed.

Lemma insert_desc_Permutation (r : Z * Z * Q) (l : list (Z * Z * Q)) :
  Permutation (insert_desc r l) (r :: l).
Proof.
  induction l as [| h t IH]; simpl; [apply Permutation_refl |].
  destruct (Qle_bool (snd h) (snd r)); [apply Permutation_refl |].
  eapply Permutation_trans; [apply perm_skip, IH | apply perm_swap].
Qed.

Lemma insert_desc_sorted (r : Z * Z * Q) (l : list (Z * Z * Q)) :
  StronglySorted (fun a b => (snd b <= snd a)%Q) l ->
  StronglySorted (fun a b => (snd b <= snd a)%Q) (insert_desc r l).
Proof.
  induction 1 as [| h t Hs IH Hall]; simpl; [repeat constructor |].
  destruct (Qle_bool (snd h) (snd r)) eqn:Hle.
  - apply Qle_bool_iff in Hle.
    constructor; [constructor; assumption |].
    constructor; [exact Hle |].
    eapply Forall_impl; [| exact Hall]. intros x Hx. cbn in Hx.
    eapply Qle_trans; eassumption.
  - constructor; [exact IH |].
    apply Forall_forall. intros x Hx.
    apply (Permutation_in _ (insert_desc_Permutation r t)) in Hx.
    destruct Hx as [<- | Hx].
    + destruct (Qlt_le_dec (snd r) (snd h)) as [Hlt | Hge].
      * apply Qlt_le_weak, Hlt.
      * apply Qle_bool_iff in Hge. congruence.
    + rewrite Forall_forall in Hall. apply Hall, Hx.
Qed.

Lemma toy_spec : ExternalSpec toy.
Proof.
  constructor.
  - intros rs n. apply rotation_Permutation.
  - intros l. cbn. induction l as [| r t IH]; [apply Permutation_refl |].
    cbn. eapply Permutation_trans; [apply insert_desc_Permutation |].
    apply perm_skip, IH.
  - intros l. cbn. induction l as [| r t IH]; [constructor |].
    cbn. apply insert_desc_sorted, IH.
Qed.

(** ** The theorems at work on small tables *)

Lemma add_negative_examples_all_pairs_witness :
  length (keys (add_negative_examples path4)) = choose2 4 /\
  In ((1, 2)%Z, true) (labelled_rows (add_negative_examples path4)).
Proof.
  assert (H1 : NoDup path4).
  { unfold path4. repeat constructor; simpl; intuition congruence. }
  assert (H2 : Forall (fun e => (fst e < snd e)%Z) path4).
  { unfold path4. repeat constructor; simpl; lia. }
  destruct (@add_negative_examples_all_pairs path4 H1 H2)
    as (_ & _ & Hlen & _ & _ & _ & _ & _ & _ & Hpos).
  split; [exact Hlen |]. apply Hpos. simpl. auto.
Defined.

Lemma simple_path4 : simple_table path4.
Proof.
  split; unfold path4.
  - repeat constructor; simpl; intuition congruence.
  - repeat constructor; simpl; lia.
Qed.

Lemma step_preserves_edge_count_witness :
  let s := started toy 0 path4 in
  let s1 := @after toy s [(0, 1%Z, true)] in
  (exists s',
      step (E := toy) 0 s 1 true = Ok s' /\
      length (edge_df s') = 3 /\
      nx.number_of_edges (G s) = 3 /\
      nx.number_of_edges (G s') = nx.number_of_edges (G s)) /\
  (exists (kept dropped new_edges : list (Z * Z)),
      edge_df s1 = kept ++ new_edges /\
      length dropped = 1 /\ length new_edges = 1).
Proof.
  intros s s1.
  assert (Hreach : reachable s).
  { exists 0, path4, [], s, []. split; reflexivity. }
  assert (Hr : (0 <= 1 <= Z.of_nat (length (edge_df s)))%Z)
    by (vm_compute; intuition congruence).
  destruct (@step_preserves_edge_count toy toy_spec 0 s 1%Z true Hreach Hr)
    as [Hret Hprog].
  split.
  - apply Hprog.
    + reflexivity.
    + exact simple_path4.
    + exists [true; false; false; true; false; true].
      split; [reflexivity |]. simpl. auto.
  - assert (Hstep : step (E := toy) 0 s 1 true = Ok s1)
      by (vm_compute; reflexivity).
    assert (Hav : forall kept,
               sample (E := toy) 0 (edge_df s)
                      (Z.of_nat (length (edge_df s)) - 1) = Ok kept ->
               Z.to_nat 1 <= length (available (with_edge_df s kept))).
    { intros kept H. vm_compute in H. inversion H; subst kept.
      vm_compute. lia. }
    destruct (Hret s1 Hstep Hav)
      as (kept & dropped & new_edges & _ & Hd & _ & Hn & He & _).
    exists kept, dropped, new_edges. auto.
Defined.

Lemma simple_graph_preserved_witness :
  let s0 := started toy 0 path4 in
  let s := @after toy s0 [(1, 1%Z, true); (2, 1%Z, false)] in
  NoDup (edge_df s) /\
  Forall (fun e => (fst e < snd e)%Z) (edge_df s) /\
  nx.edges (G s) = edge_df s.
Proof.
  intros s0 s.
  apply (@simple_graph_preserved toy toy_spec 0 path4 [] s0 s
           [(1, 1%Z, true); (2, 1%Z, false)]).
  - exact simple_path4.
  - reflexivity.
  - vm_compute. reflexivity.
Defined.

Lemma isolated_nodes_persist_witness :
  let s0 := started toy 0 path4 in
  let s := @after toy s0 [(1, 1%Z, true); (2, 1%Z, false)] in
  In 4%Z (nx.nodes (G s)) /\ nx.degree (G s) 4 = 0%Z.
Proof.
  intros s0 s. split; [| reflexivity].
  assert (Hi : init (E := toy) 0 path4 [] = Ok s0) by reflexivity.
  assert (Hr : run s0 [(1, 1%Z, true); (2, 1%Z, false)] = Ok s)
    by (vm_compute; reflexivity).
  destruct (@isolated_nodes_persist toy 0 path4 [] s0 s _ Hi Hr) as [_ H].
  apply H. vm_compute. auto.
Defined.

Lemma partition_fixed_witness :
  let s0 := started toy 0 path4 in
  let s := @after toy s0 [(1, 1%Z, true); (2, 1%Z, false)] in
  comm_dict s = comm_dict s0 /\ comms s = comms s0 /\
  modularity s = @nx_modularity toy (G s) (comms s0).
Proof.
  intros s0 s.
  assert (Hi : init (E := toy) 0 path4 [] = Ok s0) by reflexivity.
  assert (Hr : run s0 [(1, 1%Z, true); (2, 1%Z, false)] = Ok s)
    by (vm_compute; reflexivity).
  destruct (@partition_fixed toy 0 path4 [] s0 s _ Hi Hr)
    as (_ & Hc & Hp & Hm & _).
  auto.
Defined.

Lemma train_model_degenerate_witness :
  train_model (E := toy) 0 (@prepared toy 0 (started toy 0 triangle))
    = Raise ValueError /\
  train_model (E := toy) 0 all_false_state = Raise ValueError.
Proof.
  split.
  - set (s := @prepared toy 0 (started toy 0 triangle)).
    assert (Ht : train_df s = Some (stored_table s)) by (vm_compute; reflexivity).
    assert (Hy : f_link (stored_table s) = Some [true; true; true])
      by (vm_compute; reflexivity).
    assert (Hc : forall b b', In b [true; true; true] ->
                              In b' [true; true; true] -> b = b').
    { intros b b' Hb Hb'. simpl in Hb, Hb'. intuition congruence. }
    destruct (@train_model_degenerate toy 0 s _ _ Ht Hy Hc) as (_ & _ & H).
    apply (H 0 (started toy 0 triangle)). vm_compute. reflexivity.
  - assert (Ht : train_df all_false_state
                 = Some (mkFeatFrame [(1, 2)%Z] (Some [false]) []))
      by reflexivity.
    assert (Hc : forall b b', In b [false] -> In b' [false] -> b = b').
    { intros b b' Hb Hb'. simpl in Hb, Hb'. intuition congruence. }
    destruct (@train_model_degenerate toy 0 all_false_state _ _ Ht eq_refl Hc)
      as (_ & H & _).
    apply (H [] []); reflexivity.
Defined.

Lemma insufficient_candidates_truncate_witness :
  let s := started toy 0 doubled in
  let s' := @after toy s [(0, 3%Z, true)] in
  length (edge_df s') < length (edge_df s).
Proof.
  intros s s'.
  assert (Hstep : step (E := toy) 0 s 3 true = Ok s') by (vm_compute; reflexivity).
  destruct (@insufficient_candidates_truncate toy toy_spec 0 s 3%Z)
    as (_ & H & _).
  destruct (H true s' Hstep) as (kept & new_edges & Hk & _ & _ & Hshort).
  vm_compute in Hk. inversion Hk; subst kept.
  apply Hshort. vm_compute. lia.
Defined.

Lemma degree_gini_range_witness :
  let s := started toy 0 path4 in
  (0 <= degree_gini s)%Q /\ (degree_gini s < 1)%Q.
Proof.
  intros s.
  assert (Hmean : (0 < np_mean (map (nx.degree (G s)) (nx.nodes (G s))))%Q)
    by (vm_compute; reflexivity).
  destruct (@degree_gini_range toy s Hmean) as (_ & _ & _ & H0 & H1).
  split; assumption.
Defined.

(** C1 fails on the code.  On the table [doubled] (four rows) a step
    with removal count [3] keeps one row; two non-edges are then
    available, fewer than [3]; the step returns normally with three
    rows (as it does with any other sample and classifier, see
    [doubled_step_three_rows]).  On the simple table [(1,2); (1,3)] a
    direct call of [get_predicted_edges] for two edges returns the
    single available pair. *)
Lemma insufficient_candidates_counterexample :
  let s := started toy 0 doubled in
  let s' := @after toy s [(0, 3%Z, true)] in
  init (E := toy) 0 doubled [] = Ok s /\
  sample (E := toy) 0 (edge_df s) (Z.of_nat (length (edge_df s)) - 3)
    = Ok [(1, 2)%Z] /\
  available (with_edge_df s [(1, 2)%Z]) = [(1, 3); (2, 3)]%Z /\
  step (E := toy) 0 s 3 true = Ok s' /\
  edge_df s' = [(1, 2); (2, 3); (1, 3)]%Z /\
  let t := started toy 0 [(1, 2); (1, 3)]%Z in
  exists t1 t2,
    prep_data (E := toy) 0 t = Ok t1 /\
    train_model (E := toy) 0 t1 = Ok t2 /\
    available t2 = [(2, 3)]%Z /\
    get_predicted_edges (E := toy) 0 t2 2 = Ok [(2, 3)]%Z.
Proof.
  intros s s'.
  split; [reflexivity |].
  split; [vm_compute; reflexivity |].
  split; [vm_compute; reflexivity |].
  split; [vm_compute; reflexivity |].
  split; [vm_compute; reflexivity |].
  intros t.
  exists (@prepared toy 0 t).
  exists (match train_model (E := toy) 0 (@prepared toy 0 t) with
          | Ok x => x | Raise _ => t end).
  repeat split; vm_compute; reflexivity.
Qed.

(** * Beyond the rewiring loop

    Properties of the functions and cells around the simulator:
    [louvain_communities], [louvain_plot], [compute_features],
    [add_negative_examples] on arbitrary tables, the methods called
    on their own, and the cells that prepare the tables. *)

(** ** Community labels *)

Lemma filter_none {A : Type} (P : A -> bool) (l : list A) :
  (forall x, In x l -> P x = false) -> filter P l = [].
Proof.
  induction l as [| a l IH]; intros H; [reflexivity |].
  cbn [filter]. rewrite (H a (or_introl eq_refl)).
  apply IH. intros x Hx. apply H. right. exact Hx.
Qed.

Lemma filter_only {A : Type} (P : A -> bool) (l : list A) (a : A) :
  NoDup l -> In a l -> P a = true ->
  (forall x, In x l -> P x = true -> x = a) ->
  filter P l = [a].
Proof.
  induction l as [| b l IH]; intros Hnd Hin Ha Hu; [destruct Hin |].
  inversion Hnd as [| ? ? Hb Hnd']; subst. cbn [filter].
  destruct (P b) eqn:Hpb.
  - assert (b = a) by (apply Hu; [left; reflexivity | exact Hpb]). subst b.
    f_equal. apply filter_none. intros x Hx.
    destruct (P x) eqn:Hpx; [| reflexivity].
    assert (x = a) by (apply Hu; [right; exact Hx | exact Hpx]).
    subst x. contradiction.
  - destruct Hin as [-> | Hin]; [congruence |].
    apply IH; try assumption.
    intros x Hx. apply Hu. right. exact Hx.
Qed.

Lemma flat_map_single {A B : Type} (f : A -> list B) (g : A -> B) (l : list A) :
  (forall a, In a l -> f a = [g a]) -> flat_map f l = map g l.
Proof.
  induction l as [| a l IH]; intros H; [reflexivity |].
  cbn [flat_map map]. rewrite (H a (or_introl eq_refl)).
  cbn [app]. f_equal. apply IH. intros b Hb. apply H. right. exact Hb.
Qed.

Lemma existsb_eqb_In (k : Z) (l : list Z) :
  existsb (Z.eqb k) l = true <-> In k l.
Proof.
  rewrite existsb_exists. split.
  - intros (x & Hx & He). apply Z.eqb_eq in He. subst. exact Hx.
  - intros H. exists k. split; [exact H | apply Z.eqb_refl].
Qed.

Lemma dict_of_lists_map (f : node -> nat) (ks : list node) (d : Dict) :
  exists cd,
    dict_of_lists d ks (map f ks) = Ok cd /\
    forall k, dict_get cd k =
              if existsb (Z.eqb k) ks then Some (f k) else dict_get d k.
Proof.
  revert d. induction ks as [| k0 ks IH]; intros d.
  - exists d. split; reflexivity.
  - cbn [map dict_of_lists].
    destruct (IH (dict_set d k0 (f k0))) as (cd & Hcd & Hget).
    exists cd. split; [exact Hcd |].
    intros k. rewrite Hget, dict_get_set. cbn [existsb].
    rewrite (Z.eqb_sym k k0).
    destruct (existsb (Z.eqb k) ks); [rewrite orb_true_r; reflexivity |].
    rewrite orb_false_r.
    destruct (k0 =? k)%Z eqn:Hk; [| reflexivity].
    apply Z.eqb_eq in Hk. subst. reflexivity.
Qed.

Section Labels.

Context {E : External}.

(** X1. When the communities returned by Louvain form a partition of
    the nodes of [G] (every node lies in exactly one of them),
    [louvain_communities] returns, and its dictionary has an entry
    exactly for the nodes of [G]: the index of the community the node
    lies in. *)
Theorem louvain_communities_partition (rs : RandomState) (G : nx.Graph) :
  let comms := nx_louvain_communities rs G in
  (forall v, In v (nx.nodes G) ->
             exists l, l < length comms /\ In v (nth l comms []) /\
                       forall l', l' < length comms ->
                                  In v (nth l' comms []) -> l' = l) ->
  exists comm_dict,
    louvain_communities rs G = Ok (comm_dict, comms) /\
    forall v l, dict_get comm_dict v = Some l <->
                In v (nx.nodes G) /\ l < length comms /\
                In v (nth l comms []).
Proof.
  intros comms Hpart.
  set (P := fun (i : node) (l : nat) => existsb (Z.eqb i) (nth l comms [])).
  change (exists cd0,
             (cd <- dict_of_lists [] (nx.nodes G)
                      (flat_map (fun i => filter (P i) (seq 0 (length comms)))
                                (nx.nodes G)) ;;
              Ok (cd, comms)) = Ok (cd0, comms) /\
             forall v l, dict_get cd0 v = Some l <->
                         In v (nx.nodes G) /\ l < length comms /\
                         In v (nth l comms [])).
  set (lab := fun i => List.hd 0 (filter (P i) (seq 0 (length comms)))).
  assert (Hlab : forall i, In i (nx.nodes G) ->
                           filter (P i) (seq 0 (length comms)) = [lab i]).
  { intros i Hi. destruct (Hpart i Hi) as (l & Hl & Hin & Hu).
    assert (Hf : filter (P i) (seq 0 (length comms)) = [l]).
    { apply filter_only.
      - apply seq_NoDup.
      - apply in_seq. lia.
      - apply existsb_eqb_In. exact Hin.
      - intros x Hx Hpx. apply in_seq in Hx. apply existsb_eqb_In in Hpx.
        apply Hu; [lia | exact Hpx]. }
    unfold lab. rewrite Hf. reflexivity. }
  rewrite (flat_map_single _ lab _ Hlab).
  destruct (dict_of_lists_map lab (nx.nodes G) []) as (cd & Hcd & Hget).
  exists cd. rewrite Hcd. split; [reflexivity |].
  intros v l. rewrite Hget. cbn [dict_get].
  destruct (existsb (Z.eqb v) (nx.nodes G)) eqn:Hv.
  - apply existsb_eqb_In in Hv.
    destruct (Hpart v Hv) as (l0 & Hl0 & Hin0 & Hu).
    assert (Hl : lab v = l0).
    { assert (Hf := Hlab v Hv).
      assert (Hin : In l0 (filter (P v) (seq 0 (length comms)))).
      { apply filter_In. split; [apply in_seq; lia |].
        apply existsb_eqb_In. exact Hin0. }
      rewrite Hf in Hin. destruct Hin as [Hin | []]. exact Hin. }
    rewrite Hl. split.
    + intros H. inversion H; subst. auto.
    + intros (_ & Hl' & Hin'). f_equal. symmetry. apply Hu; assumption.
  - split; [discriminate |]. intros (Hin & _).
    apply existsb_eqb_In in Hin. congruence.
Qed.

End Labels.

(** ** The node set of the snapshot and the plots of the driver *)

Lemma labels_of_total (cd : Dict) (l : list node) :
  (forall v, In v l -> dict_get cd v <> None) ->
  exists labels,
    labels_of cd l = Ok labels /\ map Some labels = map (dict_get cd) l.
Proof.
  induction l as [| v l IH]; intros H.
  - exists []. split; reflexivity.
  - destruct IH as (labels & Hl & Hm).
    { intros w Hw. apply H. right. exact Hw. }
    cbn [labels_of]. destruct (dict_get cd v) as [c |] eqn:Hc.
    + rewrite Hl. exists (c :: labels). split; [reflexivity |].
      cbn [map]. rewrite Hm, Hc. reflexivity.
    + exfalso. apply (H v (or_introl eq_refl)). exact Hc.
Qed.

Lemma labels_of_Ok (cd : Dict) (l : list node) (labels : list nat) :
  labels_of cd l = Ok labels -> forall v, In v l -> dict_get cd v <> None.
Proof.
  revert labels. induction l as [| w l IH]; intros labels H v Hv;
    [destruct Hv |].
  cbn [labels_of] in H. destruct (dict_get cd w) eqn:Hw; [| discriminate].
  bind_inv H. destruct Hv as [<- | Hv]; [congruence |].
  eapply IH; eassumption.
Qed.

Section Snapshot.

Context {E : External} {ES : ExternalSpec E}.

Lemma step_graph_nodes (rs : RandomState) (s s' : State) (r : Z)
      (train : bool) :
  well_formed s -> step rs s r train = Ok s' ->
  forall v, In v (nx.nodes (G s')) -> In v (node_list s').
Proof.
  intros Hwf H v Hv.
  pose proof (step_well_formed rs s s' r train Hwf H) as (_ & _ & Hrows & _).
  destruct (step_Ok _ _ _ _ _ H)
    as (s1 & s2 & kept & new_edges & _ & _ & _ & _ & _ & Hedf & HG & Hnl & _).
  rewrite HG in Hv. apply add_nodes_from_nodes in Hv.
  destruct Hv as [Hv | Hv]; [rewrite Hnl; exact Hv |].
  apply from_pandas_edgelist_nodes in Hv. rewrite <- Hedf in Hv.
  rewrite Forall_forall in Hrows.
  apply in_app_iff in Hv.
  destruct Hv as [Hv | Hv]; apply in_map_iff in Hv;
    destruct Hv as (e & <- & He); apply Hrows in He; tauto.
Qed.

Lemma reachable_graph_nodes (s : State) :
  reachable s -> forall v, In v (nx.nodes (G s)) <-> In v (node_list s).
Proof.
  intros Hr v. split.
  - revert v. destruct Hr as (rs0 & edges & kw & s0 & calls & Hi & Hr).
    assert (Hinv : well_formed s /\
                   forall v, In v (nx.nodes (G s)) -> In v (node_list s)).
    { apply (run_invariant
               (fun s => well_formed s /\
                         forall v, In v (nx.nodes (G s)) -> In v (node_list s)))
        with (calls := calls) (s0 := s0).
      - intros rs x r train x' (Hwf & _) Hstep. split.
        + eapply step_well_formed; eassumption.
        + eapply step_graph_nodes; eassumption.
      - split; [eapply init_well_formed; eassumption |].
        apply init_Ok in Hi. destruct Hi as (_ & _ & Hnl & _).
        intros v Hv. rewrite Hnl. exact Hv.
      - exact Hr. }
    exact (proj2 Hinv).
  - apply reachable_well_formed in Hr. destruct Hr as (_ & Hincl & _).
    apply Hincl.
Qed.

(** X2. The snapshot never gains or loses a node: after any number of
    successful steps the nodes of [self.G] are the nodes of the graph
    of construction, each listed once (possibly in another order),
    and they are the endpoints of the initial edge table. *)
Theorem graph_nodes_fixed (rs0 : RandomState) (edges : list Pair)
        (kw : Kwargs) (s0 s : State) (calls : list (RandomState * Z * bool)) :
  init rs0 edges kw = Ok s0 ->
  run s0 calls = Ok s ->
  NoDup (nx.nodes (G s)) /\
  Permutation (nx.nodes (G s)) (nx.nodes (G s0)) /\
  length (nx.nodes (G s)) = length (node_list s0) /\
  forall v, In v (nx.nodes (G s)) <-> In v (map fst edges ++ map snd edges).
Proof.
  intros Hi Hr.
  assert (Hreach : reachable s) by (exists rs0, edges, kw, s0, calls; auto).
  pose proof (reachable_graph_nodes s Hreach) as Hnodes.
  destruct (run_fixed calls s0 s Hr) as (Hnl & _).
  destruct (init_Ok _ _ _ _ Hi) as (_ & HG0 & Hnl0 & _).
  assert (Hnd : NoDup (nx.nodes (G s))).
  { apply (run_invariant (fun s => NoDup (nx.nodes (G s))))
      with (calls := calls) (s0 := s0).
    - intros rs x r train x' _ Hstep. apply step_Ok in Hstep.
      destruct Hstep as (s1 & s2 & kept & new_edges & _ & _ & _ & _ & _
                         & _ & HG & _).
      rewrite HG. apply add_nodes_from_NoDup, from_pandas_edgelist_NoDup.
    - rewrite HG0. apply from_pandas_edgelist_NoDup.
    - exact Hr. }
  assert (Hperm : Permutation (nx.nodes (G s)) (nx.nodes (G s0))).
  { apply NoDup_Permutation.
    - exact Hnd.
    - rewrite HG0. apply from_pandas_edgelist_NoDup.
    - intros v. rewrite Hnodes, Hnl, Hnl0. reflexivity. }
  repeat split.
  - exact Hnd.
  - exact Hperm.
  - rewrite (Permutation_length Hperm), Hnl0. reflexivity.
  - intros Hv. apply Hnodes in Hv. rewrite Hnl, Hnl0, HG0 in Hv.
    apply from_pandas_edgelist_nodes in Hv. exact Hv.
  - intros Hv. apply Hnodes. rewrite Hnl, Hnl0, HG0.
    apply from_pandas_edgelist_nodes. exact Hv.
Qed.

(** X3. The two plots of the driver cell never fail on a label:
    for every state the simulator reaches,
    [louvain_plot(LPS.G, comm_dict = LPS.comm_dict)] finds a label for
    every node of the snapshot and hands [nx.draw] one colour per
    node, the label stored at construction. *)
Theorem louvain_plot_reachable (rs : RandomState) (s : State) :
  reachable s ->
  exists labels,
    louvain_plot rs (G s) (comm_dict s) = Ok labels /\
    length labels = length (nx.nodes (G s)) /\
    map Some labels = map (dict_get (comm_dict s)) (nx.nodes (G s)).
Proof.
  intros Hreach.
  pose proof (reachable_graph_nodes s Hreach) as Hnodes.
  pose proof (reachable_well_formed s Hreach) as (_ & _ & _ & Hne & Hcov).
  unfold louvain_plot.
  destruct (comm_dict s) as [| kv cd] eqn:Hcd.
  - assert (Hnl : node_list s = []).
    { destruct (node_list s); [reflexivity |].
      exfalso. apply Hne; [discriminate | reflexivity]. }
    assert (Hg : nx.nodes (G s) = []).
    { destruct (nx.nodes (G s)) as [| v l]; [reflexivity |].
      exfalso. specialize (Hnodes v). rewrite Hnl in Hnodes.
      apply Hnodes. left. reflexivity. }
    unfold louvain_communities. rewrite Hg. cbn.
    exists []. repeat split.
  - cbn [bind].
    destruct (labels_of_total (kv :: cd) (nx.nodes (G s))) as (labels & Hl & Hm).
    { intros v Hv. apply Hcov, Hnodes, Hv. }
    exists labels. split; [exact Hl |]. split; [| exact Hm].
    apply (f_equal (@length _)) in Hm. rewrite !length_map in Hm. exact Hm.
Qed.

End Snapshot.

(** ** The columns of [compute_features] *)

Lemma name_lt_trans (a b c : String.string) :
  name_lt a b -> name_lt b c -> name_lt a c.
Proof.
  unfold name_lt. intros H1 H2.
  apply OrderedTypeEx.String_as_OT.cmp_lt.
  apply OrderedTypeEx.String_as_OT.cmp_lt in H1, H2.
  eapply OrderedTypeEx.String_as_OT.lt_trans; eassumption.
Qed.

Lemma name_lt_irrefl (a : String.string) : ~ name_lt a a.
Proof.
  unfold name_lt. intros H.
  assert (He : String.compare a a = Eq)
    by (apply OrderedTypeEx.String_as_OT.cmp_eq; reflexivity).
  congruence.
Qed.

Lemma insert_name_sorted (x : String.string) (l : list String.string) :
  StronglySorted name_lt l -> StronglySorted name_lt (insert_name x l).
Proof.
  induction l as [| y t IH]; intros Hs; cbn [insert_name].
  - constructor; constructor.
  - inversion Hs as [| ? ? Ht Hy]; subst.
    destruct (String.compare x y) eqn:Hc.
    + exact Hs.
    + constructor; [exact Hs |]. constructor; [exact Hc |].
      eapply Forall_impl; [| exact Hy].
      intros z Hz. eapply name_lt_trans; eassumption.
    + constructor; [apply IH; exact Ht |].
      apply Forall_forall. intros z Hz. apply insert_name_In in Hz.
      destruct Hz as [-> | Hz].
      * unfold name_lt. rewrite String.compare_antisym, Hc. reflexivity.
      * rewrite Forall_forall in Hy. apply Hy, Hz.
Qed.

Lemma sorted_names_NoDup (l : list String.string) :
  StronglySorted name_lt l -> NoDup l.
Proof.
  induction 1 as [| a l Hs IH Ha]; constructor; [| exact IH].
  intros Hin. rewrite Forall_forall in Ha.
  apply (name_lt_irrefl a), Ha, Hin.
Qed.

Lemma get_dummies_NoDup (col : list String.string) :
  NoDup (map fst (get_dummies col)).
Proof.
  unfold get_dummies. rewrite map_map. cbn [fst]. rewrite map_id.
  apply sorted_names_NoDup.
  induction col as [| c col IH]; cbn [fold_right].
  - constructor.
  - apply insert_name_sorted, IH.
Qed.

Section Columns.

Context {E : External}.

Lemma features_with_missing (g : nx.Graph) (cd : Dict) (df : Frame) (x : node) :
  In x (source df ++ target df) ->
  ~ In x (nx.nodes g) \/ dict_get cd x = None ->
  exists e, features_with g cd df = Raise e.
Proof.
  intros Hx Hmiss. unfold features_with.
  destruct (forallb (nx.has_node g) (source df ++ target df)) eqn:H1;
    cbn [negb]; [| eauto].
  match goal with
  | |- context [negb (forallb ?f ?l)] => destruct (forallb f l) eqn:H2
  end; cbn [negb]; [| eauto].
  exfalso. rewrite forallb_forall in H1, H2.
  specialize (H1 x Hx). specialize (H2 x Hx). apply has_node_In in H1.
  destruct Hmiss as [Hm | Hm]; [contradiction |].
  rewrite Hm in H2. discriminate.
Qed.

(** X4. [compute_features] cannot return when a row of [df] names a
    node that the supplied graph does not have, or for which the
    supplied community dictionary has no entry: the call raises. *)
Theorem compute_features_missing_node (rs : RandomState) (df : Frame)
        (g : nx.Graph) (cd : Dict) (x : node) :
  In x (source df ++ target df) ->
  (nx.nodes g <> [] -> ~ In x (nx.nodes g) ->
   exists e, compute_features rs df (Some g) cd = Raise e) /\
  (cd <> [] -> dict_get cd x = None ->
   forall G, exists e, compute_features rs df G cd = Raise e).
Proof.
  intros Hx. split.
  - intros Hg Hmiss. unfold compute_features.
    destruct (nx.nodes g) as [| v l] eqn:Hn; [congruence |].
    cbn [bind].
    assert (Hf : forall d, exists e, features_with g d df = Raise e).
    { intros d. apply features_with_missing with (x := x); [exact Hx |].
      left. rewrite Hn. exact Hmiss. }
    destruct cd as [| kv cd'].
    + destruct (louvain_communities rs g) as [p | e]; cbn [bind].
      * destruct (Hf (fst p)) as (e & He). rewrite He. eauto.
      * eauto.
    + cbn [bind]. destruct (Hf (kv :: cd')) as (e & He). rewrite He. eauto.
  - intros Hcd Hmiss G0. unfold compute_features.
    destruct cd as [| kv cd']; [congruence |].
    match goal with
    | |- exists e, bind ?r _ = _ => destruct r as [g0 | e]
    end; cbn [bind]; [| eauto].
    destruct (features_with_missing g0 (kv :: cd') df x Hx (or_intror Hmiss))
      as (e & He).
    rewrite He. eauto.
Qed.

(** X5. On a graph that has every node of [df] and a dictionary that
    labels every node of [df] (both non-empty, so that neither is
    recomputed), [compute_features] returns the rows of a non-empty
    [df] with their [link] column, followed by the five numeric
    columns in their order and one indicator column per community
    combination of the rows.  The column names are pairwise distinct,
    every column has one entry per row, and in each row exactly the
    indicator of the row's own combination is 1, the others 0. *)
Theorem compute_features_columns (rs : RandomState) (df : Frame)
        (g : nx.Graph) (cd : Dict) :
  nx.nodes g <> [] -> cd <> [] -> keys df <> [] ->
  (forall x, In x (source df ++ target df) ->
             In x (nx.nodes g) /\ dict_get cd x <> None) ->
  exists t,
    compute_features rs df (Some g) cd = Ok t /\
    f_keys t = keys df /\ f_link t = link df /\
    firstn 5 (map fst (f_cols t)) = numeric_cols /\
    NoDup (map fst (f_cols t)) /\
    Forall (fun c => length (snd c) = length (keys df)) (f_cols t) /\
    (forall k, In k (keys df) ->
               In (combined_name cd k) (map fst (skipn 5 (f_cols t)))) /\
    (forall i k, nth_error (keys df) i = Some k ->
                 Forall (fun c => nth i (snd c) 0%Q =
                                  if String.eqb (combined_name cd k) (fst c)
                                  then 1%Q else 0%Q)
                        (skipn 5 (f_cols t))).
Proof.
  intros Hg Hcd _ Hall.
  rewrite compute_features_supplied by assumption.
  unfold features_with.
  assert (H1 : forallb (nx.has_node g) (source df ++ target df) = true).
  { apply forallb_forall. intros x Hx. apply has_node_In, Hall, Hx. }
  assert (H2 : forallb (fun x => match dict_get cd x with
                                 | Some _ => true | None => false end)
                       (source df ++ target df) = true).
  { apply forallb_forall. intros x Hx. destruct (Hall x Hx) as [_ Hc].
    destruct (dict_get cd x); congruence. }
  rewrite H1, H2. cbn [negb]. eexists. split; [reflexivity |].
  cbn [f_keys f_link f_cols].
  assert (Hcc : map (fun ct : nat * nat =>
                       String.append "C"%string
                         (String.append (str (fst ct)) (str (snd ct))))
                    (combine
                       (map (fun x => match dict_get cd x with
                                      | Some c => c | None => 0 end) (source df))
                       (map (fun x => match dict_get cd x with
                                      | Some c => c | None => 0 end) (target df)))
                = map (combined_name cd) (keys df)).
  { unfold source, target. rewrite !map_map, combine_map_both, map_map.
    reflexivity. }
  rewrite Hcc.
  set (cc := map (combined_name cd) (keys df)).
  split; [reflexivity |]. split; [reflexivity |]. split; [reflexivity |].
  split; [| split; [| split]].
  - rewrite map_app. cbn [map fst].
    assert (Hd : forall n, In n (map fst (get_dummies cc)) ->
                           exists r, n = String.append "C"%string r).
    { intros n Hn. apply (proj1 (get_dummies_names cc n)) in Hn.
      unfold cc in Hn.
      apply in_map_iff in Hn. destruct Hn as (k & <- & _).
      unfold combined_name. eexists. reflexivity. }
    pose proof (get_dummies_NoDup cc) as Hnd.
    repeat (constructor;
            [ let H := fresh in
              intros H; cbn [In] in H;
              repeat (destruct H as [H | H]; [discriminate H |]);
              apply in_app_iff in H || idtac;
              try (apply Hd in H; destruct H as (r & H);
                   cbn [String.append] in H; discriminate H) |]).
    exact Hnd.
  - apply Forall_app. split.
    + repeat constructor; cbn [snd]; unfold source, target;
        rewrite !length_map; reflexivity.
    + unfold get_dummies. apply Forall_map. apply Forall_forall.
      intros n _. cbn [snd]. unfold cc. rewrite !length_map. reflexivity.
  - intros k Hk. cbn [skipn app]. apply get_dummies_names.
    unfold cc. apply in_map. exact Hk.
  - intros i k Hi. cbn [skipn app]. unfold get_dummies.
    apply Forall_map. apply Forall_forall. intros n _. cbn [fst snd].
    apply nth_error_nth.
    assert (Hc : nth_error cc i = Some (combined_name cd k))
      by (unfold cc; apply map_nth_error; exact Hi).
    rewrite (map_nth_error _ _ _ Hc). reflexivity.
Qed.

End Columns.

(** ** [add_negative_examples] on an arbitrary table *)

Lemma filter_map_key (k : Pair) (df : list Pair) :
  filter (fun r : Pair * Z => pair_eqb k (fst r)) (map (fun e => (e, 1%Z)) df)
  = map (fun e => (e, 1%Z)) (filter (pair_eqb k) df).
Proof.
  induction df as [| e df IH]; [reflexivity |].
  cbn [map filter fst]. destruct (pair_eqb k e); cbn [map]; rewrite IH;
    reflexivity.
Qed.

Lemma map_const_repeat {A B : Type} (c : B) (l : list A) :
  map (fun _ => c) l = repeat c (length l).
Proof.
  induction l as [| a l IH]; [reflexivity |].
  cbn [map length repeat]. rewrite IH. reflexivity.
Qed.

Lemma filter_nil_mem (k : Pair) (df : list Pair) :
  filter (pair_eqb k) df = [] -> mem_pair k df = false.
Proof.
  intros H. apply mem_pair_false. intros Hin.
  assert (Hf : In k (filter (pair_eqb k) df))
    by (apply filter_In; split; [exact Hin | apply pair_eqb_refl]).
  rewrite H in Hf. destruct Hf.
Qed.

Lemma add_negative_examples_frame (df : list Pair) :
  keys (add_negative_examples df)
  = map fst (labelled_rows (add_negative_examples df)) /\
  link (add_negative_examples df)
  = Some (map snd (labelled_rows (add_negative_examples df))).
Proof.
  unfold add_negative_examples, labelled_rows. cbn [keys link].
  rewrite combine_map_both, !map_map. cbn [fst snd]. split; reflexivity.
Qed.

Lemma add_negative_examples_rows (df : list Pair) :
  labelled_rows (add_negative_examples df) =
  flat_map
    (fun k => repeat (k, mem_pair k df)
                     (Nat.max 1 (length (filter (pair_eqb k) df))))
    (ordered_pairs (np_unique (map fst df ++ map snd df))).
Proof.
  unfold add_negative_examples, labelled_rows. cbn [keys link].
  rewrite combine_map_both. unfold merge_left.
  induction (ordered_pairs (np_unique (map fst df ++ map snd df)))
    as [| k l IH]; [reflexivity |].
  cbn [flat_map]. rewrite map_app, IH. f_equal.
  rewrite filter_map_key.
  destruct (filter (pair_eqb k) df) as [| m ms] eqn:Hf.
  - rewrite (filter_nil_mem k df Hf). reflexivity.
  - assert (Hm : mem_pair k df = true).
    { apply mem_pair_In.
      assert (Hin : In m (filter (pair_eqb k) df))
        by (rewrite Hf; left; reflexivity).
      apply filter_In in Hin. destruct Hin as [Hin He].
      apply pair_eqb_eq in He. subst. exact Hin. }
    rewrite Hm.
    change (Nat.max 1 (length (m :: ms))) with (S (length ms)).
    cbn [map repeat fst snd]. f_equal.
    rewrite !map_map. cbn [fst snd].
    rewrite <- (map_const_repeat (k, true) ms). reflexivity.
Qed.

Lemma labelled_rows_In (df : list Pair) (k : Pair) (l : bool) :
  In (k, l) (labelled_rows (add_negative_examples df)) ->
  (fst k < snd k)%Z /\
  In (fst k) (np_unique (map fst df ++ map snd df)) /\
  In (snd k) (np_unique (map fst df ++ map snd df)) /\
  (l = true <-> In k df).
Proof.
  intros Hin. rewrite add_negative_examples_rows in Hin.
  apply in_flat_map in Hin.
  destruct Hin as (k0 & Hk0 & Hin). apply repeat_spec in Hin.
  injection Hin as -> ->. destruct k0 as [a b].
  apply ordered_pairs_In in Hk0. cbn [fst snd].
  repeat split; try tauto.
  - intros H. apply mem_pair_In. exact H.
  - intros H. apply mem_pair_In. exact H.
Qed.

(** X6. [add_negative_examples] on any table with at least one row,
    be it with repeated rows, self-loops or rows with
    [source > target]: over the sorted distinct nodes, each pair [k]
    with [source < target] gets one row labelled false when no row of
    [df] equals [k], and otherwise as many rows labelled true as [df]
    has rows equal to [k].  A pair present only in the opposite
    orientation is labelled false, and no row joins a node to
    itself. *)
Theorem add_negative_examples_any_table (df : list Pair) :
  df <> [] ->
  let node_list := np_unique (map fst df ++ map snd df) in
  let out := add_negative_examples df in
  labelled_rows out =
    flat_map
      (fun k => repeat (k, mem_pair k df)
                       (Nat.max 1 (length (filter (pair_eqb k) df))))
      (ordered_pairs node_list) /\
  keys out = map fst (labelled_rows out) /\
  link out = Some (map snd (labelled_rows out)) /\
  (forall k l, In (k, l) (labelled_rows out) ->
               (fst k < snd k)%Z /\ In (fst k) node_list /\
               In (snd k) node_list /\ (l = true <-> In k df)) /\
  (forall a b, In (b, a) df -> (a < b)%Z -> ~ In (a, b) df ->
               In ((a, b), false) (labelled_rows out)).
Proof.
  intros _ node_list out.
  pose proof (add_negative_examples_rows df) as Hrows.
  destruct (add_negative_examples_frame df) as [Hk Hl].
  fold out in Hrows, Hk, Hl. fold node_list in Hrows.
  split; [exact Hrows |]. split; [exact Hk |]. split; [exact Hl |]. split.
  - intros k l Hin. apply labelled_rows_In. exact Hin.
  - intros a b Hba Hlt Hab. rewrite Hrows. apply in_flat_map.
    exists (a, b). split.
    + apply ordered_pairs_In. unfold node_list.
      rewrite !np_unique_In, !in_app_iff. repeat split; [| | exact Hlt].
      * right. apply in_map_iff. exists (b, a). auto.
      * left. apply in_map_iff. exists (b, a). auto.
    + apply mem_pair_false in Hab. rewrite Hab.
      destruct (length (filter (pair_eqb (a, b)) df)); left; reflexivity.
Qed.

(** ** The methods of the simulator on their own *)

Section Methods.

Context {E : External} {ES : ExternalSpec E}.

Lemma features_of_universe (rs : RandomState) (s : State) :
  kwargs s = [] -> well_formed s -> node_list s <> [] ->
  exists feats,
    compute_features_kw rs (mkFrame (ordered_pairs (node_list s)) None)
                        (Some (G s)) (comm_dict s) (kwargs s) = Ok feats.
Proof.
  intros Hkw (_ & Hincl & _ & Hne & Hcov) Hnl.
  rewrite Hkw, compute_features_kw_nil.
  assert (Hin : forall x,
             In x (source (mkFrame (ordered_pairs (node_list s)) None)
                   ++ target (mkFrame (ordered_pairs (node_list s)) None)) ->
             In x (node_list s)).
  { intros x Hx. unfold source, target in Hx. cbn [keys] in Hx.
    apply in_app_iff in Hx.
    destruct Hx as [Hx | Hx]; apply in_map_iff in Hx;
      destruct Hx as ([a b] & <- & Hab); apply ordered_pairs_In in Hab;
      cbn; tauto. }
  rewrite compute_features_supplied.
  - destruct (features_with_Ok (G s) (comm_dict s)
                (mkFrame (ordered_pairs (node_list s)) None))
      as (feats & Hf & _).
    + intros x Hx. apply Hincl, Hin, Hx.
    + intros x Hx. apply Hcov, Hin, Hx.
    + exists feats. exact Hf.
  - destruct (node_list s) as [| v l] eqn:Hl; [congruence |].
    intros Hg. specialize (Hincl v (or_introl eq_refl)).
    rewrite Hg in Hincl. destruct Hincl.
  - apply Hne, Hnl.
Qed.

(** X7. Called before their time, the methods fail on a missing
    attribute.  Right after construction (no keyword arguments, a
    table that joins two distinct nodes) [train_model] raises
    [AttributeError] for want of [train_df], and
    [get_predicted_edges], like [update_edges] with an admissible
    count, computes the features of all pairs and then raises
    [AttributeError] for want of [model]. *)
Theorem methods_out_of_order (rs0 : RandomState) (edges : list Pair)
        (s0 : State) :
  init rs0 edges [] = Ok s0 ->
  (exists e, In e edges /\ fst e <> snd e) ->
  forall rs r,
    train_model rs s0 = Raise AttributeError /\
    get_predicted_edges rs s0 r = Raise AttributeError /\
    ((0 <= r <= Z.of_nat (length edges))%Z ->
     update_edges rs s0 r = Raise AttributeError).
Proof.
  intros Hi (e & He & _) rs r.
  pose proof (init_well_formed _ _ _ _ Hi) as Hwf.
  assert (Hs0 : kwargs s0 = [] /\ train_df s0 = None /\ model s0 = None /\
                edge_df s0 = edges /\
                node_list s0 = nx.nodes (nx.from_pandas_edgelist edges)).
  { unfold init in Hi. bind_inv Hi. inversion Hi. cbn. auto. }
  destruct Hs0 as (Hkw & Ht & Hm & Hdf & Hnl).
  assert (Hne : node_list s0 <> []).
  { intros Hnil.
    assert (Hin : In (fst e) (node_list s0)).
    { rewrite Hnl. apply from_pandas_edgelist_nodes, in_or_app. left.
      apply in_map. exact He. }
    rewrite Hnil in Hin. destruct Hin. }
  split; [| split].
  - unfold train_model. rewrite Ht. reflexivity.
  - unfold get_predicted_edges.
    destruct (features_of_universe rs s0 Hkw Hwf Hne) as (feats & Hf).
    rewrite Hf, Hm. reflexivity.
  - intros Hr. unfold update_edges, sample. rewrite Hdf.
    destruct (Z.of_nat (length edges) - r <? 0)%Z eqn:H0;
      [apply Z.ltb_lt in H0; lia |].
    destruct (Z.of_nat (length edges) <? Z.of_nat (length edges) - r)%Z eqn:H1;
      [apply Z.ltb_lt in H1; lia |].
    cbn [bind]. unfold get_predicted_edges.
    set (kept := take_rows _ _).
    assert (Hwf' : well_formed (with_edge_df s0 kept)).
    { destruct Hwf as (H1' & H2' & H3' & H4' & H5').
      unfold well_formed, with_edge_df. cbn. repeat split; try assumption.
      apply Forall_forall. intros x Hx.
      assert (Hx' : In x edges).
      { unfold kept, take_rows in Hx. apply in_flat_map in Hx.
        destruct Hx as (i & _ & Hx).
        destruct (nth_error edges i) eqn:Hn; [| destruct Hx].
        destruct Hx as [<- | []]. eapply nth_error_In. exact Hn. }
      rewrite Forall_forall in H3'. apply H3'. rewrite Hdf. exact Hx'. }
    destruct (features_of_universe rs (with_edge_df s0 kept) Hkw Hwf' Hne)
      as (feats & Hf).
    cbn [with_edge_df kwargs G node_list comm_dict model] in Hf |- *.
    rewrite Hf, Hm. reflexivity.
Qed.

(** X9. [prep_data] fails on a table none of whose rows has
    [source < target], as soon as the table names two distinct nodes:
    every training row is then labelled false, the graph rebuilt from
    the rows with [link] true has no node, and the feature
    computation raises. *)
Theorem prep_data_no_forward_row (rs : RandomState) (s : State) (a b : node) :
  kwargs s = [] ->
  (forall e, In e (edge_df s) -> (snd e <= fst e)%Z) ->
  In a (map fst (edge_df s) ++ map snd (edge_df s)) ->
  In b (map fst (edge_df s) ++ map snd (edge_df s)) ->
  (a < b)%Z ->
  exists e, prep_data rs s = Raise e.
Proof.
  intros Hkw Hback Ha Hb Hab. unfold prep_data.
  rewrite Hkw, compute_features_kw_nil.
  set (tbl := add_negative_examples (edge_df s)).
  destruct (add_negative_examples_frame (edge_df s)) as [Hk Hl].
  fold tbl in Hk, Hl.
  pose proof (add_negative_examples_rows (edge_df s)) as Hrows. fold tbl in Hrows.
  assert (Hfalse : forall k l, In (k, l) (labelled_rows tbl) -> l = false).
  { intros k l Hin. rewrite Hrows in Hin. apply in_flat_map in Hin.
    destruct Hin as (k0 & Hk0 & Hin). apply repeat_spec in Hin.
    injection Hin as -> ->. destruct k0 as [x y].
    apply ordered_pairs_In in Hk0. apply mem_pair_false. intros Hin'.
    apply Hback in Hin'. cbn in Hin'. lia. }
  assert (Hkey : In (a, b) (keys tbl)).
  { rewrite Hk, Hrows. apply in_map_iff.
    exists ((a, b), mem_pair (a, b) (edge_df s)). split; [reflexivity |].
    apply in_flat_map. exists (a, b). split.
    - apply ordered_pairs_In. rewrite !np_unique_In. auto.
    - destruct (length (filter (pair_eqb (a, b)) (edge_df s)));
        left; reflexivity. }
  assert (Hnone : filter snd (labelled_rows tbl) = []).
  { apply filter_none. intros [k l] Hin. cbn. eapply Hfalse. exact Hin. }
  assert (Hmiss : forall d, exists e,
               features_with (nx.from_pandas_edgelist []) d tbl = Raise e).
  { intros d. apply features_with_missing with (x := a).
    - apply in_or_app. left. unfold source.
      apply in_map_iff. exists (a, b). auto.
    - left. intros []. }
  unfold compute_features. rewrite Hl. cbn [bind].
  assert (Hc : combine (keys tbl) (map snd (labelled_rows tbl))
               = labelled_rows tbl).
  { rewrite Hk, combine_map_both. rewrite <- (map_id (labelled_rows tbl)) at 2.
    apply map_ext. intros [k l]. reflexivity. }
  rewrite Hc, Hnone. cbn [map].
  destruct (comm_dict s) as [| kv cd].
  - destruct (louvain_communities rs (nx.from_pandas_edgelist [])) as [p | e];
      cbn [bind]; [| eauto].
    destruct (Hmiss (fst p)) as (e & He). rewrite He. cbn [bind]. eauto.
  - cbn [bind]. destruct (Hmiss (kv :: cd)) as (e & He). rewrite He.
    cbn [bind]. eauto.
Qed.

(** X10. A count outside [0 .. len(edge_df)] stops [update_edges] at
    the sampling: [DataFrame.sample] raises [ValueError] before
    anything is predicted, and no step with such a count returns. *)
Theorem update_edges_out_of_range (rs : RandomState) (s : State) (r : Z) :
  (r < 0 \/ Z.of_nat (length (edge_df s)) < r)%Z ->
  update_edges rs s r = Raise ValueError /\
  forall train, exists e, step rs s r train = Raise e.
Proof.
  intros Hr.
  assert (Hu : forall x, edge_df x = edge_df s ->
                         update_edges rs x r = Raise ValueError).
  { intros x Hx. unfold update_edges, sample. rewrite Hx.
    destruct (Z.of_nat (length (edge_df s)) - r <? 0)%Z eqn:H0;
      [reflexivity |].
    destruct (Z.of_nat (length (edge_df s))
              <? Z.of_nat (length (edge_df s)) - r)%Z eqn:H1;
      [reflexivity |].
    apply Z.ltb_ge in H0, H1. lia. }
  split; [apply Hu; reflexivity |].
  intros train. unfold step.
  destruct (prep_data rs s) as [s1 | e] eqn:H1; cbn [bind]; [| eauto].
  destruct (train_model rs s1) as [s2 | e] eqn:H2; cbn [bind]; [| eauto].
  rewrite Hu; [cbn [bind]; eauto |].
  apply prep_data_frame in H1. apply train_model_frame in H2.
  destruct H1 as (H1 & _). destruct H2 as (H2 & _). congruence.
Qed.

(** X11. What [get_predicted_edges] returns is new: its rows are
    pairwise distinct pairs of the node list with [source < target],
    none of them a row of [edge_df]; for [m_replace >= 0] there are
    [min(m_replace, c)] of them, [c] the number of such pairs, and
    for a negative [m_replace] all but the last [- m_replace]. *)
Theorem get_predicted_edges_fresh (rs : RandomState) (s : State) (r : Z)
        (new_edges : list Pair) :
  get_predicted_edges rs s r = Ok new_edges ->
  NoDup (node_list s) ->
  NoDup new_edges /\
  (forall a b, In (a, b) new_edges ->
               (a < b)%Z /\ In a (node_list s) /\ In b (node_list s) /\
               ~ In (a, b) (edge_df s)) /\
  ((0 <= r)%Z ->
   length new_edges = Nat.min (Z.to_nat r) (length (available s))) /\
  ((r < 0)%Z ->
   length new_edges = length (available s) - Z.to_nat (- r)).
Proof.
  intros H Hnd.
  destruct (predicted_in_universe rs s r new_edges H) as (Hincl & Hnd' & Hlen).
  split; [apply Hnd', Hnd |]. split; [| split; [exact Hlen |]].
  - intros a b Hab. apply Hincl, available_In in Hab.
    destruct Hab as [Hp Hn]. apply ordered_pairs_In in Hp. tauto.
  - intros Hneg. apply get_predicted_edges_Ok in H.
    destruct H as (feats & m & cols & X & _ & _ & _ & _ & _ & Hsc & ->).
    cbv zeta in Hsc.
    rewrite length_map. unfold head.
    destruct (0 <=? r)%Z eqn:H0; [apply Z.leb_le in H0; lia |].
    rewrite length_firstn.
    rewrite (Permutation_length (sort_values_perm _)).
    rewrite <- (candidates_keys s _ Hsc), length_map. lia.
Qed.

(** X12. A step that replaces nothing ([m_replace = 0], the first
    call of the driver loop) only reorders the edge table: the rows
    after the step are a permutation of the rows before, and for a
    table of distinct rows with [source < target] the edges of the
    new snapshot are these rows. *)
Theorem step_zero_shuffles (rs : RandomState) (s s' : State) (train : bool) :
  step rs s 0 train = Ok s' ->
  Permutation (edge_df s') (edge_df s) /\
  (NoDup (node_list s) -> simple_table (edge_df s) ->
   Permutation (nx.edges (G s')) (edge_df s)).
Proof.
  intros H.
  assert (Hp : Permutation (edge_df s') (edge_df s)).
  { destruct (step_Ok _ _ _ _ _ H)
      as (s1 & s2 & kept & new_edges & _ & _ & Hk & Hn & _ & He & _).
    apply predicted_in_universe in Hn. destruct Hn as (_ & _ & Hlen).
    specialize (Hlen (Z.le_refl 0)). cbn in Hlen.
    destruct new_edges; [| discriminate].
    apply sample_spec in Hk. destruct Hk as (_ & Hlk & dropped & Hperm).
    assert (Hd : dropped = []).
    { apply Permutation_length in Hperm. rewrite length_app in Hperm.
      destruct dropped; [reflexivity |]. cbn [length] in Hperm. lia. }
    subst dropped. rewrite He. exact Hperm. }
  split; [exact Hp |].
  intros Hnd Hs. rewrite (step_graph_edges rs s s' 0 train Hnd Hs H). exact Hp.
Qed.

(** X13. A simulator constructed with any keyword argument never
    completes a step: [get_predicted_edges] passes [G] by name next
    to [**self.kwargs], so the call of [compute_features] is a
    [TypeError] whatever the keyword is. *)
Theorem kwargs_block_steps (rs0 : RandomState) (edges : list Pair)
        (kw : Kwargs) (s0 : State) :
  init rs0 edges kw = Ok s0 ->
  kw <> [] ->
  (forall rs r, get_predicted_edges rs s0 r = Raise TypeError) /\
  (forall rs r train, exists e, step rs s0 r train = Raise e) /\
  (forall calls s, run s0 calls = Ok s -> calls = [] /\ s = s0).
Proof.
  intros Hi Hkw.
  assert (Hk : kwargs s0 = kw).
  { unfold init in Hi. bind_inv Hi. inversion Hi. reflexivity. }
  assert (Hstep : forall rs r train, exists e, step rs s0 r train = Raise e).
  { intros rs r train. destruct (step rs s0 r train) as [s' | e] eqn:H;
      [| eauto].
    apply step_needs_no_kwargs in H. congruence. }
  split; [| split; [exact Hstep |]].
  - intros rs r. unfold get_predicted_edges.
    rewrite compute_features_kw_by_name by congruence. reflexivity.
  - intros calls s Hr. destruct calls as [| [[rs r] train] calls].
    + cbn in Hr. inversion Hr. auto.
    + cbn [run] in Hr. destruct (Hstep rs r train) as (e & He).
      rewrite He in Hr. discriminate.
Qed.

(** X14. What a returning step presupposes: no keyword argument
    was given at construction, the count lies in [0 .. len(edge_df)],
    the table has a row with [source < target] (a positive example)
    and misses some pair of its nodes (a negative example); the
    returned state has a trained model. *)
Theorem step_returns_only_if (rs : RandomState) (s s' : State) (r : Z)
        (train : bool) :
  step rs s r train = Ok s' ->
  kwargs s = [] /\
  (0 <= r <= Z.of_nat (length (edge_df s)))%Z /\
  (exists e, In e (edge_df s) /\ (fst e < snd e)%Z) /\
  (exists a b,
      In a (map fst (edge_df s) ++ map snd (edge_df s)) /\
      In b (map fst (edge_df s) ++ map snd (edge_df s)) /\
      (a < b)%Z /\ ~ In (a, b) (edge_df s)) /\
  model s' <> None.
Proof.
  intros H.
  pose proof (step_needs_no_kwargs _ _ _ _ _ H) as Hkw.
  destruct (step_Ok _ _ _ _ _ H)
    as (s1 & s2 & kept & new_edges & H1 & H2 & Hk & _ & _ & _ & _ & _ & _ & _
        & Hm).
  apply sample_spec in Hk. destruct Hk as (Hr & _).
  unfold prep_data in H1. bind_inv H1. inversion H1 as [Hs1]. clear H1.
  apply compute_features_kw_keys in Hv. destruct Hv as [_ Hlink].
  destruct (add_negative_examples_frame (edge_df s)) as [_ Hl].
  rewrite Hl in Hlink.
  unfold train_model in H2. rewrite <- Hs1 in H2.
  cbn [train_df feature_cols attr bind] in H2.
  bind_inv H2. rewrite Hlink in H2. cbn [bind] in H2.
  bind_inv H2. inversion H2 as [Hs2]. clear H2.
  match goal with
  | Hfit : LogisticRegression_fit _ _ _ = Ok _ |- _ =>
      apply fit_Ok in Hfit; destruct Hfit as (_ & Ht & Hf)
  end.
  assert (Hrow : forall l, In l (map snd (labelled_rows
                                            (add_negative_examples (edge_df s)))) ->
                           exists k, In (k, l) (labelled_rows
                                                  (add_negative_examples (edge_df s)))).
  { intros l Hin. apply in_map_iff in Hin.
    destruct Hin as ([k l'] & <- & Hin). exists k. exact Hin. }
  repeat split.
  - exact Hkw.
  - lia.
  - lia.
  - destruct (Hrow true Ht) as (k & Hin).
    apply labelled_rows_In in Hin. destruct Hin as (Hlt & _ & _ & Hiff).
    exists k. split; [apply Hiff; reflexivity | exact Hlt].
  - destruct (Hrow false Hf) as ([a b] & Hin).
    apply labelled_rows_In in Hin. destruct Hin as (Hlt & Ha & Hb & Hiff).
    cbn [fst snd] in *.
    apply (proj1 (np_unique_In _ _)) in Ha.
    apply (proj1 (np_unique_In _ _)) in Hb.
    exists a, b. repeat split; try assumption.
    intros Hin. apply Hiff in Hin. discriminate.
  - rewrite Hm, <- Hs2. discriminate.
Qed.

End Methods.

(** ** Equal degrees *)

Lemma sumZ_abs_zero (l : list Z) :
  sumZ (map Z.abs l) = 0%Z <-> Forall (fun x => x = 0%Z) l.
Proof.
  induction l as [| x l IH]; cbn [map].
  - split; [constructor | reflexivity].
  - rewrite sumZ_cons. pose proof (sumZ_abs_nonneg l) as Hn. split.
    + intros H. constructor; [lia |]. apply IH. lia.
    + intros H. inversion H as [| ? ? Hx Hl]; subst.
      apply IH in Hl. rewrite Hl. reflexivity.
Qed.

Lemma subtract_outer_In (a b : list Z) (z : Z) :
  In z (subtract_outer a b) <->
  exists x y, In x a /\ In y b /\ z = (x - y)%Z.
Proof.
  unfold subtract_outer. rewrite in_flat_map. split.
  - intros (x & Hx & Hz). apply in_map_iff in Hz.
    destruct Hz as (y & <- & Hy). eauto.
  - intros (x & y & Hx & Hy & ->). exists x. split; [exact Hx |].
    apply in_map_iff. eauto.
Qed.

Section Regular.

Context {E : External}.

(** X15. With a positive mean degree, [degree_gini] is zero exactly
    when all nodes of the snapshot have the same degree. *)
Theorem degree_gini_zero_iff_regular (s : State) :
  let degs := map (nx.degree (G s)) (nx.nodes (G s)) in
  (0 < np_mean degs)%Q ->
  (degree_gini s == 0)%Q <->
  (forall u v, In u (nx.nodes (G s)) -> In v (nx.nodes (G s)) ->
               nx.degree (G s) u = nx.degree (G s) v).
Proof.
  intros degs Hmean.
  set (diffs := map Z.abs (subtract_outer degs degs)).
  destruct (np_mean_pos _ Hmean) as [Hn Hsum].
  assert (Heq : (degree_gini s ==
                 inject_Z (sumZ diffs) /
                 inject_Z (2 * Z.of_nat (length degs) * sumZ degs))%Q).
  { change (degree_gini s) with ((1 # 2) * (np_mean diffs / np_mean degs))%Q.
    unfold np_mean.
    assert (Hlen : length diffs = length degs * length degs)
      by (unfold diffs; rewrite length_map; apply subtract_outer_length).
    rewrite Hlen, Nat2Z.inj_mul, !inject_Z_mult.
    pose proof (inject_Z_nonzero _ Hn) as Hn'.
    pose proof (inject_Z_nonzero _ Hsum) as Hs'.
    field. auto. }
  assert (Hden : ~ (inject_Z (2 * Z.of_nat (length degs) * sumZ degs) == 0)%Q)
    by (apply inject_Z_nonzero; nia).
  assert (Hzero : (degree_gini s == 0)%Q <-> sumZ diffs = 0%Z).
  { rewrite Heq. split.
    - intros H. apply inject_Z_injective.
      rewrite <- (Qmult_div_r (inject_Z (sumZ diffs)) _ Hden), H.
      rewrite Qmult_0_r. reflexivity.
    - intros ->. unfold Qdiv. rewrite Qmult_0_l. reflexivity. }
  rewrite Hzero. unfold diffs. rewrite sumZ_abs_zero, Forall_forall. split.
  - intros H u v Hu Hv.
    assert (Hd : (nx.degree (G s) u - nx.degree (G s) v = 0)%Z).
    { apply H, subtract_outer_In.
      exists (nx.degree (G s) u), (nx.degree (G s) v).
      unfold degs. repeat split; apply in_map; assumption. }
    lia.
  - intros H z Hz. apply subtract_outer_In in Hz.
    destruct Hz as (x & y & Hx & Hy & ->). unfold degs in Hx, Hy.
    apply in_map_iff in Hx, Hy.
    destruct Hx as (u & <- & Hu). destruct Hy as (v & <- & Hv).
    rewrite (H u v Hu Hv). lia.
Qed.

End Regular.

(** ** The cells that prepare the tables *)

Lemma enumerate_from_snd (i : Z) (rows : list Pair) :
  map snd (cells.enumerate_from i rows) = rows.
Proof.
  revert i. induction rows as [| r t IH]; intros i; [reflexivity |].
  cbn [cells.enumerate_from map snd]. rewrite IH. reflexivity.
Qed.

Lemma enumerate_from_label (i j : Z) (p : Pair) (rows : list Pair) :
  In (j, p) (cells.enumerate_from i rows) ->
  (i <= j < i + Z.of_nat (length rows))%Z.
Proof.
  revert i. induction rows as [| r t IH]; intros i H; [destruct H |].
  cbn [cells.enumerate_from length] in *. destruct H as [H | H].
  - inversion H; subst. lia.
  - apply IH in H. lia.
Qed.

Lemma enumerate_from_nth (i : Z) (k : nat) (p : Pair) (rows : list Pair) :
  nth_error rows k = Some p ->
  In ((i + Z.of_nat k)%Z, p) (cells.enumerate_from i rows).
Proof.
  revert i k. induction rows as [| r t IH]; intros i k H.
  - destruct k; discriminate.
  - destruct k as [| k]; cbn [nth_error] in H; cbn [cells.enumerate_from].
    + inversion H; subst. left. f_equal. lia.
    + right. replace (i + Z.of_nat (S k))%Z with ((i + 1) + Z.of_nat k)%Z by lia.
      apply IH. exact H.
Qed.

Lemma filter_upto_enumerate (h i : Z) (rows : list Pair) :
  filter (fun r : Z * Pair => (fst r <=? h)%Z) (cells.enumerate_from i rows)
  = cells.enumerate_from i (firstn (Z.to_nat (h + 1 - i)) rows).
Proof.
  revert i. induction rows as [| r t IH]; intros i.
  - rewrite firstn_nil. reflexivity.
  - cbn [cells.enumerate_from filter fst]. rewrite IH.
    destruct (i <=? h)%Z eqn:Hi.
    + apply Z.leb_le in Hi.
      replace (Z.to_nat (h + 1 - i)) with (S (Z.to_nat (h + 1 - (i + 1))))
        by lia.
      reflexivity.
    + apply Z.leb_gt in Hi.
      replace (Z.to_nat (h + 1 - i)) with 0 by lia.
      replace (Z.to_nat (h + 1 - (i + 1))) with 0 by lia.
      reflexivity.
Qed.

Lemma filter_from_enumerate (m i : Z) (rows : list Pair) :
  map snd (filter (fun r : Z * Pair => (m <=? fst r)%Z)
                  (cells.enumerate_from i rows))
  = skipn (Z.to_nat (m - i)) rows.
Proof.
  revert i. induction rows as [| r t IH]; intros i.
  - rewrite skipn_nil. reflexivity.
  - cbn [cells.enumerate_from filter fst].
    destruct (m <=? i)%Z eqn:Hi.
    + apply Z.leb_le in Hi. cbn [map snd]. rewrite IH.
      replace (Z.to_nat (m - i)) with 0 by lia.
      replace (Z.to_nat (m - (i + 1))) with 0 by lia.
      reflexivity.
    + apply Z.leb_gt in Hi. rewrite IH.
      replace (Z.to_nat (m - i)) with (S (Z.to_nat (m - (i + 1)))) by lia.
      reflexivity.
Qed.

Lemma filter_comm {A : Type} (P Q : A -> bool) (l : list A) :
  filter P (filter Q l) = filter Q (filter P l).
Proof.
  induction l as [| a l IH]; [reflexivity |].
  cbn [filter]. destruct (P a) eqn:Hp, (Q a) eqn:Hq; cbn [filter];
    rewrite ?Hp, ?Hq, IH; reflexivity.
Qed.

Lemma filter_map_snd (P : Pair -> bool) (l : list (Z * Pair)) :
  map snd (filter (fun r => P (snd r)) l) = filter P (map snd l).
Proof.
  induction l as [| a l IH]; [reflexivity |].
  cbn [filter map]. destruct (P (snd a)); cbn [map]; rewrite IH; reflexivity.
Qed.

(** X16. The split of the contact log.  [train] holds the rows with
    [source < target] among the first [m_train + 1] rows of the file,
    [test] those among the rows from position [m_train] on: both
    ends of a [loc] slice are included, so every kept row is in one
    of the two and the row at position [m_train], when it is kept, is
    in both, and it is the only such row. *)
Theorem train_test_split (m_train : Z) (rows : list Pair) :
  map snd (cells.train m_train rows)
  = filter (fun p => (fst p <? snd p)%Z)
           (firstn (Z.to_nat (m_train + 1)) rows) /\
  map snd (cells.test m_train rows)
  = filter (fun p => (fst p <? snd p)%Z) (skipn (Z.to_nat m_train) rows) /\
  (forall r, In r (cells.contact rows) ->
             In r (cells.train m_train rows) \/ In r (cells.test m_train rows)) /\
  (forall r, In r (cells.train m_train rows) ->
             In r (cells.test m_train rows) -> fst r = m_train) /\
  (forall p, (0 <= m_train)%Z ->
             nth_error rows (Z.to_nat m_train) = Some p ->
             (fst p < snd p)%Z ->
             In (m_train, p) (cells.train m_train rows) /\
             In (m_train, p) (cells.test m_train rows)).
Proof.
  unfold cells.train, cells.test, cells.contact, cells.loc, cells.read_csv.
  set (P := fun p : Pair => (fst p <? snd p)%Z).
  change (fun r : Z * Pair => (fst (snd r) <? snd (snd r))%Z)
    with (fun r : Z * Pair => P (snd r)).
  assert (Hlo : forall h l,
             filter (fun r : Z * Pair => (0 <=? fst r)%Z && (fst r <=? h)%Z)
                    (filter (fun r => P (snd r)) (cells.enumerate_from 0 l))
             = filter (fun r => P (snd r))
                      (filter (fun r : Z * Pair => (fst r <=? h)%Z)
                              (cells.enumerate_from 0 l))).
  { intros h l. rewrite filter_comm. f_equal.
    apply filter_ext_in. intros [j p] Hin.
    apply enumerate_from_label in Hin. cbn [fst].
    destruct (0 <=? j)%Z eqn:H0; [reflexivity |].
    apply Z.leb_gt in H0. lia. }
  assert (Hhi : forall m l,
             filter (fun r : Z * Pair => (m <=? fst r)%Z && true)
                    (filter (fun r => P (snd r)) (cells.enumerate_from 0 l))
             = filter (fun r => P (snd r))
                      (filter (fun r : Z * Pair => (m <=? fst r)%Z)
                              (cells.enumerate_from 0 l))).
  { intros m l. rewrite filter_comm. f_equal.
    apply filter_ext. intros r. apply andb_true_r. }
  split; [| split; [| split; [| split]]].
  - rewrite Hlo, filter_map_snd, filter_upto_enumerate, enumerate_from_snd.
    rewrite Z.sub_0_r. reflexivity.
  - rewrite Hhi, filter_map_snd, filter_from_enumerate.
    rewrite Z.sub_0_r. reflexivity.
  - intros r Hr.
    destruct (Z_le_gt_dec (fst r) m_train) as [Hle | Hgt].
    + left. apply filter_In. split; [exact Hr |].
      apply filter_In in Hr. destruct Hr as [Hr _]. destruct r as [j p].
      apply enumerate_from_label in Hr. cbn [fst] in *.
      apply andb_true_intro. split; apply Z.leb_le; lia.
    + right. apply filter_In. split; [exact Hr |].
      apply andb_true_intro. split; [apply Z.leb_le; lia | reflexivity].
  - intros r H1 H2. apply filter_In in H1, H2.
    destruct H1 as [_ H1]. destruct H2 as [_ H2].
    apply andb_prop in H1, H2. destruct H1 as [_ H1]. destruct H2 as [H2 _].
    apply Z.leb_le in H1, H2. lia.
  - intros p Hm Hn Hp.
    assert (Hin : In (m_train, p)
                     (filter (fun r => P (snd r)) (cells.enumerate_from 0 rows))).
    { apply filter_In. split.
      - replace m_train with (0 + Z.of_nat (Z.to_nat m_train))%Z at 1 by lia.
        apply enumerate_from_nth. exact Hn.
      - unfold P. cbn [snd]. apply Z.ltb_lt. exact Hp. }
    split; apply filter_In; (split; [exact Hin |]); cbn [fst];
      apply andb_true_intro; split; try reflexivity; apply Z.leb_le; lia.
Qed.

Lemma pair_ltb_lt (p q : Pair) : cells.pair_ltb p q = true <-> pair_lt p q.
Proof.
  unfold cells.pair_ltb, pair_lt.
  rewrite orb_true_iff, andb_true_iff, !Z.ltb_lt, Z.eqb_eq. reflexivity.
Qed.

Lemma insert_pair_In (x a : Pair) (l : list Pair) :
  In x (cells.insert_pair a l) <-> x = a \/ In x l.
Proof.
  induction l as [| y t IH]; cbn [cells.insert_pair].
  - cbn. intuition.
  - destruct (cells.pair_ltb a y); [cbn; intuition |].
    destruct (pair_eqb a y) eqn:He.
    + apply pair_eqb_eq in He. subst. cbn. intuition.
    + cbn [In]. rewrite IH. intuition.
Qed.

Lemma insert_pair_sorted (a : Pair) (l : list Pair) :
  StronglySorted pair_lt l -> StronglySorted pair_lt (cells.insert_pair a l).
Proof.
  induction l as [| y t IH]; intros Hs; cbn [cells.insert_pair].
  - constructor; constructor.
  - inversion Hs as [| ? ? Ht Hy]; subst.
    destruct (cells.pair_ltb a y) eqn:Hlt.
    + apply pair_ltb_lt in Hlt.
      constructor; [exact Hs |]. constructor; [exact Hlt |].
      eapply Forall_impl; [| exact Hy].
      intros z Hz. unfold pair_lt in *. lia.
    + destruct (pair_eqb a y) eqn:He; [exact Hs |].
      constructor; [apply IH; exact Ht |].
      apply Forall_forall. intros z Hz. apply insert_pair_In in Hz.
      destruct Hz as [-> | Hz].
      * assert (Hn : ~ pair_lt a y)
          by (intros H; apply pair_ltb_lt in H; congruence).
        assert (Hne : a <> y)
          by (intros H; apply pair_eqb_eq in H; congruence).
        unfold pair_lt in *. destruct a as [a1 a2], y as [y1 y2].
        cbn [fst snd] in *.
        destruct (Z.eq_dec a1 y1) as [-> | Hd];
          [destruct (Z.eq_dec a2 y2) as [-> | Hd2]; [congruence | lia] | lia].
      * rewrite Forall_forall in Hy. apply Hy, Hz.
Qed.

Lemma groupby_count_sorted (df : list Pair) :
  StronglySorted pair_lt (cells.groupby_count df).
Proof.
  induction df as [| e df IH]; cbn; [constructor |].
  apply insert_pair_sorted, IH.
Qed.

Lemma groupby_count_In (df : list Pair) (e : Pair) :
  In e (cells.groupby_count df) <-> In e df.
Proof.
  induction df as [| a df IH]; [reflexivity |].
  unfold cells.groupby_count in *. cbn [fold_right].
  rewrite insert_pair_In, IH. cbn. intuition.
Qed.

Lemma groupby_count_NoDup (df : list Pair) : NoDup (cells.groupby_count df).
Proof.
  pose proof (groupby_count_sorted df) as Hs.
  induction Hs as [| a l Hs IH Ha]; constructor; [| exact IH].
  intros Hin. rewrite Forall_forall in Ha. apply Ha in Hin.
  unfold pair_lt in Hin. lia.
Qed.

(** X17. The table handed to the simulator,
    [contact.groupby([source, target]).count().reset_index()] of the
    filtered log, lists each pair of the log with [source < target]
    exactly once, in increasing order; its rows are distinct with
    [source < target], and the graph built from it has exactly its
    rows as edges. *)
Theorem simulator_input_simple (rows : list Pair) :
  let edges := cells.groupby_count (map snd (cells.contact rows)) in
  (forall e, In e edges <-> In e rows /\ (fst e < snd e)%Z) /\
  StronglySorted pair_lt edges /\
  simple_table edges /\
  nx.edges (nx.from_pandas_edgelist edges) = edges.
Proof.
  intros edges.
  assert (Hin : forall e, In e edges <-> In e rows /\ (fst e < snd e)%Z).
  { intros e. unfold edges. rewrite groupby_count_In.
    unfold cells.contact, cells.read_csv.
    rewrite (filter_map_snd (fun p => (fst p <? snd p)%Z)).
    rewrite enumerate_from_snd, filter_In, Z.ltb_lt. reflexivity. }
  assert (Hs : simple_table edges).
  { split; [apply groupby_count_NoDup |].
    apply Forall_forall. intros e He. apply Hin in He. tauto. }
  split; [exact Hin |]. split; [apply groupby_count_sorted |].
  split; [exact Hs |]. apply from_pandas_edgelist_simple. exact Hs.
Qed.

(** ** The evaluation cells *)

Lemma get_col_Some_In (cols : list (String.string * list Q))
      (n : String.string) (v : list Q) :
  get_col cols n = Some v -> In n (map fst cols).
Proof.
  induction cols as [| [c w] t IH]; cbn [get_col map fst In];
    [discriminate |].
  destruct (String.eqb c n) eqn:Hc.
  - intros _. left. apply String.eqb_eq. exact Hc.
  - intros H. right. apply IH. exact H.
Qed.

Lemma select_cols_Ok_incl (cols : list (String.string * list Q))
      (names : list String.string) (X : list (list Q)) :
  select_cols cols names = Ok X ->
  incl names (map fst cols) /\ length X = length names.
Proof.
  revert X. induction names as [| n t IH]; intros X H; cbn [select_cols] in H.
  - inversion H. split; [intros x [] | reflexivity].
  - destruct (get_col cols n) as [v |] eqn:Hn; [| discriminate].
    bind_inv H. inversion H; subst. destruct (IH _ Hv) as [Hi Hl].
    split; [| cbn [length]; rewrite Hl; reflexivity].
    intros x [<- | Hx]; [eapply get_col_Some_In; exact Hn | apply Hi, Hx].
Qed.

Lemma select_cols_Raise (cols : list (String.string * list Q))
      (names : list String.string) (e : PyError) :
  select_cols cols names = Raise e -> e = KeyError.
Proof.
  induction names as [| n t IH]; cbn [select_cols]; [discriminate |].
  destruct (get_col cols n); [| intros H; inversion H; reflexivity].
  destruct (select_cols cols t); cbn [bind]; [discriminate |].
  intros H. inversion H; subst. apply IH. reflexivity.
Qed.

Section Evaluation.

Context {E : External}.

Lemma features_with_names (g : nx.Graph) (cd : Dict) (df : Frame)
      (t : FeatFrame) :
  features_with g cd df = Ok t ->
  forall n, In n (map fst (f_cols t)) <->
            In n (numeric_cols ++ map (combined_name cd) (keys df)).
Proof.
  intros H.
  assert (H1 : forall x, In x (source df ++ target df) -> In x (nx.nodes g)).
  { intros x Hx.
    destruct (in_dec Z.eq_dec x (nx.nodes g)) as [Hi | Hn]; [exact Hi |].
    destruct (features_with_missing g cd df x Hx (or_introl Hn)) as (e & He).
    rewrite He in H. discriminate. }
  assert (H2 : forall x, In x (source df ++ target df) ->
                         dict_get cd x <> None).
  { intros x Hx Hn.
    destruct (features_with_missing g cd df x Hx (or_intror Hn)) as (e & He).
    rewrite He in H. discriminate. }
  destruct (features_with_Ok g cd df H1 H2) as (feats & Hf & Hn).
  rewrite Hf in H. injection H as <-.
  intros n. rewrite Hn, in_app_iff. reflexivity.
Qed.

(** X18. The test table of the evaluation cell never lacks a node.
    The rows of [test] are restricted to pairs of nodes found among
    the training nodes, so when [louvain_communities(G_train)] has
    returned, [compute_features(add_negative_examples(test), G_train,
    comm_dict_train)] returns a table with the rows and labels of
    [add_negative_examples(test)]. *)
Theorem test_features_defined (rs rs' : RandomState) (train test : list Pair)
        (cd : Dict) (comms : list (list node)) :
  let G_train := nx.from_pandas_edgelist (cells.groupby_count train) in
  let test' :=
    cells.groupby_count (cells.found (cells.train_nodes train) test) in
  louvain_communities rs G_train = Ok (cd, comms) ->
  (exists e, In e test' /\ (fst e < snd e)%Z) ->
  (forall e, In e test' ->
             In (fst e) (nx.nodes G_train) /\ In (snd e) (nx.nodes G_train)) /\
  exists t,
    compute_features rs' (add_negative_examples test') (Some G_train) cd = Ok t /\
    f_keys t = keys (add_negative_examples test') /\
    f_link t = link (add_negative_examples test').
Proof.
  intros G_train test' Hl (e0 & He0 & _).
  assert (Hnodes : forall e, In e test' ->
                             In (fst e) (nx.nodes G_train) /\
                             In (snd e) (nx.nodes G_train)).
  { intros e He. unfold test' in He.
    apply (proj1 (groupby_count_In _ _)) in He.
    unfold cells.found in He. apply filter_In in He. destruct He as [_ He].
    apply andb_prop in He. destruct He as [H1 H2].
    apply existsb_eqb_In in H1, H2. unfold cells.train_nodes in H1, H2.
    apply (proj1 (np_unique_In _ _)) in H1.
    apply (proj1 (np_unique_In _ _)) in H2.
    assert (Hsame : forall v, In v (map fst train ++ map snd train) ->
                              In v (nx.nodes G_train)).
    { intros v Hv. unfold G_train. apply from_pandas_edgelist_nodes.
      rewrite in_app_iff in *.
      destruct Hv as [Hv | Hv]; apply in_map_iff in Hv;
        destruct Hv as (x & <- & Hx); [left | right];
        apply in_map, groupby_count_In; exact Hx. }
    split; apply Hsame; assumption. }
  split; [exact Hnodes |].
  assert (Hg : nx.nodes G_train <> []).
  { intros Hnil. destruct (Hnodes e0 He0) as [H _]. rewrite Hnil in H.
    destruct H. }
  unfold louvain_communities in Hl. bind_inv Hl. inversion Hl; subst v.
  assert (Hcd : cd <> []).
  { eapply dict_of_lists_nonempty; [exact Hv |]. right. exact Hg. }
  assert (Hcov : forall v, In v (nx.nodes G_train) -> dict_get cd v <> None).
  { intros v Hin. eapply dict_of_lists_covers; [exact Hv |]. left. exact Hin. }
  rewrite compute_features_supplied by assumption.
  assert (Hkeys : forall x,
             In x (source (add_negative_examples test')
                   ++ target (add_negative_examples test')) ->
             In x (nx.nodes G_train)).
  { intros x Hx. unfold source, target in Hx.
    destruct (add_negative_examples_frame test') as [Hk _].
    rewrite Hk in Hx. rewrite !map_map in Hx. apply in_app_iff in Hx.
    assert (Hu : In x (np_unique (map fst test' ++ map snd test'))).
    { destruct Hx as [Hx | Hx]; apply in_map_iff in Hx;
        destruct Hx as ([k l] & <- & Hin);
        apply labelled_rows_In in Hin; cbn [fst snd]; tauto. }
    apply (proj1 (np_unique_In _ _)) in Hu. apply in_app_iff in Hu.
    destruct Hu as [Hu | Hu]; apply in_map_iff in Hu;
      destruct Hu as (e & <- & He); apply Hnodes in He; tauto. }
  destruct (features_with_Ok G_train cd (add_negative_examples test'))
    as (t & Ht & _).
  - exact Hkeys.
  - intros x Hx. apply Hcov, Hkeys, Hx.
  - exists t. split; [exact Ht |]. eapply features_with_keys. exact Ht.
Qed.

(** X19. On a test table with at least one pair and for
    [feature_cols] that name no key, count or label column of the
    test table, [X_test = test[feature_cols]] goes through exactly
    when every name of [feature_cols] is one of the five numeric
    columns or the community combination of some pair of test
    nodes.  A combination seen only among the training pairs has no
    column in the test table, and the selection raises
    [KeyError]. *)
Theorem X_test_needs_known_columns (rs : RandomState) (test : list Pair)
        (G_train : nx.Graph) (cd : Dict) (feature_cols : list String.string)
        (t : FeatFrame) :
  cd <> [] ->
  keys (add_negative_examples test) <> [] ->
  (forall n, In n feature_cols -> ~ In n test_other_cols) ->
  compute_features rs (add_negative_examples test) (Some G_train) cd = Ok t ->
  let names :=
    numeric_cols
    ++ map (combined_name cd) (keys (add_negative_examples test)) in
  ((exists X, X_test rs test G_train cd feature_cols = Ok X /\
              length X = length feature_cols)
   <-> incl feature_cols names) /\
  (forall n, In n feature_cols -> ~ In n names ->
             X_test rs test G_train cd feature_cols = Raise KeyError).
Proof.
  intros Hcd _ _ Ht names.
  assert (Hnames : forall n, In n (map fst (f_cols t)) <-> In n names).
  { unfold compute_features in Ht. bind_inv Ht.
    destruct cd as [| kv cd']; [congruence |]. cbn [bind] in Ht.
    eapply features_with_names. exact Ht. }
  unfold X_test. rewrite Ht. cbn [bind]. split; [split |].
  - intros (X & HX & _). apply select_cols_Ok_incl in HX.
    destruct HX as [Hi _]. intros n Hn. apply Hnames, Hi, Hn.
  - intros Hi.
    destruct (select_cols_total (f_cols t) feature_cols) as (X & HX).
    + intros n Hn. apply Hnames, Hi, Hn.
    + exists X. split; [exact HX |].
      apply select_cols_Ok_incl in HX. tauto.
  - intros n Hn Hmiss.
    destruct (select_cols (f_cols t) feature_cols) as [X | e] eqn:HX.
    + exfalso. apply select_cols_Ok_incl in HX. destruct HX as [Hi _].
      apply Hmiss, Hnames, Hi, Hn.
    + apply select_cols_Raise in HX. subst. reflexivity.
Qed.

End Evaluation.

(** ** The training table and the candidate table *)

Lemma select_cols_skip (c : String.string * list Q)
      (cols : list (String.string * list Q)) (names : list String.string) :
  ~ In (fst c) names -> select_cols (c :: cols) names = select_cols cols names.
Proof.
  induction names as [| n t IH]; intros Hn; [reflexivity |].
  cbn [select_cols get_col]. destruct c as [c0 v0]. cbn [fst] in Hn.
  destruct (String.eqb c0 n) eqn:Hc.
  - apply String.eqb_eq in Hc. subst. exfalso. apply Hn. left. reflexivity.
  - rewrite IH; [reflexivity |]. intros H. apply Hn. right. exact H.
Qed.

Lemma select_cols_self (cols : list (String.string * list Q)) :
  NoDup (map fst cols) ->
  select_cols cols (map fst cols) = Ok (map snd cols).
Proof.
  induction cols as [| [c v] cols IH]; intros Hnd; [reflexivity |].
  cbn [map fst snd] in *. inversion Hnd as [| ? ? Hc Hnd']; subst.
  cbn [select_cols get_col]. rewrite String.eqb_refl.
  rewrite (select_cols_skip (c, v) cols (map fst cols) Hc).
  rewrite (IH Hnd'). reflexivity.
Qed.

Section Tables.

Context {E : External} {ES : ExternalSpec E}.

Lemma compute_features_kw_features_with (rs : RandomState) (df : Frame)
      (g : option nx.Graph) (cd : Dict) (kw : Kwargs) (t : FeatFrame) :
  compute_features_kw rs df g cd kw = Ok t ->
  exists g' cd', features_with g' cd' df = Ok t /\ (cd <> [] -> cd' = cd).
Proof.
  unfold compute_features_kw.
  destruct (existsb _ kw); [discriminate |].
  unfold compute_features. intros H. bind_inv H. bind_inv H.
  exists v, v0. split; [exact H |].
  intros Hcd. destruct cd as [| kv cd0]; [congruence |].
  inversion Hv0. reflexivity.
Qed.

Lemma features_with_NoDup (g : nx.Graph) (cd : Dict) (df : Frame)
      (t : FeatFrame) :
  features_with g cd df = Ok t -> NoDup (map fst (f_cols t)).
Proof.
  intros H.
  pose proof (features_with_names g cd df t H) as Hnames.
  unfold features_with in H.
  destruct (negb (forallb _ _)); [discriminate |].
  destruct (negb (forallb _ _)); [discriminate |].
  match type of H with
  | context [get_dummies ?c] => set (cc := c) in H
  end.
  injection H as <-. cbn [f_cols map fst app].
  assert (Hd : forall n, In n (map fst (get_dummies cc)) ->
                         exists r, n = String.append "C"%string r).
  { intros n Hn. apply (proj1 (get_dummies_names cc n)) in Hn.
    unfold cc in Hn. apply in_map_iff in Hn. destruct Hn as (k & <- & _).
    eexists. reflexivity. }
  pose proof (get_dummies_NoDup cc) as Hnd.
  repeat (constructor;
          [ let H := fresh in
            intros H; cbn [In] in H;
            repeat (destruct H as [H | H]; [discriminate H |]);
            try (apply Hd in H; destruct H as (r & H);
                 cbn [String.append] in H; discriminate H) |]).
  exact Hnd.
Qed.

(** X20. After [prep_data] the stored names are the columns of the
    stored table, all of them and each once: the table has the rows
    and labels of [add_negative_examples(edge_df)], its column names
    are pairwise distinct, and selecting [feature_cols] from it gives
    back every feature column in order; the edge table, the snapshot
    and the node list are untouched. *)
Theorem prep_data_table (rs : RandomState) (s s1 : State) :
  prep_data rs s = Ok s1 ->
  exists tbl,
    train_df s1 = Some tbl /\
    feature_cols s1 = Some (map fst (f_cols tbl)) /\
    f_keys tbl = keys (add_negative_examples (edge_df s)) /\
    f_link tbl = link (add_negative_examples (edge_df s)) /\
    NoDup (map fst (f_cols tbl)) /\
    select_cols (f_cols tbl) (map fst (f_cols tbl)) = Ok (map snd (f_cols tbl)) /\
    edge_df s1 = edge_df s /\ G s1 = G s /\ node_list s1 = node_list s.
Proof.
  intros H. unfold prep_data in H. bind_inv H. injection H as <-.
  exists v. cbn [train_df feature_cols edge_df G node_list].
  destruct (compute_features_kw_keys _ _ _ _ _ _ Hv) as [Hk Hl].
  destruct (compute_features_kw_features_with _ _ _ _ _ _ Hv)
    as (g' & cd' & Hf & _).
  pose proof (features_with_NoDup _ _ _ _ Hf) as Hnd.
  repeat split; try assumption.
  apply select_cols_self. exact Hnd.
Qed.

(** X21. Inside the simulator the candidate table never lacks a
    training column: the training pairs are pairs of the node list,
    so every community combination named in [feature_cols] occurs
    among the candidate pairs, and [pairs[self.feature_cols]] finds
    all its columns. *)
Theorem candidate_columns_cover_training (rs rs' : RandomState)
        (s s1 : State) (feats : FeatFrame) :
  reachable s ->
  prep_data rs s = Ok s1 ->
  compute_features rs' (mkFrame (ordered_pairs (node_list s)) None)
                   (Some (G s)) (comm_dict s) = Ok feats ->
  exists cols X,
    feature_cols s1 = Some cols /\
    incl cols (map fst (f_cols feats)) /\
    select_cols (f_cols feats) cols = Ok X /\
    length X = length cols.
Proof.
  intros Hreach Hp Hc.
  pose proof (reachable_well_formed s Hreach) as (_ & _ & Hends & Hne & _).
  assert (Hg : nx.nodes (G s) <> []).
  { intros Hnil. unfold compute_features in Hc. rewrite Hnil in Hc.
    discriminate. }
  assert (Hcd : comm_dict s <> []).
  { apply Hne. intros Hnil. destruct (nx.nodes (G s)) as [| v l] eqn:Hn;
      [congruence |].
    assert (Hin : In v (node_list s)).
    { apply (reachable_graph_nodes s Hreach). rewrite Hn. left. reflexivity. }
    rewrite Hnil in Hin. destruct Hin. }
  rewrite compute_features_supplied in Hc by assumption.
  pose proof (features_with_names _ _ _ _ Hc) as Hcand. cbn [keys] in Hcand.
  unfold prep_data in Hp. bind_inv Hp. injection Hp as <-.
  cbn [feature_cols].
  destruct (compute_features_kw_features_with _ _ _ _ _ _ Hv)
    as (g' & cd' & Hf & Hsame).
  rewrite (Hsame Hcd) in Hf.
  pose proof (features_with_names _ _ _ _ Hf) as Htrain.
  assert (Hincl : incl (map fst (f_cols v)) (map fst (f_cols feats))).
  { intros n Hn. apply Hcand. apply Htrain in Hn.
    apply in_app_iff in Hn. apply in_app_iff.
    destruct Hn as [Hn | Hn]; [left; exact Hn | right].
    apply in_map_iff in Hn. destruct Hn as (k & <- & Hk).
    apply in_map.
    apply (pairs_of_edges (edge_df s) (node_list s) Hends).
    destruct (add_negative_examples_frame (edge_df s)) as [Hkeys _].
    rewrite Hkeys in Hk. apply in_map_iff in Hk.
    destruct Hk as ([k0 l] & <- & Hin). cbn [fst].
    apply labelled_rows_In in Hin. destruct k0 as [a b]. cbn [fst snd] in Hin.
    apply ordered_pairs_In. tauto. }
  destruct (select_cols_total (f_cols feats) (map fst (f_cols v)) Hincl)
    as (X & HX).
  exists (map fst (f_cols v)), X. split; [reflexivity |].
  split; [exact Hincl |]. split; [exact HX |].
  apply select_cols_Ok_incl in HX. tauto.
Qed.

End Tables.

(** ** The share of positive examples *)

Lemma sumZ_indicator {A : Type} (f : A -> bool) (l : list A) :
  sumZ (map (fun k => if f k then 1%Z else 0%Z) l)
  = Z.of_nat (length (filter f l)).
Proof.
  induction l as [| a l IH]; [reflexivity |].
  cbn [map filter]. rewrite sumZ_cons, IH.
  destruct (f a); cbn [length]; lia.
Qed.

(** X22. On a non-empty table of distinct rows with
    [source < target], [train[link].mean()] after
    [add_negative_examples] is the number of rows of the table
    divided by the number [n (n - 1) / 2] of pairs of its [n] nodes;
    the table has at most that many rows. *)
Theorem link_mean_simple (df : list Pair) :
  simple_table df -> df <> [] ->
  let n := length (np_unique (map fst df ++ map snd df)) in
  link_mean (add_negative_examples df)
  = Ok (inject_Z (Z.of_nat (length df)) / inject_Z (Z.of_nat (choose2 n)))%Q /\
  0 < length df <= choose2 n.
Proof.
  intros [Hnd Hlt] Hne n.
  set (negative := ordered_pairs (np_unique (map fst df ++ map snd df))).
  assert (Hlen : length negative = choose2 n).
  { unfold negative, n. apply ordered_pairs_length, np_unique_sorted. }
  assert (Hperm : Permutation (filter (fun k => mem_pair k df) negative) df).
  { apply NoDup_Permutation.
    - apply NoDup_filter, ordered_pairs_NoDup, sorted_lt_NoDup, np_unique_sorted.
    - exact Hnd.
    - intros [a b]. rewrite filter_In, mem_pair_In. split; [tauto |].
      intros Hin. split; [| exact Hin].
      apply ordered_pairs_In. rewrite !np_unique_In, !in_app_iff.
      rewrite Forall_forall in Hlt. specialize (Hlt _ Hin). cbn in Hlt.
      repeat split; [left | right | exact Hlt].
      + apply (in_map fst) in Hin. exact Hin.
      + apply (in_map snd) in Hin. exact Hin. }
  assert (Hcount : length (filter (fun k => mem_pair k df) negative) = length df)
    by (apply Permutation_length, Hperm).
  split.
  - rewrite (add_negative_examples_NoDup df Hnd). cbv zeta. fold negative.
    unfold link_mean. cbn [link]. unfold np_mean.
    rewrite map_map, sumZ_indicator, !length_map, Hcount, Hlen. reflexivity.
  - split.
    + destruct df; [congruence | cbn [length]; lia].
    + rewrite <- Hcount, <- Hlen. apply filter_length_le.
Qed.

Lemma link_mean_simple_witness :
  link_mean (add_negative_examples path4) = Ok (3 # 6)%Q.
Proof.
  assert (Hne : path4 <> []) by discriminate.
  destruct (link_mean_simple path4 simple_path4 Hne) as [H _].
  exact H.
Defined.

(** ** The driver loop *)

Lemma sumZ_map_add {A : Type} (f g : A -> Z) (l : list A) :
  sumZ (map (fun x => (f x + g x)%Z) l) = (sumZ (map f l) + sumZ (map g l))%Z.
Proof.
  induction l as [| a l IH]; [reflexivity |].
  cbn [map]. rewrite !sumZ_cons, IH. lia.
Qed.

Lemma sumZ_one_hit (x : Z) (l : list Z) :
  NoDup l -> In x l ->
  sumZ (map (fun v => if (x =? v)%Z then 1%Z else 0%Z) l) = 1%Z.
Proof.
  intros Hnd Hin. rewrite sumZ_indicator.
  rewrite (filter_only (Z.eqb x) l x Hnd Hin (Z.eqb_refl x)); [reflexivity |].
  intros y _ Hy. apply Z.eqb_eq in Hy. congruence.
Qed.

(** Every edge counts once at each end. *)
Lemma degree_sum (ns0 ns : list node) (es : list Pair) :
  NoDup ns ->
  Forall (fun e => In (fst e) ns /\ In (snd e) ns) es ->
  sumZ (map (nx.degree (nx.mkGraph ns0 es)) ns)
  = (2 * Z.of_nat (length es))%Z.
Proof.
  intros Hnd. induction es as [| e es IH]; intros Hends.
  - unfold nx.degree. cbn [nx.edges fold_right length]. clear.
    induction ns as [| v ns IHn]; [reflexivity |].
    cbn [map]. rewrite sumZ_cons, IHn. reflexivity.
  - inversion Hends as [| ? ? [Hf Hs] Hends']; subst.
    specialize (IH Hends').
    assert (Hd : forall v,
               nx.degree (nx.mkGraph ns0 (e :: es)) v
               = ((if (fst e =? v)%Z then 1 else 0)
                  + ((if (snd e =? v)%Z then 1 else 0)
                     + nx.degree (nx.mkGraph ns0 es) v))%Z).
    { intros v. unfold nx.degree. cbn [nx.edges fold_right]. lia. }
    rewrite (map_ext _ _ Hd).
    rewrite (sumZ_map_add (fun v => if (fst e =? v)%Z then 1%Z else 0%Z)).
    rewrite (sumZ_map_add (fun v => if (snd e =? v)%Z then 1%Z else 0%Z)).
    rewrite IH, (sumZ_one_hit _ _ Hnd Hf), (sumZ_one_hit _ _ Hnd Hs).
    cbn [length]. lia.
Qed.

Section Driver.

Context {E : External} {ES : ExternalSpec E}.

Lemma degree_gini_bounds (s : State) :
  (0 < np_mean (map (nx.degree (G s)) (nx.nodes (G s))))%Q ->
  (0 <= degree_gini s)%Q /\ (degree_gini s < 1)%Q.
Proof.
  set (degs := map (nx.degree (G s)) (nx.nodes (G s))).
  set (diffs := map Z.abs (subtract_outer degs degs)).
  intros Hmean. destruct (np_mean_pos _ Hmean) as [Hn Hsum].
  assert (Hnn : Forall (fun y => (0 <= y)%Z) degs).
  { apply Forall_forall. intros y Hy. apply in_map_iff in Hy.
    destruct Hy as (v & <- & _). apply degree_nonneg. }
  pose proof (pairwise_abs_bound _ Hnn) as Hb.
  pose proof (sumZ_abs_nonneg (subtract_outer degs degs)) as H0.
  assert (Heq : (degree_gini s ==
                 inject_Z (sumZ diffs) /
                 inject_Z (2 * Z.of_nat (length degs) * sumZ degs))%Q).
  { change (degree_gini s) with ((1 # 2) * (np_mean diffs / np_mean degs))%Q.
    unfold np_mean.
    assert (Hlen : length diffs = length degs * length degs)
      by (unfold diffs; rewrite length_map; apply subtract_outer_length).
    rewrite Hlen, Nat2Z.inj_mul, !inject_Z_mult.
    pose proof (inject_Z_nonzero _ Hn) as Hn'.
    pose proof (inject_Z_nonzero _ Hsum) as Hs'.
    field. auto. }
  assert (Hden : (0 < inject_Z (2 * Z.of_nat (length degs) * sumZ degs))%Q)
    by (apply inject_Z_pos; nia).
  split; rewrite Heq.
  - apply Qle_shift_div_l; [exact Hden |].
    rewrite Qmult_0_l. apply inject_Z_nonneg. exact H0.
  - apply Qlt_shift_div_r; [exact Hden |].
    rewrite Qmult_1_l, <- Zlt_Qlt. fold diffs in Hb. lia.
Qed.

Lemma run_app (calls1 calls2 : list (RandomState * Z * bool)) (s0 : State) :
  run s0 (calls1 ++ calls2) = (s <- run s0 calls1 ;; run s calls2).
Proof.
  revert s0. induction calls1 as [| [[rs r] t] rest IH]; intros s0;
    [reflexivity |].
  cbn [app run]. destruct (step rs s0 r t) as [s1 | e]; cbn [bind];
    [apply IH | reflexivity].
Qed.

Lemma reachable_step (rs : RandomState) (s s' : State) (r : Z) (train : bool) :
  reachable s -> step rs s r train = Ok s' -> reachable s'.
Proof.
  intros (rs0 & edges & kw & s0 & calls & Hi & Hr) H.
  exists rs0, edges, kw, s0, (calls ++ [(rs, r, train)]).
  split; [exact Hi |]. rewrite run_app, Hr. cbn [bind run]. rewrite H.
  reflexivity.
Qed.

Lemma reachable_graph_NoDup (s : State) :
  reachable s -> NoDup (nx.nodes (G s)).
Proof.
  intros (rs0 & edges & kw & s0 & calls & Hi & Hr).
  apply (run_invariant (fun s => NoDup (nx.nodes (G s))))
    with (calls := calls) (s0 := s0).
  - intros rs x r train x' _ Hstep. apply step_Ok in Hstep.
    destruct Hstep as (s1 & s2 & kept & new_edges & _ & _ & _ & _ & _
                       & _ & HG & _).
    rewrite HG. apply add_nodes_from_NoDup, from_pandas_edgelist_NoDup.
  - apply init_Ok in Hi. destruct Hi as (_ & HG0 & _).
    rewrite HG0. apply from_pandas_edgelist_NoDup.
  - exact Hr.
Qed.

Lemma simple_step_facts (rs : RandomState) (s s' : State) (r : Z)
      (train : bool) :
  reachable s -> simple_table (edge_df s) ->
  step rs s r train = Ok s' ->
  reachable s' /\ simple_table (edge_df s') /\
  nx.edges (G s') = edge_df s' /\
  length (edge_df s') = length (edge_df s) /\
  (0 <= r <= Z.of_nat (length (edge_df s)))%Z.
Proof.
  intros Hreach Hs H.
  pose proof (reachable_well_formed s Hreach) as Hwf.
  assert (Hnd : NoDup (node_list s)) by (destruct Hwf; assumption).
  assert (Hr : (0 <= r <= Z.of_nat (length (edge_df s)))%Z).
  { destruct (step_Ok _ _ _ _ _ H)
      as (s1 & s2 & kept & new_edges & _ & _ & Hk & _).
    apply sample_spec in Hk. lia. }
  split; [eapply reachable_step; eassumption |].
  split; [eapply step_simple; eassumption |].
  split; [eapply step_graph_edges; eassumption |].
  split; [| exact Hr].
  destruct (successful_step_edge_count rs s s' r train Hreach Hr) as
    (kept & dropped & new_edges & _ & _ & _ & _ & _ & Hlen & _).
  - intros kept Hk. eapply simple_step_enough_candidates; eassumption.
  - exact H.
  - exact Hlen.
Qed.

Lemma mean_degree_pos (s : State) :
  reachable s -> nx.edges (G s) = edge_df s -> edge_df s <> [] ->
  (0 < np_mean (map (nx.degree (G s)) (nx.nodes (G s))))%Q.
Proof.
  intros Hreach He Hne.
  pose proof (reachable_well_formed s Hreach) as (_ & Hincl & Hends & _).
  pose proof (reachable_graph_NoDup s Hreach) as Hnd.
  assert (Hsum : sumZ (map (nx.degree (G s)) (nx.nodes (G s)))
                 = (2 * Z.of_nat (length (edge_df s)))%Z).
  { rewrite <- He. destruct (G s) as [ns es]. cbn [nx.nodes nx.edges] in *.
    apply degree_sum; [exact Hnd |].
    subst es. eapply Forall_impl; [| exact Hends].
    intros e [H1 H2]. split; apply Hincl; assumption. }
  assert (Hm : 0 < length (edge_df s))
    by (destruct (edge_df s); [congruence | cbn; lia]).
  assert (Hn : 0 < length (nx.nodes (G s))).
  { destruct (edge_df s) as [| e t]; [congruence |].
    inversion Hends as [| ? ? [H1 _] _]; subst. apply Hincl in H1.
    destruct (nx.nodes (G s)); [destruct H1 | cbn; lia]. }
  unfold np_mean. rewrite Hsum, length_map.
  apply Qlt_shift_div_l; [apply inject_Z_pos; lia |].
  rewrite Qmult_0_l. apply inject_Z_pos. lia.
Qed.

Lemma driver_loop_records (edges : list Pair) (rss : list RandomState)
      (s s' : State) (Q0 gini0 Q1 gini1 : list Q) :
  reachable s -> simple_table (edge_df s) ->
  nx.edges (G s) = edge_df s ->
  length (edge_df s) = length edges ->
  Forall (fun g => (0 <= g)%Q /\ (g < 1)%Q) gini0 ->
  driver_loop s rss Q0 gini0 = Ok (s', Q1, gini1) ->
  reachable s' /\ simple_table (edge_df s') /\
  nx.edges (G s') = edge_df s' /\
  length (edge_df s') = length edges /\
  length Q1 = length Q0 + length rss /\
  length gini1 = length gini0 + length rss /\
  (rss <> [] -> 100 <= length edges) /\
  Forall (fun g => (0 <= g)%Q /\ (g < 1)%Q) gini1.
Proof.
  revert s Q0 gini0.
  induction rss as [| rs rest IH]; intros s Q0 gini0 Hreach Hs He Hl Hg H.
  - cbn [driver_loop] in H. injection H as <- <- <-.
    rewrite !Nat.add_0_r. repeat split; try assumption.
    + destruct Hs; assumption.
    + destruct Hs; assumption.
    + congruence.
  - cbn [driver_loop] in H. bind_inv H. bind_inv H.
    destruct (simple_step_facts rs s v 100%Z true Hreach Hs Hv)
      as (Hreach' & Hs' & He' & Hl' & Hr).
    assert (H100 : 100 <= length edges) by lia.
    assert (Hne : edge_df v <> []).
    { intros Hnil. rewrite Hnil in Hl'. cbn in Hl'. lia. }
    pose proof (degree_gini_bounds v (mean_degree_pos v Hreach' He' Hne))
      as Hb.
    destruct (IH v (Q0 ++ [v0]) (gini0 ++ [degree_gini v])) as
      (H1 & H2 & H3 & H4 & H5 & H6 & _ & H8); try assumption.
    + congruence.
    + apply Forall_app. split; [exact Hg |]. constructor; [exact Hb |].
      constructor.
    + rewrite length_app in H5, H6. cbn [length] in *.
      repeat split; try assumption; try lia.
      * destruct H2; assumption.
      * destruct H2; assumption.
Qed.

(** X23. The simulation of the driver cell on a table of distinct
    rows with [source < target] (simulator built without keyword
    arguments): when it returns, [Q] and [gini] hold one value per
    round, the edge table has as many rows as at the start and the
    snapshot as many edges; if there was a round at all the table has
    at least 100 rows; and every recorded Gini value lies in
    [0, 1). *)
Theorem driver_records (rs rs0 : RandomState) (edges : list Pair)
        (s0 s : State) (rss : list RandomState) (Q' gini : list Q) :
  simple_table edges ->
  init rs edges [] = Ok s0 ->
  driver rs0 s0 rss = Ok (s, Q', gini) ->
  length Q' = length rss /\ length gini = length rss /\
  length (edge_df s) = length edges /\
  nx.number_of_edges (G s) = length edges /\
  (rss <> [] -> 100 <= length edges) /\
  Forall (fun g => (0 <= g)%Q /\ (g < 1)%Q) gini.
Proof.
  intros Hs Hi H. unfold driver in H. bind_inv H.
  assert (Hreach : reachable s0).
  { exists rs, edges, [], s0, []. split; [exact Hi | reflexivity]. }
  destruct (init_Ok _ _ _ _ Hi) as (Hdf & _).
  rewrite <- Hdf in Hs.
  destruct (simple_step_facts rs0 s0 v 0%Z true Hreach Hs Hv)
    as (Hreach' & Hs' & He' & Hl' & _).
  rewrite Hdf in Hl'.
  destruct (driver_loop_records edges rss v s [] [] Q' gini
              Hreach' Hs' He' Hl' (Forall_nil _) H)
    as (_ & _ & H3 & H4 & H5 & H6 & H7 & H8).
  cbn [length] in H5, H6. unfold nx.number_of_edges. rewrite H3.
  repeat split; assumption.
Qed.

(** X24. [update_edges] on its own changes the edge table and
    nothing else: the snapshot [self.G] is left as it was (only
    [step] rebuilds it), and so are the node list, the training table
    and the model.  The new table is a part of the old one, short of
    [m_replace] rows, followed by the predicted pairs, which are
    non-edges of the kept part over the node list. *)
Theorem update_edges_frame (rs : RandomState) (s s' : State) (r : Z) :
  update_edges rs s r = Ok s' ->
  G s' = G s /\ node_list s' = node_list s /\
  train_df s' = train_df s /\ model s' = model s /\
  exists kept dropped new_edges,
    edge_df s' = kept ++ new_edges /\
    Permutation (kept ++ dropped) (edge_df s) /\
    length dropped = Z.to_nat r /\
    incl new_edges (available (with_edge_df s kept)) /\
    length new_edges
    = Nat.min (Z.to_nat r) (length (available (with_edge_df s kept))).
Proof.
  intros H. apply update_edges_Ok in H.
  destruct H as (kept & new_edges & Hk & Hn & ->).
  cbn [with_edge_df G node_list train_df model edge_df].
  repeat split.
  pose proof (sample_spec _ _ _ _ Hk) as (Hr & Hlen & dropped & Hperm).
  destruct (predicted_in_universe _ _ _ _ Hn) as (Hincl & _ & Hcount).
  exists kept, dropped, new_edges.
  split; [reflexivity |]. split; [exact Hperm |]. split; [| split].
  - apply Permutation_length in Hperm. rewrite length_app in Hperm. lia.
  - exact Hincl.
  - apply Hcount. lia.
Qed.

End Driver.

(** ** The properties above on small tables *)

Lemma louvain_communities_partition_witness :
  exists comm_dict,
    louvain_communities (E := toy) 0 (nx.from_pandas_edgelist path4)
    = Ok (comm_dict, [[1; 2; 3; 4]%Z]) /\
    dict_get comm_dict 3%Z = Some 0.
Proof.
  set (g := nx.from_pandas_edgelist path4).
  assert (Hpart : forall v, In v (nx.nodes g) ->
             exists l, l < length (@nx_louvain_communities toy 0 g) /\
                       In v (nth l (@nx_louvain_communities toy 0 g) []) /\
                       forall l', l' < length (@nx_louvain_communities toy 0 g) ->
                                  In v (nth l' (@nx_louvain_communities toy 0 g) []) ->
                                  l' = l).
  { intros v Hv. exists 0. split; [cbn; lia |]. split; [exact Hv |].
    intros l' Hl' _. cbn in Hl'. lia. }
  destruct (@louvain_communities_partition toy 0 g Hpart) as (cd & H1 & H2).
  exists cd. split; [exact H1 |].
  apply H2. cbn. repeat split; auto 10.
Defined.

Lemma graph_nodes_fixed_witness :
  let s0 := started toy 0 path4 in
  let s := @after toy s0 [(1, 1%Z, true); (2, 1%Z, false)] in
  NoDup (nx.nodes (G s)) /\ length (nx.nodes (G s)) = 4.
Proof.
  intros s0 s.
  assert (Hi : init (E := toy) 0 path4 [] = Ok s0) by reflexivity.
  assert (Hr : run s0 [(1, 1%Z, true); (2, 1%Z, false)] = Ok s)
    by (vm_compute; reflexivity).
  destruct (@graph_nodes_fixed toy toy_spec 0 path4 [] s0 s _ Hi Hr)
    as (H1 & _ & H3 & _).
  split; [exact H1 | exact H3].
Defined.

Lemma louvain_plot_reachable_witness :
  let s := @after toy (started toy 0 path4) [(1, 1%Z, true)] in
  exists labels,
    louvain_plot (E := toy) 0 (G s) (comm_dict s) = Ok labels /\
    length labels = 4.
Proof.
  intros s.
  assert (Hreach : reachable s).
  { exists 0, path4, [], (started toy 0 path4), [(1, 1%Z, true)].
    split; [reflexivity | vm_compute; reflexivity]. }
  destruct (@louvain_plot_reachable toy toy_spec 0 s Hreach)
    as (labels & H1 & H2 & _).
  exists labels. split; [exact H1 | exact H2].
Defined.

Lemma compute_features_missing_node_witness :
  exists e,
    compute_features (E := toy) 0 (mkFrame [(1, 5)%Z] None)
                     (Some (nx.from_pandas_edgelist path4)) [(1%Z, 0)]
    = Raise e.
Proof.
  assert (Hx : In 5%Z (source (mkFrame [(1, 5)%Z] None)
                       ++ target (mkFrame [(1, 5)%Z] None)))
    by (cbn; auto).
  destruct (@compute_features_missing_node toy 0 (mkFrame [(1, 5)%Z] None)
              (nx.from_pandas_edgelist path4) [(1%Z, 0)] 5%Z Hx) as [H _].
  apply H.
  - cbn. discriminate.
  - cbn. intros Hin. intuition discriminate.
Defined.

Lemma compute_features_columns_witness :
  exists t,
    compute_features (E := toy) 0 (mkFrame [(1, 2); (1, 3)]%Z None)
                     (Some (nx.from_pandas_edgelist path4))
                     [(1%Z, 0); (2%Z, 0); (3%Z, 1); (4%Z, 1)]
    = Ok t /\
    firstn 5 (map fst (f_cols t)) = numeric_cols /\
    NoDup (map fst (f_cols t)).
Proof.
  set (df := mkFrame [(1, 2); (1, 3)]%Z None).
  set (g := nx.from_pandas_edgelist path4).
  set (cd := [(1%Z, 0); (2%Z, 0); (3%Z, 1); (4%Z, 1)]).
  assert (Hg : nx.nodes g <> []) by (cbn; discriminate).
  assert (Hcd : cd <> []) by discriminate.
  assert (Hk : keys df <> []) by discriminate.
  assert (Hall : forall x, In x (source df ++ target df) ->
                           In x (nx.nodes g) /\ dict_get cd x <> None).
  { intros x Hx. cbn in Hx.
    repeat (destruct Hx as [<- | Hx]; [split; [cbn; auto 10 | discriminate] |]).
    destruct Hx. }
  destruct (@compute_features_columns toy 0 df g cd Hg Hcd Hk Hall)
    as (t & H1 & _ & _ & H4 & H5 & _).
  exists t. split; [exact H1 |]. split; [exact H4 | exact H5].
Defined.

Lemma add_negative_examples_any_table_witness :
  In ((1, 2)%Z, false)
     (labelled_rows (add_negative_examples [(2, 1); (1, 3); (1, 3)]%Z)).
Proof.
  assert (Hne : [(2, 1); (1, 3); (1, 3)]%Z <> []) by discriminate.
  destruct (add_negative_examples_any_table [(2, 1); (1, 3); (1, 3)]%Z Hne)
    as (_ & _ & _ & _ & H).
  apply H.
  - left. reflexivity.
  - lia.
  - cbn. intuition discriminate.
Defined.

Lemma methods_out_of_order_witness :
  let s0 := started toy 0 path4 in
  train_model (E := toy) 0 s0 = Raise AttributeError /\
  get_predicted_edges (E := toy) 0 s0 1 = Raise AttributeError.
Proof.
  intros s0.
  assert (Hi : init (E := toy) 0 path4 [] = Ok s0) by reflexivity.
  assert (He : exists e : Z * Z, In e path4 /\ fst e <> snd e).
  { exists (1, 2)%Z. split; [left; reflexivity | cbn; lia]. }
  destruct (@methods_out_of_order toy 0 path4 s0 Hi He 0 1%Z)
    as (H1 & H2 & _).
  split; [exact H1 | exact H2].
Defined.

Lemma prep_data_no_forward_row_witness :
  exists e, prep_data (E := toy) 0 (started toy 0 [(2, 1)%Z]) = Raise e.
Proof.
  set (s := started toy 0 [(2, 1)%Z]).
  assert (Hkw : kwargs s = []) by reflexivity.
  assert (Hback : forall e, In e (edge_df s) -> (snd e <= fst e)%Z).
  { intros e He. cbn in He. destruct He as [<- | []]. cbn. lia. }
  assert (Ha : In 1%Z (map fst (edge_df s) ++ map snd (edge_df s)))
    by (cbn; auto).
  assert (Hb : In 2%Z (map fst (edge_df s) ++ map snd (edge_df s)))
    by (cbn; auto).
  assert (Hab : (1 < 2)%Z) by lia.
  exact (@prep_data_no_forward_row toy 0 s 1%Z 2%Z Hkw Hback Ha Hb Hab).
Defined.

Lemma update_edges_out_of_range_witness :
  update_edges (E := toy) 0 (started toy 0 path4) 5 = Raise ValueError.
Proof.
  set (s := started toy 0 path4).
  assert (Hr : (5 < 0)%Z \/ (Z.of_nat (length (edge_df s)) < 5)%Z)
    by (right; cbn; lia).
  destruct (@update_edges_out_of_range toy 0 s 5%Z Hr) as [H _].
  exact H.
Defined.

Lemma get_predicted_edges_fresh_witness :
  let s := @after toy (started toy 0 path4) [(1, 1%Z, true)] in
  exists new_edges,
    get_predicted_edges (E := toy) 0 s 2 = Ok new_edges /\
    NoDup new_edges /\ length new_edges = 2.
Proof.
  intros s.
  set (new_edges := match get_predicted_edges (E := toy) 0 s 2 with
                    | Ok l => l
                    | Raise _ => []
                    end).
  assert (H : get_predicted_edges (E := toy) 0 s 2 = Ok new_edges)
    by (vm_compute; reflexivity).
  assert (Hnd : NoDup (node_list s)).
  { vm_compute. repeat constructor; cbn; intuition discriminate. }
  destruct (@get_predicted_edges_fresh toy toy_spec 0 s 2%Z new_edges H Hnd)
    as (H1 & _ & H3 & _).
  exists new_edges. split; [exact H |]. split; [exact H1 |].
  rewrite H3 by lia. vm_compute. reflexivity.
Defined.

Lemma step_zero_shuffles_witness :
  let s := started toy 0 path4 in
  let s' := @after toy s [(1, 0%Z, true)] in
  Permutation (edge_df s') path4.
Proof.
  intros s s'.
  assert (H : step (E := toy) 1 s 0 true = Ok s') by (vm_compute; reflexivity).
  destruct (@step_zero_shuffles toy toy_spec 1 s s' true H) as [Hp _].
  exact Hp.
Defined.

Lemma kwargs_block_steps_witness :
  let s0 := match init (E := toy) 0 path4 [("G"%string, None)] with
            | Ok s => s
            | Raise _ => started toy 0 path4
            end in
  get_predicted_edges (E := toy) 0 s0 1 = Raise TypeError.
Proof.
  intros s0.
  assert (Hi : init (E := toy) 0 path4 [("G"%string, None)] = Ok s0)
    by reflexivity.
  assert (Hkw : [("G"%string, @None nx.Graph)] <> []) by discriminate.
  destruct (@kwargs_block_steps toy 0 path4 _ s0 Hi Hkw) as (H & _).
  exact (H 0 1%Z).
Defined.

Lemma step_returns_only_if_witness :
  let s := started toy 0 path4 in
  let s' := @after toy s [(0, 1%Z, true)] in
  kwargs s = [] /\ model s' <> None.
Proof.
  intros s s'.
  assert (H : step (E := toy) 0 s 1 true = Ok s') by (vm_compute; reflexivity).
  destruct (@step_returns_only_if toy toy_spec 0 s s' 1%Z true H)
    as (H1 & _ & _ & _ & H5).
  split; [exact H1 | exact H5].
Defined.

Lemma degree_gini_zero_iff_regular_witness :
  let s := started toy 0 triangle in
  (degree_gini s == 0)%Q.
Proof.
  intros s.
  assert (Hmean : (0 < np_mean (map (nx.degree (G s)) (nx.nodes (G s))))%Q)
    by (vm_compute; reflexivity).
  apply (@degree_gini_zero_iff_regular toy s Hmean).
  intros u v Hu Hv. cbn in Hu, Hv.
  repeat (destruct Hu as [<- | Hu]);
    repeat (destruct Hv as [<- | Hv]);
    try reflexivity; contradiction.
Defined.

Lemma test_features_defined_witness :
  exists t,
    compute_features (E := toy) 0
      (add_negative_examples [(1, 2); (2, 4)]%Z)
      (Some (nx.from_pandas_edgelist path4))
      [(1%Z, 0); (2%Z, 0); (3%Z, 0); (4%Z, 0)]
    = Ok t.
Proof.
  assert (Hl : louvain_communities (E := toy) 0
                 (nx.from_pandas_edgelist (cells.groupby_count path4))
               = Ok ([(1%Z, 0); (2%Z, 0); (3%Z, 0); (4%Z, 0)],
                     [[1; 2; 3; 4]%Z]))
    by reflexivity.
  assert (He : exists e,
             In e (cells.groupby_count
                     (cells.found (cells.train_nodes path4)
                                  [(1, 2); (2, 4); (5, 6)]%Z)) /\
             (fst e < snd e)%Z).
  { exists (1, 2)%Z. split; [left; reflexivity | cbn; lia]. }
  destruct (@test_features_defined toy 0 0 path4 [(1, 2); (2, 4); (5, 6)]%Z
              _ _ Hl He) as (_ & t & Ht & _).
  exists t. exact Ht.
Defined.

Lemma X_test_needs_known_columns_witness :
  X_test (E := toy) 0 [(1, 2)%Z]
         (nx.from_pandas_edgelist [(1, 2); (2, 3)]%Z)
         [(1%Z, 0); (2%Z, 0); (3%Z, 1)]
         (numeric_cols ++ ["C00"; "C01"]%string)
  = Raise KeyError.
Proof.
  set (g := nx.from_pandas_edgelist [(1, 2); (2, 3)]%Z).
  set (cd := [(1%Z, 0); (2%Z, 0); (3%Z, 1)]).
  set (t := match compute_features (E := toy) 0
                    (add_negative_examples [(1, 2)%Z]) (Some g) cd with
            | Ok t => t
            | Raise _ => mkFeatFrame [] None []
            end).
  assert (Hcd : cd <> []) by discriminate.
  assert (Hk : keys (add_negative_examples [(1, 2)%Z]) <> [])
    by (cbn; discriminate).
  assert (Ht : compute_features (E := toy) 0
                 (add_negative_examples [(1, 2)%Z]) (Some g) cd = Ok t)
    by reflexivity.
  assert (Ho : forall n, In n (numeric_cols ++ ["C00"; "C01"]%string) ->
                         ~ In n test_other_cols).
  { intros n Hn Hin. cbn in Hn, Hin.
    repeat (destruct Hn as [<- | Hn];
            [repeat (destruct Hin as [Hin | Hin]; [discriminate Hin |]);
             exact Hin |]).
    exact Hn. }
  destruct (@X_test_needs_known_columns toy 0 [(1, 2)%Z] g cd
              (numeric_cols ++ ["C00"; "C01"]%string) t Hcd Hk Ho Ht)
    as [_ H].
  apply (H "C01"%string).
  - cbn. auto 10.
  - cbn. intuition discriminate.
Defined.

Lemma prep_data_table_witness :
  let s := started toy 0 path4 in
  exists tbl,
    train_df (@prepared toy 0 s) = Some tbl /\
    NoDup (map fst (f_cols tbl)).
Proof.
  intros s.
  assert (H : prep_data (E := toy) 0 s = Ok (@prepared toy 0 s))
    by (vm_compute; reflexivity).
  destruct (@prep_data_table toy 0 s _ H) as (tbl & H1 & _ & _ & _ & H5 & _).
  exists tbl. split; [exact H1 | exact H5].
Defined.

Lemma candidate_columns_cover_training_witness :
  let s := started toy 0 path4 in
  exists cols, feature_cols (@prepared toy 0 s) = Some cols.
Proof.
  intros s.
  assert (Hreach : reachable s).
  { exists 0, path4, [], s, []. split; reflexivity. }
  assert (H : prep_data (E := toy) 0 s = Ok (@prepared toy 0 s))
    by (vm_compute; reflexivity).
  set (feats := match compute_features (E := toy) 0
                        (mkFrame (ordered_pairs (node_list s)) None)
                        (Some (G s)) (comm_dict s) with
                | Ok t => t
                | Raise _ => mkFeatFrame [] None []
                end).
  assert (Hc : compute_features (E := toy) 0
                 (mkFrame (ordered_pairs (node_list s)) None)
                 (Some (G s)) (comm_dict s) = Ok feats)
    by (vm_compute; reflexivity).
  destruct (@candidate_columns_cover_training toy toy_spec 0 0 s _ feats
              Hreach H Hc) as (cols & X & H1 & _).
  exists cols. exact H1.
Defined.

Lemma simple_dense15 : simple_table dense15.
Proof.
  assert (Hnd : NoDup (map Z.of_nat (seq 1 15))).
  { apply Finite.Injective_map_NoDup; [| apply seq_NoDup].
    intros x y H. apply Nat2Z.inj. exact H. }
  split.
  - apply firstn_NoDup, ordered_pairs_NoDup, Hnd.
  - apply Forall_forall. intros e He. apply firstn_incl in He.
    pose proof (ordered_pairs_lt (map Z.of_nat (seq 1 15))) as Hlt.
    rewrite Forall_forall in Hlt. apply Hlt, He.
Qed.

Lemma driver_records_witness :
  let s0 := started toy 0 dense15 in
  exists s Q' gini,
    driver (E := toy) 0 s0 [1] = Ok (s, Q', gini) /\
    length gini = 1 /\
    Forall (fun g => (0 <= g)%Q /\ (g < 1)%Q) gini.
Proof.
  intros s0.
  assert (Hi : init (E := toy) 0 dense15 [] = Ok s0)
    by (vm_compute; reflexivity).
  set (out := match driver (E := toy) 0 s0 [1] with
              | Ok x => x
              | Raise _ => (s0, [], [])
              end).
  assert (H : driver (E := toy) 0 s0 [1] = Ok (fst (fst out), snd (fst out), snd out))
    by (vm_compute; reflexivity).
  destruct (@driver_records toy toy_spec 0 0 dense15 s0 _ [1] _ _
              simple_dense15 Hi H) as (_ & H2 & _ & _ & _ & H6).
  exists (fst (fst out)), (snd (fst out)), (snd out).
  split; [exact H |]. split; [exact H2 | exact H6].
Defined.

Lemma update_edges_frame_witness :
  let s := @after toy (started toy 0 path4) [(1, 1%Z, true)] in
  exists s', update_edges (E := toy) 0 s 1 = Ok s' /\ G s' = G s.
Proof.
  intros s.
  set (s' := match update_edges (E := toy) 0 s 1 with
             | Ok x => x
             | Raise _ => s
             end).
  assert (H : update_edges (E := toy) 0 s 1 = Ok s')
    by (vm_compute; reflexivity).
  destruct (@update_edges_frame toy toy_spec 0 s s' 1%Z H) as (HG & _).
  exists s'. split; [exact H | exact HG].
Defined.

(** C2 fails on the code without the condition on the rows.  The
    table [two_way] holds nodes 1 and 2 joined in both orientations:
    three rows, two edges in the graph.  A step with removal count
    [1] drops the row [(2, 1)] and appends the one candidate
    [(2, 3)]: the table still has three rows, the graph now has
    three edges. *)
Lemma step_preserves_edge_count_counterexample :
  let s := started toy 0 two_way in
  let s' := @after toy s [(2, 1%Z, true)] in
  init (E := toy) 0 two_way [] = Ok s /\
  (0 <= 1 <= Z.of_nat (length (edge_df s)))%Z /\
  sample (E := toy) 2 (edge_df s) (Z.of_nat (length (edge_df s)) - 1)
    = Ok [(1, 3); (1, 2)]%Z /\
  available (with_edge_df s [(1, 3); (1, 2)]%Z) = [(2, 3)]%Z /\
  step (E := toy) 2 s 1 true = Ok s' /\
  edge_df s' = [(1, 3); (1, 2); (2, 3)]%Z /\
  nx.number_of_edges (G s) = 2 /\
  nx.number_of_edges (G s') = 3.
Proof.
  repeat split; try (vm_compute; reflexivity); vm_compute; congruence.
Qed.

(** ** The candidate table of a pass *)

Section PassTables.

Context {E : External} {ES : ExternalSpec E}.

(** The table [compute_features] returns, column by column. *)
Lemma features_with_table (g : nx.Graph) (cd : Dict) (df : Frame)
      (t : FeatFrame) :
  features_with g cd df = Ok t ->
  t = mkFeatFrame (keys df) (link df)
        ([("deg_source"%string,
           map (fun x => inject_Z (nx.degree g x)) (map fst (keys df)));
          ("deg_target"%string,
           map (fun x => inject_Z (nx.degree g x)) (map snd (keys df)));
          ("pr_source"%string, map (nx_pagerank_numpy g) (map fst (keys df)));
          ("pr_target"%string, map (nx_pagerank_numpy g) (map snd (keys df)));
          ("common_neighbors"%string,
           map (fun pair =>
                  inject_Z (Z.of_nat
                    (length (nx.common_neighbors g (fst pair) (snd pair)))))
               (keys df))]
         ++ get_dummies (map (combined_name cd) (keys df))).
Proof.
  unfold features_with.
  destruct (negb (forallb _ _)); [discriminate |].
  destruct (negb (forallb _ _)); [discriminate |].
  unfold source, target.
  intros H. inversion H. clear. do 3 f_equal.
  rewrite !map_map, combine_map_both, map_map. reflexivity.
Qed.

(** The attributes [prep_data] and [train_model] set, for a simulator
    without keyword arguments. *)
Lemma trained_attrs (rs : RandomState) (s s1 s2 : State) :
  kwargs s = [] ->
  prep_data rs s = Ok s1 ->
  train_model rs s1 = Ok s2 ->
  exists tbl y m,
    compute_features rs (add_negative_examples (edge_df s)) None (comm_dict s)
      = Ok tbl /\
    train_df s2 = Some tbl /\
    feature_cols s2 = Some (map fst (f_cols tbl)) /\
    f_link tbl = Some y /\
    m = liblinear_train rs (rows_of (length (f_keys tbl))
                                    (map snd (f_cols tbl))) y /\
    model s2 = Some m.
Proof.
  intros Hkw H1 H2.
  unfold prep_data in H1. rewrite Hkw in H1.
  apply bind_Ok in H1. destruct H1 as (tbl & Ht & H1).
  inversion H1; subst s1; clear H1.
  assert (Hnd : NoDup (map fst (f_cols tbl))).
  { destruct (compute_features_kw_features_with _ _ _ _ _ _ Ht)
      as (g' & cd' & Hf & _).
    apply (features_with_NoDup _ _ _ _ Hf). }
  rewrite compute_features_kw_nil in Ht.
  unfold train_model in H2.
  cbn [train_df feature_cols attr bind] in H2.
  rewrite (select_cols_self _ Hnd) in H2. cbn [bind] in H2.
  destruct (f_link tbl) as [y |] eqn:Hy; [| discriminate].
  cbn [bind] in H2.
  apply bind_Ok in H2. destruct H2 as (m & Hm & H2).
  apply fit_Ok in Hm. destruct Hm as (Hm & _).
  inversion H2; subst s2; clear H2.
  cbn [train_df feature_cols model].
  exists tbl, y, m. repeat split; assumption.
Qed.

(** What a successful [step] leaves in the attributes set by
    [prep_data] and [train_model]. *)
Lemma step_trained (rs : RandomState) (s s' : State) (r : Z) (train : bool) :
  step rs s r train = Ok s' ->
  exists tbl y m,
    compute_features rs (add_negative_examples (edge_df s)) None (comm_dict s)
      = Ok tbl /\
    train_df s' = Some tbl /\
    feature_cols s' = Some (map fst (f_cols tbl)) /\
    f_link tbl = Some y /\
    m = liblinear_train rs (rows_of (length (f_keys tbl))
                                    (map snd (f_cols tbl))) y /\
    model s' = Some m.
Proof.
  intros H. pose proof (step_needs_no_kwargs _ _ _ _ _ H) as Hkw.
  unfold step in H.
  apply bind_Ok in H. destruct H as (s1 & H1 & H).
  apply bind_Ok in H. destruct H as (s2 & H2 & H).
  apply bind_Ok in H. destruct H as (s3 & H3 & H).
  apply update_edges_Ok in H3. destruct H3 as (kept & new_edges & _ & _ & ->).
  inversion H; subst s'; clear H.
  cbn [train_df feature_cols model with_edge_df].
  apply (trained_attrs rs s s1 s2 Hkw H1 H2).
Qed.

(** C4. In a pass of [step] from a state the simulator reaches: the
    candidate table has one row for each pair [a < b] of the node
    list of construction; its feature columns are the degrees and
    PageRank values of both ends in the graph [G] held before the
    pass (the graph of the edge table before the removal), the
    numbers of common neighbours in it, and the indicator columns of
    the labels given at construction; the model is the one trained in
    this pass and scores the columns named by [feature_cols]; the
    candidate rows equal, as [(source, target)], to a row that
    survives the removal are left out; the pairs appended are the
    first [min r c] of the [c] remaining rows sorted by descending
    score, so that no row left behind scores higher than an appended
    one.  They are [r] on a table of distinct rows with
    [source < target]. *)
Theorem rewiring_pass (rs0 : RandomState) (edges : list Pair)
        (kw : Kwargs)
        (s0 s s' : State) (calls : list (RandomState * Z * bool))
        (rs : RandomState) (r : Z) (train : bool) :
  init rs0 edges kw = Ok s0 ->
  run s0 calls = Ok s ->
  step rs s r train = Ok s' ->
  let pairs := ordered_pairs (node_list s0) in
  let deg := fun x => inject_Z (nx.degree (G s) x) in
  let common :=
    fun pair => inject_Z (Z.of_nat
                  (length (nx.common_neighbors (G s) (fst pair) (snd pair)))) in
  let feature_table :=
    [("deg_source"%string, map deg (map fst pairs));
     ("deg_target"%string, map deg (map snd pairs));
     ("pr_source"%string, map (nx_pagerank_numpy (G s)) (map fst pairs));
     ("pr_target"%string, map (nx_pagerank_numpy (G s)) (map snd pairs));
     ("common_neighbors"%string, map common pairs)]
    ++ get_dummies (map (combined_name (comm_dict s0)) pairs) in
  (forall a b, In (a, b) pairs <->
               In a (node_list s0) /\ In b (node_list s0) /\ (a < b)%Z) /\
  node_list s0 = nx.nodes (nx.from_pandas_edgelist edges) /\
  louvain_communities rs0 (nx.from_pandas_edgelist edges)
    = Ok (comm_dict s0, comms s0) /\
  nx.edges (G s) = nx.edges (nx.from_pandas_edgelist (edge_df s)) /\
  exists kept tbl y X m,
    sample rs (edge_df s) (Z.of_nat (length (edge_df s)) - r) = Ok kept /\
    compute_features rs (mkFrame pairs None) (Some (G s)) (comm_dict s)
      = Ok (mkFeatFrame pairs None feature_table) /\
    compute_features rs (add_negative_examples (edge_df s)) None (comm_dict s)
      = Ok tbl /\
    feature_cols s' = Some (map fst (f_cols tbl)) /\
    select_cols feature_table (map fst (f_cols tbl)) = Ok X /\
    f_link tbl = Some y /\
    m = liblinear_train rs (rows_of (length (f_keys tbl))
                                    (map snd (f_cols tbl))) y /\
    model s' = Some m /\
    let edge_score := map (predict_proba_1 m) (rows_of (length pairs) X) in
    let scored := combine pairs edge_score in
    let remaining :=
      filter (fun row => negb (mem_pair (fst row) kept)) scored in
    let sorted := sort_values_desc remaining in
    map fst scored = pairs /\
    (forall row, In row remaining <-> In row scored /\ ~ In (fst row) kept) /\
    Permutation sorted remaining /\
    edge_df s' = kept ++ map fst (firstn (Z.to_nat r) sorted) /\
    length (firstn (Z.to_nat r) sorted)
      = Nat.min (Z.to_nat r) (length remaining) /\
    (forall a b, In a (firstn (Z.to_nat r) sorted) ->
                 In b (skipn (Z.to_nat r) sorted) -> (snd b <= snd a)%Q) /\
    (simple_table (edge_df s) ->
     Z.to_nat r <= length remaining /\
     length (firstn (Z.to_nat r) sorted) = Z.to_nat r).
Proof.
  intros Hi Hr H pairs deg common feature_table.
  split; [intros a b; apply ordered_pairs_In |].
  assert (Hreach : reachable s) by (exists rs0, edges, kw, s0, calls; auto).
  pose proof (reachable_well_formed _ Hreach) as Hwf.
  pose proof Hwf as (_ & Hincl & Hends & Hcd & _).
  pose proof (run_fixed _ _ _ Hr) as (Hn0 & Hc0 & _).
  pose proof (init_Ok _ _ _ _ Hi) as (_ & HG0 & HN0 & HL0).
  rewrite HG0 in HN0, HL0.
  split; [exact HN0 |]. split; [exact HL0 |].
  split; [exact (reachable_graph_built s Hreach) |].
  pose proof (step_needs_no_kwargs _ _ _ _ _ H) as Hkw.
  destruct (step_trained _ _ _ _ _ H)
    as (tbl & y & m & Ht & _ & Hfc & Hy & Hm & Hmodel).
  apply step_Ok in H.
  destruct H as (s1 & s2 & kept & new_edges & H1 & H2 & Hk & Hn
                 & (Gm & Nm & Cm & _) & He & _ & _ & _ & _ & Hmodel2).
  assert (Hfc2 : feature_cols s2 = Some (map fst (f_cols tbl)) /\
                 model s2 = Some m).
  { destruct (trained_attrs rs s s1 s2 Hkw H1 H2)
      as (tbl2 & y2 & m2 & Ht2 & _ & F2 & Hy2 & Hm2 & M2).
    assert (tbl2 = tbl) by congruence. subst tbl2.
    assert (y2 = y) by congruence. subst y2.
    split; congruence. }
  destruct Hfc2 as (Hfc2 & Hm2).
  assert (Hne : node_list s <> []).
  { pose proof (trained_has_edges _ _ _ _ H1 H2) as Hedge.
    destruct (edge_df s) as [| e t]; [congruence |].
    inversion Hends as [| ? ? [Hin _] _]; subst.
    intros Hnil. rewrite Hnil in Hin. destruct Hin. }
  assert (Hg : nx.nodes (G s) <> []).
  { destruct (node_list s) as [| v t] eqn:Hnl; [congruence |].
    intros Hnil. specialize (Hincl v (or_introl eq_refl)).
    rewrite Hnil in Hincl. destruct Hincl. }
  specialize (Hcd Hne).
  pose proof (sample_spec _ _ _ _ Hk) as (Hrange & _ & _).
  assert (Hr0 : (0 <= r)%Z) by lia.
  apply get_predicted_edges_Ok in Hn.
  unfold candidates, with_edge_df in Hn.
  cbn [node_list G comm_dict edge_df model feature_cols] in Hn.
  destruct Hn as (feats & m' & cols & X & _ & Hf & Hm' & Hcols & HX & Hsc & Hnew).
  rewrite Nm, Gm, Cm in Hf. rewrite Nm in Hsc, Hnew.
  rewrite Hn0 in Hf, Hsc, Hnew. fold pairs in Hf, Hsc, Hnew.
  assert (Hfeats : feats = mkFeatFrame pairs None feature_table).
  { rewrite compute_features_supplied in Hf by assumption.
    apply features_with_table in Hf. rewrite Hc0 in Hf. exact Hf. }
  subst feats. cbn [f_cols] in HX.
  assert (cols = map fst (f_cols tbl)) by congruence. subst cols.
  assert (m' = m) by congruence. subst m'.
  exists kept, tbl, y, X, m.
  split; [exact Hk |]. split; [exact Hf |]. split; [exact Ht |].
  split; [exact Hfc |]. split; [exact HX |]. split; [exact Hy |].
  split; [exact Hm |]. split; [exact Hmodel |]. cbv zeta.
  rewrite head_nonneg in Hnew by assumption.
  assert (Hen : simple_table (edge_df s) ->
                Z.to_nat r <= length (available (with_edge_df s kept)))
    by (intros Hs; apply (simple_step_enough_candidates rs s r kept Hwf Hs Hk)).
  unfold available in Hen. cbn [edge_df node_list with_edge_df] in Hen.
  rewrite Hn0 in Hen. fold pairs in Hen.
  rewrite <- (@filter_fst_combine _ _ (fun k => negb (mem_pair k kept))
                                  pairs _ Hsc) in Hen.
  rewrite length_map in Hen.
  assert (Hlen : forall l : list (Pair * Q),
             length (firstn (Z.to_nat r) (sort_values_desc l))
             = Nat.min (Z.to_nat r) (length l)).
  { intros l. rewrite length_firstn.
    rewrite (Permutation_length (sort_values_perm _)). reflexivity. }
  split; [| split; [| split; [| split; [| split; [| split]]]]].
  - apply map_fst_combine_length, Hsc.
  - intros row. rewrite filter_In, negb_true_iff, mem_pair_false. tauto.
  - apply sort_values_perm.
  - rewrite He, Hnew. reflexivity.
  - apply Hlen.
  - intros a b Ha Hb.
    eapply (StronglySorted_app_cross (fun a b => (snd b <= snd a)%Q));
      [| exact Ha | exact Hb].
    rewrite firstn_skipn. apply sort_values_sorted.
  - intros Hs. specialize (Hen Hs). split; [exact Hen |].
    rewrite Hlen. lia.
Qed.

End PassTables.

Lemma rewiring_pass_witness :
  let s0 := started toy 0 path4 in
  let s := @after toy s0 [(1, 1%Z, true)] in
  let s' := @after toy s [(2, 1%Z, false)] in
  let pairs := ordered_pairs (node_list s0) in
  exists X m,
    sample (E := toy) 2 (edge_df s) (Z.of_nat (length (edge_df s)) - 1)
      = Ok [(1, 3); (2, 3)]%Z /\
    nx.edges (G s) = [(2, 3); (3, 4); (1, 3)]%Z /\
    compute_features (E := toy) 2 (mkFrame pairs None) (Some (G s))
                     (comm_dict s)
      = Ok (mkFeatFrame
              [(1, 2); (1, 3); (1, 4); (2, 3); (2, 4); (3, 4)]%Z None
              [("deg_source"%string, [1; 1; 1; 1; 1; 3]%Q);
               ("deg_target"%string, [1; 3; 1; 3; 1; 1]%Q);
               ("pr_source"%string, [0; 0; 0; 0; 0; 0]%Q);
               ("pr_target"%string, [0; 0; 0; 0; 0; 0]%Q);
               ("common_neighbors"%string, [1; 0; 1; 0; 1; 0]%Q);
               ("C00"%string, [1; 1; 1; 1; 1; 1]%Q)]) /\
    feature_cols s'
      = Some ["deg_source"; "deg_target"; "pr_source"; "pr_target";
              "common_neighbors"; "C00"]%string /\
    model s' = Some m /\
    map (predict_proba_1 m) (rows_of (length pairs) X)
      = [1; 0; 1; 0; 1; 0]%Q /\
    edge_df s' = [(1, 3); (2, 3); (1, 2)]%Z.
Proof.
  intros s0 s s' pairs.
  assert (Hi : init (E := toy) 0 path4 [] = Ok s0) by reflexivity.
  assert (Hr : run s0 [(1, 1%Z, true)] = Ok s) by (vm_compute; reflexivity).
  assert (Hstep : step (E := toy) 2 s 1 false = Ok s')
    by (vm_compute; reflexivity).
  destruct (@rewiring_pass toy toy_spec 0 path4 [] s0 s s' _ 2 1%Z false
                           Hi Hr Hstep)
    as (_ & _ & _ & HG & kept & tbl & y & X & m & Hk & Hf & Ht & Hfc & HX
        & Hy & Hm & Hmodel & _ & _ & _ & He & _).
  assert (Hkept : kept = [(1, 3); (2, 3)]%Z).
  { pose proof Hk as Hk'. vm_compute in Hk'. congruence. }
  assert (Htbl : map fst (f_cols tbl)
                 = ["deg_source"; "deg_target"; "pr_source"; "pr_target";
                    "common_neighbors"; "C00"]%string).
  { pose proof Ht as Ht'. vm_compute in Ht'. injection Ht' as <-.
    reflexivity. }
  rewrite Htbl in HX, Hfc.
  assert (HXv : X = [[1; 1; 1; 1; 1; 3]; [1; 3; 1; 3; 1; 1];
                     [0; 0; 0; 0; 0; 0]; [0; 0; 0; 0; 0; 0];
                     [1; 0; 1; 0; 1; 0]; [1; 1; 1; 1; 1; 1]]%Q).
  { pose proof HX as HX'. vm_compute in HX'. congruence. }
  exists X, m.
  split; [rewrite <- Hkept; exact Hk |].
  split; [rewrite HG; vm_compute; reflexivity |].
  split; [eapply eq_trans; [exact Hf | vm_compute; reflexivity] |].
  split; [exact Hfc |].
  split; [exact Hmodel |].
  split; [rewrite HXv; vm_compute; reflexivity |].
  rewrite He, HXv, Hkept. vm_compute. reflexivity.
Defined.

(** C4 fails on the code in two respects.  A candidate is left out
    when it equals a kept row as [(source, target)], not when its two
    nodes are joined: on the table [back_edge] a step with removal
    count [1] keeps the rows [(2, 3)] and [(2, 1)] and appends the
    pair [(1, 2)], whose nodes the kept rows already join.  And the
    pairs appended are fewer than [r] when fewer remain: on the
    table [tripled] a step with removal count [4] keeps no row and
    appends the three pairs there are. *)
Lemma rewiring_pass_counterexample :
  (let s := started toy 0 back_edge in
   let s' := @after toy s [(2, 1%Z, true)] in
   init (E := toy) 0 back_edge [] = Ok s /\
   step (E := toy) 2 s 1 true = Ok s' /\
   sample (E := toy) 2 (edge_df s) (Z.of_nat (length (edge_df s)) - 1)
     = Ok [(2, 3); (2, 1)]%Z /\
   nx.has_edge (nx.from_pandas_edgelist [(2, 3); (2, 1)]%Z) 1 2 = true /\
   edge_df s' = [(2, 3); (2, 1)]%Z ++ [(1, 2)]%Z) /\
  (let s := started toy 0 tripled in
   let s' := @after toy s [(0, 4%Z, true)] in
   init (E := toy) 0 tripled [] = Ok s /\
   step (E := toy) 0 s 4 true = Ok s' /\
   sample (E := toy) 0 (edge_df s) (Z.of_nat (length (edge_df s)) - 4)
     = Ok [] /\
   edge_df s' = [] ++ [(2, 3); (1, 2); (1, 3)]%Z /\
   length [(2, 3); (1, 2); (1, 3)]%Z < Z.to_nat 4).
Proof.
  split; intros s s'.
  - repeat (split; [vm_compute; reflexivity |]). vm_compute. reflexivity.
  - repeat (split; [vm_compute; reflexivity |]). vm_compute. lia.
Qed.
